(** * SMART time-integration engine: a shallow embedding of [smart/model.py]

    The development follows the methods of [Model] that drive one implicit
    time step: the registry of active compartments, the block residual
    builder, the step controller (clock, prescribed checkpoints, final-time
    clipping, rollback), the negative-solution policy of [monolithic_solve],
    the update of time-dependent parameters and the loader of field-valued
    parameters. It goes on with the checks and the linking steps of
    [initialize] (mesh dimensionality, name spaces, reaction validity and
    topology, species and their compartments), the Jacobian blocks and the
    step size chosen from the iteration count.

    Conventions.
    - Python exceptions are values of [exn]; a method that may raise returns
      a [result].
    - A Python [float] is an IEEE binary64 value, a [spec_float] with
      [prec = 53] and [emax = 1024]; arithmetic on floats uses the rounding
      operations of [SpecFloat].
    - A [Decimal] quantized to [time_precision] digits is the integer
      coefficient it carries (a number of "ticks" of size [10^-time_precision]).
      Coefficients are assumed to stay below the 28 significant digits of the
      default decimal context, so that Decimal sums and differences are exact.
    - Objects that the source shares between containers (compartments) live
      in a store and are named by their position in it. *)

From Stdlib Require Import ZArith QArith Qabs Qpower Bool Lia Lqa String.
From Stdlib Require Import SpecFloat.
From stdpp Require Import base option list sorting strings gmap.

Open Scope Z_scope.

(** ** Python results and exceptions *)
Module Py.

Inductive exn : Type :=
| AssertionError
| ValueError
| IndexError
| AttributeError
| RuntimeError
| RecursionError
| InvalidOperation
| Exception.

Inductive result (A : Type) : Type :=
| Ok (a : A)
| Raise (e : exn).
Arguments Ok {A} a.
Arguments Raise {A} e.

Definition bind {A B : Type} (m : result A) (k : A -> result B) : result B :=
  match m with
  | Ok a => k a
  | Raise e => Raise e
  end.

Definition returns {A : Type} (m : result A) : Prop := exists a, m = Ok a.

Definition raises {A : Type} (m : result A) : Prop := exists e, m = Raise e.

(** [l[i]] with Python's negative indices. *)
Definition index {A : Type} (l : list A) (i : Z) : result A :=
  let n := Z.of_nat (length l) in
  let j := if i <? 0 then n + i else i in
  if (0 <=? j) && (j <? n)
  then match l !! Z.to_nat j with
       | Some x => Ok x
       | None => Raise IndexError
       end
  else Raise IndexError.

(** [del l[i]] with Python's negative indices. *)
Definition del {A : Type} (l : list A) (i : Z) : result (list A) :=
  let n := Z.of_nat (length l) in
  let j := if i <? 0 then n + i else i in
  if (0 <=? j) && (j <? n)
  then Ok (delete (Z.to_nat j) l)
  else Raise IndexError.

(** [l.pop()] seen from the list: the list without its last element. *)
Definition pop {A : Type} (l : list A) : result (list A) :=
  match l with
  | [] => Raise IndexError
  | _ => Ok (removelast l)
  end.

(** [l[i] = x] for [0 <= i]; Python raises out of range. *)
Definition setitem {A : Type} (l : list A) (i : nat) (x : A) : result (list A) :=
  if decide (i < length l)%nat then Ok (<[i := x]> l) else Raise IndexError.

End Py.
Import Py.

Notation "'let*' x ':=' m 'in' k" := (Py.bind m (fun x => k))
  (at level 10, x name, m at level 100, k at level 200).
Notation "'let*' ' pat ':=' m 'in' k" := (Py.bind m (fun 'pat => k))
  (at level 10, pat pattern, m at level 100, k at level 200).

(** ** Binary64 floats *)
Module Float.

Definition prec64 : Z := 53.
Definition emax64 : Z := 1024.

Definition float : Type := spec_float.

Definition of_Z (z : Z) : float :=
  match z with
  | Z0 => S754_zero false
  | Zpos p => S754_finite false p 0
  | Zneg p => S754_finite true p 0
  end.

(** The binary64 nearest to a rational (ties to even): what [float(x)] gives
    for a [Decimal] [x], and what a decimal literal denotes. *)
Definition of_Q (q : Q) : float :=
  SFdiv prec64 emax64 (of_Z (Qnum q)) (of_Z (Zpos (Qden q))).

(** The exact rational value of a finite float: what [Decimal(x)] holds for
    a float [x]. *)
Definition to_Q (x : float) : option Q :=
  match x with
  | S754_zero _ => Some 0%Q
  | S754_finite s m e =>
      let z := if s then Zneg m else Zpos m in
      Some (match e with
            | Z0 => inject_Z z
            | Zpos p => inject_Z (z * 2 ^ Zpos p)
            | Zneg p => Qmake z (2 ^ p)
            end)
  | S754_infinity _ => None
  | S754_nan => None
  end.

Definition add : float -> float -> float := SFadd prec64 emax64.
Definition sub : float -> float -> float := SFsub prec64 emax64.
Definition mul : float -> float -> float := SFmul prec64 emax64.
Definition div : float -> float -> float := SFdiv prec64 emax64.
Definition abs : float -> float := SFabs.
Definition ltb : float -> float -> bool := SFltb.
Definition leb : float -> float -> bool := SFleb.
Definition eqb : float -> float -> bool := SFeqb.

Definition zero : float := S754_zero false.

(** The exact value of the float a decimal literal denotes. *)
Definition literal (q : Q) : Q :=
  match to_Q (of_Q q) with
  | Some v => v
  | None => q
  end.

(** The rational [m * 2^e] a mantissa and an exponent stand for. *)
Definition value (m e : Z) : Q := (inject_Z m * 2 ^ e)%Q.

(** The number of low bits [shr_fexp] drops from a mantissa [m] at exponent
    [e] to fit the format. *)
Definition dropped (prec emax m e : Z) : Z :=
  Z.max 0 (fexp prec emax (Zdigits2 m + e) - e).

Definition isnan (x : float) : bool :=
  match x with
  | S754_nan => true
  | _ => false
  end.

Definition isfinite (x : float) : bool :=
  match x with
  | S754_zero _ => true
  | S754_finite _ _ _ => true
  | _ => false
  end.

End Float.

(** ** Decimal times at a fixed precision *)
Module Decimal.

(** Rounding of a rational to an integer, ties to even
    ([ROUND_HALF_EVEN], the rounding of the default decimal context). *)
Definition round_half_even (q : Q) : Z :=
  let n := Qnum q in
  let d := Zpos (Qden q) in
  let f := n / d in
  let r := n mod d in
  match 2 * r ?= d with
  | Lt => f
  | Gt => f + 1
  | Eq => if Z.even f then f else f + 1
  end.

Section Precision.

(** [config.solver["time_precision"]] *)
Variable time_precision : nat.

(** [1 / _base_t]: the number of ticks in one time unit. *)
Definition ticks_per_unit : positive := Z.to_pos (10 ^ Z.of_nat time_precision).

(** The value of a quantized Decimal with coefficient [k]. *)
Definition dec (k : Z) : Q := Qmake k ticks_per_unit.

(** [Decimal(x).quantize(self._base_t)], returning the coefficient. *)
Definition rounded_decimal (x : Q) : Z :=
  round_half_even (x * inject_Z (Zpos ticks_per_unit)).

End Precision.

End Decimal.

(** ** Domain registry: [_init_4_1_get_active_compartments] *)
Module Registry.

(** The attributes of a compartment object that activation reads or writes.
    [dof_index] is unset until activation assigns it. *)
Record Compartment : Type := {
  name : string;
  num_species : nat;
  num_dofs : nat;
  dof_index : option nat
}.

Definition set_dof_index (idx : nat) (c : Compartment) : Compartment :=
  {| name := name c;
     num_species := num_species c;
     num_dofs := num_dofs c;
     dof_index := Some idx |}.

(** [self.cc.Dict.values()]: the compartment objects in declaration order.
    A reference to a compartment is its position in this store, so that
    [_active_compartments], [_all_compartments] and [cc] share the objects. *)
Definition store : Type := list Compartment.

(** [compartment.num_species < 1] read through a reference. *)
Definition has_no_species (cc : list Compartment) (r : nat) : bool :=
  match cc !! r with
  | Some c => Nat.ltb (num_species c) 1
  | None => false
  end.

(** First loop: [rm_idx] collects the positions of the compartments without
    species. The numpy array holds integer-valued floats, kept here as [Z]. *)
Fixpoint collect_rm_idx (cc : list Compartment) (active : list nat) (it_idx : Z)
    (rm_idx : list Z) : list Z :=
  match active with
  | [] => rm_idx
  | compartment :: rest =>
      let rm_idx' :=
        if has_no_species cc compartment then rm_idx ++ [it_idx] else rm_idx in
      collect_rm_idx cc rest (it_idx + 1) rm_idx'
  end.

(** Second loop: [for i in range(len(rm_idx))], the range being fixed on
    entry; every pass deletes one entry and shifts the whole array by one. *)
Fixpoint delete_rm_idx (range : list nat) (rm_idx : list Z)
    (active : list nat) : result (list nat) :=
  match range with
  | [] => Ok active
  | i :: range' =>
      let* rm_cur := Py.index rm_idx (Z.of_nat i) in
      let* active' := Py.del active rm_cur in
      delete_rm_idx range' (map (fun x => x - 1) rm_idx) active'
  end.

(** Third loop: [for idx, compartment in enumerate(...)] writes
    [compartment.dof_index = idx] into the shared object. *)
Fixpoint assign_dof_index (cc : list Compartment) (idx : nat) (active : list nat) : list Compartment :=
  match active with
  | [] => cc
  | compartment :: rest =>
      assign_dof_index (alter (set_dof_index idx) compartment cc) (S idx) rest
  end.

(** The state the method leaves behind. *)
Record activation : Type := {
  cc : list Compartment;
  _active_compartments : list nat;
  _all_compartments : list nat
}.

Definition _init_4_1_get_active_compartments (cc0 : list Compartment) : result activation :=
  let all := seq 0 (length cc0) in
  let rm_idx := collect_rm_idx cc0 all 0 [] in
  let* active := delete_rm_idx (seq 0 (length rm_idx)) rm_idx all in
  Ok {| cc := assign_dof_index cc0 0 active;
        _active_compartments := active;
        _all_compartments := all |}.

(** Positions, counted from [off], of the references without species: what
    the first loop appends to [rm_idx]. *)
Fixpoint rm_positions (cc : list Compartment) (active : list nat) (off : Z) : list Z :=
  match active with
  | [] => []
  | r :: rest =>
      if has_no_species cc r
      then off :: rm_positions cc rest (off + 1)
      else rm_positions cc rest (off + 1)
  end.

(** The second loop seen from the entries it still has to read, [shift]
    counting the passes already made. *)
Fixpoint delete_shifted (shift : Z) (rm : list Z) (active : list nat)
    : result (list nat) :=
  match rm with
  | [] => Ok active
  | r :: rs =>
      let* active' := Py.del active (r - shift) in
      delete_shifted (shift + 1) rs active'
  end.

(** The references that own at least one species, in declaration order. *)
Definition with_species (cc : list Compartment) (refs : list nat) : list nat :=
  List.filter (fun r => negb (has_no_species cc r)) refs.

(** The compartments behind a list of references. *)
Definition deref (cc : list Compartment) (refs : list nat) : list Compartment :=
  omap (fun r => cc !! r) refs.

(** The block indices run in descending order of a size measure. *)
Fixpoint descending (sizes : list nat) : bool :=
  match sizes with
  | a :: (b :: _) as rest => Nat.leb b a && descending rest
  | _ => true
  end.

(** Example stores. *)
Definition comp_A : Compartment :=
  {| name := "A"; num_species := 1; num_dofs := 10; dof_index := None |}.
Definition comp_B : Compartment :=
  {| name := "B"; num_species := 2; num_dofs := 40; dof_index := None |}.
Definition comp_E : Compartment :=
  {| name := "E"; num_species := 0; num_dofs := 0; dof_index := None |}.

End Registry.

(** ** Block system builder: [get_block_F] and [get_mesh_by_id] *)
Module Blocks.

(** A child mesh, as [self.parent_mesh.all_meshes.values()] lists it. *)
Record Mesh : Type := {
  mesh_id : Z;
  mesh_name : string
}.

(** What [sub_forms_by_domain] yields for one integration domain: the mesh
    the integrals live on and whether the form has integrals at all. *)
Record SubForm : Type := {
  sub_mesh : Z;
  sub_empty : bool
}.

(** One block of [d.extract_blocks(Fsum)]: the part of its test function,
    whether it has integrals, and its decomposition by integration domain. *)
Record Form : Type := {
  part : nat;
  empty : bool;
  sub_forms_by_domain : list (option SubForm)
}.

(** The records sent to [logger.warning]. *)
Inductive log_record : Type :=
| block_is_empty (idx : nat) (compartment : string)
| block_is_empty_on (idx : nat) (compartment : string) (domain : string).

(** [get_mesh_by_id]: the loop body returns or raises on its first pass, so
    only the first mesh is ever inspected; an empty dictionary falls through
    and returns [None]. *)
Definition get_mesh_by_id (all_meshes : list Mesh) (id : Z)
    : result (option Mesh) :=
  match all_meshes with
  | [] => Ok None
  | mesh :: _ =>
      if mesh_id mesh =? id then Ok (Some mesh) else Raise ValueError
  end.

(** [self.cc.get_index(idx).name]: the name of the [idx]-th declared
    compartment. The container class is not part of the sources at hand; it is
    taken as the list of the declared names. *)
Definition get_index_name (cc_names : list string) (idx : nat) : result string :=
  Py.index cc_names (Z.of_nat idx).

(** [Ftemp[Fi.arguments()[0].part()] = Fi] for every extracted block. *)
Fixpoint place_blocks (Fblock : list Form) (Ftemp : list (option Form))
    : result (list (option Form)) :=
  match Fblock with
  | [] => Ok Ftemp
  | Fi :: rest =>
      let* Ftemp' := Py.setitem Ftemp (part Fi) (Some Fi) in
      place_blocks rest Ftemp'
  end.

(** The inner loop over [sub_forms_by_domain(Fi)]. *)
Fixpoint split_by_domain (cc_names : list string) (all_meshes : list Mesh)
    (idx : nat) (subs : list (option SubForm))
    (Fs : list (option SubForm)) (log : list log_record)
    : result (list (option SubForm) * list log_record) :=
  match subs with
  | [] => Ok (Fs, log)
  | Fsub :: rest =>
      match Fsub with
      | None =>
          (* [Fsub.mesh()] on [None] *)
          Raise AttributeError
      | Some f =>
          if sub_empty f then
            let* mesh := get_mesh_by_id all_meshes (sub_mesh f) in
            match mesh with
            | None => Raise AttributeError
            | Some m =>
                let* cname := get_index_name cc_names idx in
                split_by_domain cc_names all_meshes idx rest (Fs ++ [None])
                  (log ++ [block_is_empty_on idx cname (mesh_name m)])
            end
          else
            split_by_domain cc_names all_meshes idx rest (Fs ++ [Some f]) log
      end
  end.

(** The outer loop over [enumerate(Fblock)]. *)
Fixpoint split_blocks (cc_names : list string) (all_meshes : list Mesh)
    (idx : nat) (Fblock : list (option Form))
    (Flist : list (list (option SubForm))) (log : list log_record)
    : result (list (list (option SubForm)) * list log_record) :=
  match Fblock with
  | [] => Ok (Flist, log)
  | Fi :: rest =>
      let skip :=
        let* cname := get_index_name cc_names idx in
        split_blocks cc_names all_meshes (S idx) rest (Flist ++ [[None]])
          (log ++ [block_is_empty idx cname]) in
      match Fi with
      | None => skip
      | Some F =>
          if empty F then skip
          else
            let* '(Fs, log') :=
              split_by_domain cc_names all_meshes idx
                (sub_forms_by_domain F) [] log in
            split_blocks cc_names all_meshes (S idx) rest (Flist ++ [Fs]) log'
      end
  end.

(** [get_block_F(Fsum, u)], given the blocks extracted from [Fsum] and
    [len(u)]. It returns [Flist] and the warnings logged on the way. *)
Definition get_block_F (cc_names : list string) (all_meshes : list Mesh)
    (extracted : list Form) (len_u : nat)
    : result (list (list (option SubForm)) * list log_record) :=
  let* Fblock :=
    if decide (length extracted <> len_u)
    then place_blocks extracted (replicate len_u None)
    else Ok (map Some extracted) in
  if decide (length Fblock = len_u)
  then split_blocks cc_names all_meshes 0 Fblock [] []
  else Raise AssertionError.

(** Example: two meshes, one block whose second integration domain carries
    no integrals. *)
Definition mesh_cyto : Mesh := {| mesh_id := 1; mesh_name := "cyto" |}.
Definition mesh_pm : Mesh := {| mesh_id := 2; mesh_name := "pm" |}.
Definition F_cyto : Form :=
  {| part := 0;
     empty := false;
     sub_forms_by_domain :=
       [Some {| sub_mesh := 1; sub_empty := false |};
        Some {| sub_mesh := 2; sub_empty := true |}] |}.
Definition F_first_mesh : Form :=
  {| part := 0;
     empty := false;
     sub_forms_by_domain :=
       [Some {| sub_mesh := 1; sub_empty := true |};
        Some {| sub_mesh := 2; sub_empty := false |}] |}.

End Blocks.

(** ** The time-stepping engine *)
Module Engine.

(** The local values of a dolfin vector. *)
Definition vector : Type := list Float.float.

(** *** numpy helpers *)

(** [np.flatnonzero]: the positions of the true entries. *)
Fixpoint flatnonzero_from (i : nat) (bs : list bool) : list nat :=
  match bs with
  | [] => []
  | b :: rest =>
      if b then i :: flatnonzero_from (S i) rest
      else flatnonzero_from (S i) rest
  end.

Definition flatnonzero (bs : list bool) : list nat := flatnonzero_from 0 bs.

Definition rtol : Float.float := Float.of_Q (1 # 100000).
Definition atol : Float.float := Float.of_Q (1 # 100000000).

(** [np.isclose(a, b)] with the default tolerances:
    [abs(a - b) <= atol + rtol * abs(b)] for finite arguments, equality
    otherwise. *)
Definition isclose (a b : Float.float) : bool :=
  if Float.isfinite a && Float.isfinite b
  then Float.leb (Float.abs (Float.sub a b))
                 (Float.add atol (Float.mul rtol (Float.abs b)))
  else Float.eqb a b.

(** The interpolation step of [np.interp] inside the sampled range, the
    sample points being increasing: the segment that holds [x] is the first
    one whose right end lies beyond [x]; the last sample answers for itself. *)
Fixpoint interp_scan (x x0 f0 : Float.float)
    (rest : list (Float.float * Float.float)) : Float.float :=
  match rest with
  | [] => f0
  | (x1, f1) :: rest' =>
      if Float.ltb x x1 then
        if Float.eqb x x0 then f0
        else
          let slope := Float.div (Float.sub f1 f0) (Float.sub x1 x0) in
          Float.add (Float.mul slope (Float.sub x x0)) f0
      else interp_scan x x1 f1 rest'
  end.

(** [np.interp(x, xp, fp, left, right)] on the rows [(xp, fp)]. *)
Definition np_interp (x : Float.float) (data : list (Float.float * Float.float))
    (left right : Float.float) : result Float.float :=
  match data with
  | [] => Raise ValueError
  | (x0, f0) :: rest =>
      if Float.isnan x then Ok x
      else if Float.ltb x x0 then Ok left
      else if Float.ltb (fst (List.last data (x0, f0))) x then Ok right
      else Ok (interp_scan x x0 f0 rest)
  end.

(** Comparison of a Decimal with a float: Python compares the exact values
    and signals [InvalidOperation] on a NaN. *)
Definition decimal_gt_float (x : Q) (y : Float.float) : result bool :=
  match y with
  | S754_nan => Raise InvalidOperation
  | S754_infinity s => Ok s
  | _ =>
      match Float.to_Q y with
      | Some q => Ok (negb (Qle_bool x q))
      | None => Raise InvalidOperation
      end
  end.

Definition decimal_lt_float (x : Q) (y : Float.float) : result bool :=
  match y with
  | S754_nan => Raise InvalidOperation
  | S754_infinity s => Ok (negb s)
  | _ =>
      match Float.to_Q y with
      | Some q => Ok (negb (Qle_bool q x))
      | None => Raise InvalidOperation
      end
  end.

(** *** Parameters *)

Inductive ParameterType : Type :=
| constant
| expression
| from_file
| from_xdmf.

(** A parameter object. Symbolic expressions are kept through what the
    engine asks of them: [sym_expr x] is [sym_expr.subs({"t": x}).evalf()],
    [preint_sym_expr] the same for the antiderivative when there is one, and
    [quad a b] the value [integrate.quad(lambdify(t, sym_expr), a, b)]
    returns. [h5_file] lists the datasets [VisualisationVector/0, 1, ...] and
    [mesh_map] is the dof-to-vertex map of the parameter's function space. *)
Record parameter : Type := {
  name : string;
  type : ParameterType;
  is_time_dependent : bool;
  use_preintegration : bool;
  is_space_dependent : bool;
  sym_expr : Float.float -> Float.float;
  preint_sym_expr : option (Float.float -> Float.float);
  quad : Float.float -> Float.float -> Float.float;
  sampling_data : list (Float.float * Float.float);
  preint_sampling_data : list (Float.float * Float.float);
  value : Float.float;
  value_vector : list (Float.float * Float.float);
  int_vec : list Float.float;
  dolfin_constant : Float.float;
  dolfin_expression : option Float.float;
  h5_file : list vector;
  tVec : list Float.float;
  mesh_map : list nat;
  dolfin_function : vector
}.

Definition put_value (v : Float.float) (p : parameter) : parameter :=
  {| name := name p; type := type p;
     is_time_dependent := is_time_dependent p;
     use_preintegration := use_preintegration p;
     is_space_dependent := is_space_dependent p; sym_expr := sym_expr p;
     preint_sym_expr := preint_sym_expr p; quad := quad p;
     sampling_data := sampling_data p;
     preint_sampling_data := preint_sampling_data p; value := v;
     value_vector := value_vector p; int_vec := int_vec p;
     dolfin_constant := dolfin_constant p;
     dolfin_expression := dolfin_expression p; h5_file := h5_file p;
     tVec := tVec p; mesh_map := mesh_map p;
     dolfin_function := dolfin_function p |}.
Definition put_value_vector (v : list (Float.float * Float.float)) (p : parameter) : parameter :=
  {| name := name p; type := type p;
     is_time_dependent := is_time_dependent p;
     use_preintegration := use_preintegration p;
     is_space_dependent := is_space_dependent p; sym_expr := sym_expr p;
     preint_sym_expr := preint_sym_expr p; quad := quad p;
     sampling_data := sampling_data p;
     preint_sampling_data := preint_sampling_data p; value := value p;
     value_vector := v; int_vec := int_vec p;
     dolfin_constant := dolfin_constant p;
     dolfin_expression := dolfin_expression p; h5_file := h5_file p;
     tVec := tVec p; mesh_map := mesh_map p;
     dolfin_function := dolfin_function p |}.
Definition put_int_vec (v : list Float.float) (p : parameter) : parameter :=
  {| name := name p; type := type p;
     is_time_dependent := is_time_dependent p;
     use_preintegration := use_preintegration p;
     is_space_dependent := is_space_dependent p; sym_expr := sym_expr p;
     preint_sym_expr := preint_sym_expr p; quad := quad p;
     sampling_data := sampling_data p;
     preint_sampling_data := preint_sampling_data p; value := value p;
     value_vector := value_vector p; int_vec := v;
     dolfin_constant := dolfin_constant p;
     dolfin_expression := dolfin_expression p; h5_file := h5_file p;
     tVec := tVec p; mesh_map := mesh_map p;
     dolfin_function := dolfin_function p |}.
Definition put_dolfin_constant (v : Float.float) (p : parameter) : parameter :=
  {| name := name p; type := type p;
     is_time_dependent := is_time_dependent p;
     use_preintegration := use_preintegration p;
     is_space_dependent := is_space_dependent p; sym_expr := sym_expr p;
     preint_sym_expr := preint_sym_expr p; quad := quad p;
     sampling_data := sampling_data p;
     preint_sampling_data := preint_sampling_data p; value := value p;
     value_vector := value_vector p; int_vec := int_vec p;
     dolfin_constant := v; dolfin_expression := dolfin_expression p;
     h5_file := h5_file p; tVec := tVec p; mesh_map := mesh_map p;
     dolfin_function := dolfin_function p |}.
Definition put_dolfin_expression (v : option Float.float) (p : parameter) : parameter :=
  {| name := name p; type := type p;
     is_time_dependent := is_time_dependent p;
     use_preintegration := use_preintegration p;
     is_space_dependent := is_space_dependent p; sym_expr := sym_expr p;
     preint_sym_expr := preint_sym_expr p; quad := quad p;
     sampling_data := sampling_data p;
     preint_sampling_data := preint_sampling_data p; value := value p;
     value_vector := value_vector p; int_vec := int_vec p;
     dolfin_constant := dolfin_constant p; dolfin_expression := v;
     h5_file := h5_file p; tVec := tVec p; mesh_map := mesh_map p;
     dolfin_function := dolfin_function p |}.
Definition put_dolfin_function (v : vector) (p : parameter) : parameter :=
  {| name := name p; type := type p;
     is_time_dependent := is_time_dependent p;
     use_preintegration := use_preintegration p;
     is_space_dependent := is_space_dependent p; sym_expr := sym_expr p;
     preint_sym_expr := preint_sym_expr p; quad := quad p;
     sampling_data := sampling_data p;
     preint_sampling_data := preint_sampling_data p; value := value p;
     value_vector := value_vector p; int_vec := int_vec p;
     dolfin_constant := dolfin_constant p;
     dolfin_expression := dolfin_expression p; h5_file := h5_file p;
     tVec := tVec p; mesh_map := mesh_map p; dolfin_function := v |}.

(** *** The model object *)

(** [self.config.solver] *)
Record SolverConfig : Type := {
  time_precision : nat;
  initial_dt : Q;
  final_t_config : Q;
  adjust_dt : option (list (Q * Q));
  use_snes : bool;
  reset_timestep_for_negative_solution : bool;
  attempt_timestep_restart_on_divergence : bool
}.

Definition put_adjust_dt (v : option (list (Q * Q))) (c : SolverConfig)
    : SolverConfig :=
  {| time_precision := time_precision c;
     initial_dt := initial_dt c;
     final_t_config := final_t_config c;
     adjust_dt := v;
     use_snes := use_snes c;
     reset_timestep_for_negative_solution :=
       reset_timestep_for_negative_solution c;
     attempt_timestep_restart_on_divergence :=
       attempt_timestep_restart_on_divergence c |}.

(** An entry of [self.failed_solves]:
    [(idx, idx_nl[-1], idx_l[-1], tvec[-1], dtvec[-1], reason)]. *)
Definition failed_solve : Type := (Z * nat * nat * Z * Z * Z)%type.

(** What one call of the nonlinear solver leaves behind: the solution it
    wrote into [u["u"]], its iteration counts, whether it converged and its
    converged-reason code. *)
Record SolverResult : Type := {
  sol_u : list vector;
  its : nat;
  ksp_its : nat;
  converged : bool;
  reason : Z
}.

(** The attributes of [Model] that the time loop reads or writes. Times are
    Decimal coefficients at [time_precision] digits; [u_u] and [u_n] are
    [self.u["u"]] and [self.u["n"]], one vector per active compartment.
    The dolfin constants [T] and [dT] mirror [t] and [dt] and are left out;
    [tn] is unset in the source until the first step and starts at zero
    here. *)
Record Model : Type := {
  config : SolverConfig;
  t : Z;
  tn : Z;
  dt : Z;
  final_t : Z;
  tvec : list Z;
  dtvec : list Z;
  idx : Z;
  idx_nl : list nat;
  idx_l : list nat;
  reset_dt : bool;
  _failed_to_converge : bool;
  failed_solves : list failed_solve;
  num_active_compartments : nat;
  u_u : list vector;
  u_n : list vector;
  _ubackend : vector;
  pc : list parameter
}.

Definition with_config (v : SolverConfig) (self : Model) : Model :=
  {| config := v; t := t self; tn := tn self; dt := dt self;
     final_t := final_t self; tvec := tvec self; dtvec := dtvec self;
     idx := idx self; idx_nl := idx_nl self; idx_l := idx_l self;
     reset_dt := reset_dt self;
     _failed_to_converge := _failed_to_converge self;
     failed_solves := failed_solves self;
     num_active_compartments := num_active_compartments self;
     u_u := u_u self; u_n := u_n self; _ubackend := _ubackend self;
     pc := pc self |}.
Definition with_t (v : Z) (self : Model) : Model :=
  {| config := config self; t := v; tn := tn self; dt := dt self;
     final_t := final_t self; tvec := tvec self; dtvec := dtvec self;
     idx := idx self; idx_nl := idx_nl self; idx_l := idx_l self;
     reset_dt := reset_dt self;
     _failed_to_converge := _failed_to_converge self;
     failed_solves := failed_solves self;
     num_active_compartments := num_active_compartments self;
     u_u := u_u self; u_n := u_n self; _ubackend := _ubackend self;
     pc := pc self |}.
Definition with_tn (v : Z) (self : Model) : Model :=
  {| config := config self; t := t self; tn := v; dt := dt self;
     final_t := final_t self; tvec := tvec self; dtvec := dtvec self;
     idx := idx self; idx_nl := idx_nl self; idx_l := idx_l self;
     reset_dt := reset_dt self;
     _failed_to_converge := _failed_to_converge self;
     failed_solves := failed_solves self;
     num_active_compartments := num_active_compartments self;
     u_u := u_u self; u_n := u_n self; _ubackend := _ubackend self;
     pc := pc self |}.
Definition with_dt (v : Z) (self : Model) : Model :=
  {| config := config self; t := t self; tn := tn self; dt := v;
     final_t := final_t self; tvec := tvec self; dtvec := dtvec self;
     idx := idx self; idx_nl := idx_nl self; idx_l := idx_l self;
     reset_dt := reset_dt self;
     _failed_to_converge := _failed_to_converge self;
     failed_solves := failed_solves self;
     num_active_compartments := num_active_compartments self;
     u_u := u_u self; u_n := u_n self; _ubackend := _ubackend self;
     pc := pc self |}.
Definition with_tvec (v : list Z) (self : Model) : Model :=
  {| config := config self; t := t self; tn := tn self; dt := dt self;
     final_t := final_t self; tvec := v; dtvec := dtvec self;
     idx := idx self; idx_nl := idx_nl self; idx_l := idx_l self;
     reset_dt := reset_dt self;
     _failed_to_converge := _failed_to_converge self;
     failed_solves := failed_solves self;
     num_active_compartments := num_active_compartments self;
     u_u := u_u self; u_n := u_n self; _ubackend := _ubackend self;
     pc := pc self |}.
Definition with_dtvec (v : list Z) (self : Model) : Model :=
  {| config := config self; t := t self; tn := tn self; dt := dt self;
     final_t := final_t self; tvec := tvec self; dtvec := v; idx := idx self;
     idx_nl := idx_nl self; idx_l := idx_l self; reset_dt := reset_dt self;
     _failed_to_converge := _failed_to_converge self;
     failed_solves := failed_solves self;
     num_active_compartments := num_active_compartments self;
     u_u := u_u self; u_n := u_n self; _ubackend := _ubackend self;
     pc := pc self |}.
Definition with_idx (v : Z) (self : Model) : Model :=
  {| config := config self; t := t self; tn := tn self; dt := dt self;
     final_t := final_t self; tvec := tvec self; dtvec := dtvec self;
     idx := v; idx_nl := idx_nl self; idx_l := idx_l self;
     reset_dt := reset_dt self;
     _failed_to_converge := _failed_to_converge self;
     failed_solves := failed_solves self;
     num_active_compartments := num_active_compartments self;
     u_u := u_u self; u_n := u_n self; _ubackend := _ubackend self;
     pc := pc self |}.
Definition with_idx_nl (v : list nat) (self : Model) : Model :=
  {| config := config self; t := t self; tn := tn self; dt := dt self;
     final_t := final_t self; tvec := tvec self; dtvec := dtvec self;
     idx := idx self; idx_nl := v; idx_l := idx_l self;
     reset_dt := reset_dt self;
     _failed_to_converge := _failed_to_converge self;
     failed_solves := failed_solves self;
     num_active_compartments := num_active_compartments self;
     u_u := u_u self; u_n := u_n self; _ubackend := _ubackend self;
     pc := pc self |}.
Definition with_idx_l (v : list nat) (self : Model) : Model :=
  {| config := config self; t := t self; tn := tn self; dt := dt self;
     final_t := final_t self; tvec := tvec self; dtvec := dtvec self;
     idx := idx self; idx_nl := idx_nl self; idx_l := v;
     reset_dt := reset_dt self;
     _failed_to_converge := _failed_to_converge self;
     failed_solves := failed_solves self;
     num_active_compartments := num_active_compartments self;
     u_u := u_u self; u_n := u_n self; _ubackend := _ubackend self;
     pc := pc self |}.
Definition with_reset_dt (v : bool) (self : Model) : Model :=
  {| config := config self; t := t self; tn := tn self; dt := dt self;
     final_t := final_t self; tvec := tvec self; dtvec := dtvec self;
     idx := idx self; idx_nl := idx_nl self; idx_l := idx_l self;
     reset_dt := v; _failed_to_converge := _failed_to_converge self;
     failed_solves := failed_solves self;
     num_active_compartments := num_active_compartments self;
     u_u := u_u self; u_n := u_n self; _ubackend := _ubackend self;
     pc := pc self |}.
Definition with_failed_to_converge (v : bool) (self : Model) : Model :=
  {| config := config self; t := t self; tn := tn self; dt := dt self;
     final_t := final_t self; tvec := tvec self; dtvec := dtvec self;
     idx := idx self; idx_nl := idx_nl self; idx_l := idx_l self;
     reset_dt := reset_dt self; _failed_to_converge := v;
     failed_solves := failed_solves self;
     num_active_compartments := num_active_compartments self;
     u_u := u_u self; u_n := u_n self; _ubackend := _ubackend self;
     pc := pc self |}.
Definition with_failed_solves (v : list failed_solve) (self : Model) : Model :=
  {| config := config self; t := t self; tn := tn self; dt := dt self;
     final_t := final_t self; tvec := tvec self; dtvec := dtvec self;
     idx := idx self; idx_nl := idx_nl self; idx_l := idx_l self;
     reset_dt := reset_dt self;
     _failed_to_converge := _failed_to_converge self; failed_solves := v;
     num_active_compartments := num_active_compartments self;
     u_u := u_u self; u_n := u_n self; _ubackend := _ubackend self;
     pc := pc self |}.
Definition with_u_u (v : list vector) (self : Model) : Model :=
  {| config := config self; t := t self; tn := tn self; dt := dt self;
     final_t := final_t self; tvec := tvec self; dtvec := dtvec self;
     idx := idx self; idx_nl := idx_nl self; idx_l := idx_l self;
     reset_dt := reset_dt self;
     _failed_to_converge := _failed_to_converge self;
     failed_solves := failed_solves self;
     num_active_compartments := num_active_compartments self; u_u := v;
     u_n := u_n self; _ubackend := _ubackend self; pc := pc self |}.
Definition with_u_n (v : list vector) (self : Model) : Model :=
  {| config := config self; t := t self; tn := tn self; dt := dt self;
     final_t := final_t self; tvec := tvec self; dtvec := dtvec self;
     idx := idx self; idx_nl := idx_nl self; idx_l := idx_l self;
     reset_dt := reset_dt self;
     _failed_to_converge := _failed_to_converge self;
     failed_solves := failed_solves self;
     num_active_compartments := num_active_compartments self;
     u_u := u_u self; u_n := v; _ubackend := _ubackend self; pc := pc self |}.
Definition with_ubackend (v : vector) (self : Model) : Model :=
  {| config := config self; t := t self; tn := tn self; dt := dt self;
     final_t := final_t self; tvec := tvec self; dtvec := dtvec self;
     idx := idx self; idx_nl := idx_nl self; idx_l := idx_l self;
     reset_dt := reset_dt self;
     _failed_to_converge := _failed_to_converge self;
     failed_solves := failed_solves self;
     num_active_compartments := num_active_compartments self;
     u_u := u_u self; u_n := u_n self; _ubackend := v; pc := pc self |}.
Definition with_pc (v : list parameter) (self : Model) : Model :=
  {| config := config self; t := t self; tn := tn self; dt := dt self;
     final_t := final_t self; tvec := tvec self; dtvec := dtvec self;
     idx := idx self; idx_nl := idx_nl self; idx_l := idx_l self;
     reset_dt := reset_dt self;
     _failed_to_converge := _failed_to_converge self;
     failed_solves := failed_solves self;
     num_active_compartments := num_active_compartments self;
     u_u := u_u self; u_n := u_n self; _ubackend := _ubackend self;
     pc := v |}.

Inductive ukey : Type := key_u | key_n.

Definition get_u (k : ukey) (self : Model) : list vector :=
  match k with
  | key_u => u_u self
  | key_n => u_n self
  end.

Definition set_u (k : ukey) (v : list vector) (self : Model) : Model :=
  match k with
  | key_u => with_u_u v self
  | key_n => with_u_n v self
  end.

(** [self.rounded_decimal(x)] *)
Definition rounded_decimal (self : Model) (x : Q) : Z :=
  Decimal.rounded_decimal (time_precision (config self)) x.

(** The value of a Decimal attribute of this model. *)
Definition dec (self : Model) (k : Z) : Q :=
  Decimal.dec (time_precision (config self)) k.

(** [float(x)] for a Decimal attribute [x] of this model. *)
Definition to_float (self : Model) (k : Z) : Float.float :=
  Float.of_Q (dec self k).

(** The attributes [Model.initialize] sets before the assembly steps. *)
Definition initial_model (cfg : SolverConfig) (n_active : nat)
    (u0 : list vector) (params : list parameter) : Model :=
  let p := time_precision cfg in
  let t0 := Decimal.rounded_decimal p 0 in
  let dt0 := Decimal.rounded_decimal p (initial_dt cfg) in
  {| config := cfg;
     t := t0;
     tn := 0;
     dt := dt0;
     final_t := Decimal.rounded_decimal p (final_t_config cfg);
     tvec := [t0];
     dtvec := [dt0];
     idx := 0;
     idx_nl := [];
     idx_l := [];
     reset_dt := false;
     _failed_to_converge := false;
     failed_solves := [];
     num_active_compartments := n_active;
     u_u := u0;
     u_n := u0;
     _ubackend := concat u0;
     pc := params |}.

(** [assert self.config.solver["time_precision"] in range(1, 30)] *)
Definition valid_precision (cfg : SolverConfig) : bool :=
  Nat.leb 1 (time_precision cfg) && Nat.ltb (time_precision cfg) 30.

(** [Model.initialize], the clock part: the assertion on the precision
    follows the first assignments. *)
Definition initialize (cfg : SolverConfig) (n_active : nat)
    (u0 : list vector) (params : list parameter) : result Model :=
  let self := initial_model cfg n_active u0 params in
  if valid_precision cfg then Ok self else Raise AssertionError.

(** *** Clock methods *)

Definition set_time (v : Z) (self : Model) : Model :=
  if negb (v =? t self) then with_t v self else self.

(** [set_dt(dt)] for an argument of exact value [x]. *)
Definition set_dt (x : Q) (self : Model) : Model :=
  let v := rounded_decimal self x in
  let v := rounded_decimal self (dec self v) in
  if negb (v =? dt self) then with_dt v self else self.

(** [set_dt(x)] for a float [x]: [Decimal(x)] holds the exact value of a
    finite float, and quantizing an infinity signals [InvalidOperation] (a
    NaN, which no finite step size produces, is treated alike). *)
Definition set_dt_float (x : Float.float) (self : Model) : result Model :=
  match Float.to_Q x with
  | Some q => Ok (set_dt q self)
  | None => Raise InvalidOperation
  end.

(** [del self.config.solver["adjust_dt"][0]] *)
Definition del_adjust_dt (rest : list (Q * Q)) (self : Model) : Model :=
  with_config (put_adjust_dt (Some rest) (config self)) self.

Definition adjust_dt_if_prescribed (self : Model) : result Model :=
  match adjust_dt (config self) with
  | None => Ok self
  | Some [] => Ok self
  | Some ((tadjust0, dtadjust0) :: rest) =>
      let tnow := rounded_decimal self (dec self (t self)) in
      let dtnow := rounded_decimal self (dec self (dt self)) in
      let tnext := rounded_decimal self (dec self (tnow + dtnow)) in
      let tadjust := rounded_decimal self tadjust0 in
      let dtadjust := rounded_decimal self dtadjust0 in
      if reset_dt self || (tadjust =? tnow) then
        Ok (with_reset_dt false
              (del_adjust_dt rest (set_dt (dec self dtadjust) self)))
      else if tadjust <? tnow then Raise AssertionError
      else if (tnow <? tadjust) && (tadjust <=? tnext) then
        let new_dt :=
          rounded_decimal self (dec self (Z.max (tadjust - tnow) dtadjust)) in
        if dtadjust >? tadjust - tnow then
          Ok (with_reset_dt false
                (del_adjust_dt rest (set_dt (dec self new_dt) self)))
        else
          Ok (with_reset_dt true (set_dt (dec self new_dt) self))
      else Ok self
  end.

Definition adjust_dt_if_pass_tfinal (self : Model) : Model :=
  let tnext := t self + dt self in
  if tnext >? final_t self then
    let new_dt := final_t self - t self in
    let new_dt := rounded_decimal self (dec self new_dt) in
    set_dt (dec self new_dt) self
  else self.

Definition forward_time_step (self : Model) : Model :=
  let dt1 := rounded_decimal self (dec self (dt self)) in
  let dt1 := rounded_decimal self (dec self dt1) in
  let self := with_dt dt1 self in
  let self := with_tn (rounded_decimal self (dec self (t self))) self in
  let self :=
    with_t (rounded_decimal self (dec self (t self + dt self))) self in
  let self := with_tvec (tvec self ++ [t self]) self in
  with_dtvec (dtvec self ++ [dt self]) self.

(** *** Solution state *)

(** [self.u[ukey].sub(idx).assign(self.u[unew].sub(idx))]; dolfin raises on
    a sub-function that does not exist. *)
Definition assign_sub (idx : nat) (dst src : list vector)
    : result (list vector) :=
  match src !! idx, dst !! idx with
  | Some v, Some _ => Ok (<[idx := v]> dst)
  | _, _ => Raise RuntimeError
  end.

Fixpoint assign_range (range : list nat) (dst src : list vector)
    : result (list vector) :=
  match range with
  | [] => Ok dst
  | idx :: range' =>
      let* dst' := assign_sub idx dst src in
      assign_range range' dst' src
  end.

(** [update_solution(ukeys, unew)] *)
Fixpoint update_solution (ukeys : list ukey) (unew : ukey) (self : Model)
    : result Model :=
  match ukeys with
  | [] => Ok self
  | k :: rest =>
      let* v := assign_range (seq 0 (num_active_compartments self))
                  (get_u k self) (get_u unew self) in
      update_solution rest unew (set_u k v self)
  end.

(** [reset_timestep(dt_scale=0.20)], [reason] being
    [self.solver.getConvergedReason()]. *)
Definition dt_scale : Float.float := Float.of_Q (1 # 5).

(** The step size a rollback leaves behind a failed step of size [d]: [d]
    as a float, scaled by [0.2] in binary64 and quantized again. *)
Definition shrunk_dt (self : Model) (d : Z) : option Z :=
  match Float.to_Q (Float.mul (to_float self d) dt_scale) with
  | Some x => Some (rounded_decimal self x)
  | None => None
  end.

Definition reset_timestep (reason : Z) (self : Model) : result Model :=
  let* t_prev := Py.index (tvec self) (-2) in
  let self := set_time t_prev self in
  let* dt_last := Py.index (dtvec self) (-1) in
  let* self := set_dt_float (Float.mul (to_float self dt_last) dt_scale) self in
  let* nl := Py.index (idx_nl self) (-1) in
  let* l := Py.index (idx_l self) (-1) in
  let* t_last := Py.index (tvec self) (-1) in
  let* dt_last := Py.index (dtvec self) (-1) in
  let self :=
    with_failed_solves
      (failed_solves self ++ [(idx self, nl, l, t_last, dt_last, reason)])
      self in
  let self := with_idx (idx self - 1) self in
  let* idx_nl' := Py.pop (idx_nl self) in
  let self := with_idx_nl idx_nl' self in
  let* idx_l' := Py.pop (idx_l self) in
  let self := with_idx_l idx_l' self in
  let* tvec' := Py.pop (tvec self) in
  let self := with_tvec tvec' self in
  let* dtvec' := Py.pop (dtvec self) in
  let self := with_dtvec dtvec' self in
  update_solution [key_u] key_n self.

(** *** Field-valued parameters: [load_vector] *)

Inductive load_warning : Type :=
| file_ends_before_current_time
| file_starts_after_current_time.

(** [cur_file.read(vec, f"VisualisationVector/{i}", True)] *)
Definition read_dataset (h5 : list vector) (i : nat) : result vector :=
  match h5 !! i with
  | Some v => Ok v
  | None => Raise RuntimeError
  end.

Definition two : Float.float := Float.of_Q 2.

(** [(vec1 + vec2) / 2] on dolfin vectors of one size. *)
Definition average (vec1 vec2 : vector) : result vector :=
  if decide (length vec1 = length vec2)
  then Ok (zip_with (fun a b => Float.div (Float.add a b) two) vec1 vec2)
  else Raise RuntimeError.

Definition load_vector (self : Model) (h5 : list vector)
    (tVec : list Float.float) : result (vector * list load_warning) :=
  let tf := to_float self (t self) in
  match flatnonzero (map (fun a => isclose a tf) tVec) with
  | idx1 :: _ =>
      let* vec_new := read_dataset h5 idx1 in
      Ok (vec_new, [])
  | [] =>
      let* t_last := Py.index tVec (-1) in
      let* after := decimal_gt_float (dec self (t self)) t_last in
      if after then
        let* vec_new := read_dataset h5 (length tVec - 1) in
        Ok (vec_new, [file_ends_before_current_time])
      else
        let* t_first := Py.index tVec 0 in
        let* before := decimal_lt_float (dec self (t self)) t_first in
        if before then
          let* vec_new := read_dataset h5 0 in
          Ok (vec_new, [file_starts_after_current_time])
        else
          let* idx1 :=
            Py.index (flatnonzero (map (fun a => Float.ltb a tf) tVec)) (-1) in
          let* idx2 :=
            Py.index (flatnonzero (map (fun a => Float.ltb tf a) tVec)) 0 in
          let* vec1 := read_dataset h5 idx1 in
          let* vec2 := read_dataset h5 idx2 in
          let* vec_new := average vec1 vec2 in
          Ok (vec_new, [])
  end.

(** *** [update_time_dependent_parameters] *)

(** [vec_new[mesh_map]] *)
Fixpoint reorder (vec_new : vector) (map : list nat) : result vector :=
  match map with
  | [] => Ok []
  | i :: rest =>
      match vec_new !! i with
      | Some x =>
          let* xs := reorder vec_new rest in
          Ok (x :: xs)
      | None => Raise IndexError
      end
  end.

(** The closing block of the loop body, entered with a [new_value]. *)
Definition assign_new_value (tf new_value : Float.float) (p : parameter)
    : result parameter :=
  if Float.isnan new_value then Raise AssertionError
  else
    let p := put_value_vector (value_vector p ++ [(tf, new_value)]) p in
    let p := put_value new_value p in
    Ok (put_dolfin_constant new_value p).

(** One pass of the loop over [self.pc.items]. *)
Definition update_parameter (self : Model) (p : parameter) : result parameter :=
  let tf := to_float self (t self) in
  let dtf := to_float self (dt self) in
  let tnf := to_float self (tn self) in
  match type p with
  | from_xdmf =>
      let* loaded := load_vector self (h5_file p) (tVec p) in
      let vec_new := fst loaded in
      if decide (length vec_new <> length (mesh_map p)) then Raise ValueError
      else
        let* new_vals := reorder vec_new (mesh_map p) in
        Ok (put_dolfin_function new_vals p)
  | _ =>
      if negb (is_time_dependent p) then Ok p
      else if negb (use_preintegration p) then
        match type p with
        | expression =>
            let v := sym_expr p tf in
            let p := put_value v p in
            Ok (put_value_vector (value_vector p ++ [(tf, v)]) p)
        | from_file =>
            let t_data := map fst (sampling_data p) in
            let* t_first := Py.index t_data 0 in
            let* t_last := Py.index t_data (-1) in
            if Float.ltb tf t_first || Float.ltb t_last tf then Raise Exception
            else
              let* new_value :=
                np_interp tf (sampling_data p) S754_nan S754_nan in
              assign_new_value tf new_value p
        | _ => Raise AssertionError
        end
      else
        match type p with
        | expression =>
            let* '(a, b, p) :=
              match preint_sym_expr p with
              | None =>
                  let* a := Py.index (int_vec p) (-1) in
                  let b := Float.add a (quad p tnf tf) in
                  Ok (a, b, put_int_vec (int_vec p ++ [b]) p)
              | Some F => Ok (F tnf, F tf, p)
              end in
            let rate := Float.div (Float.sub b a) dtf in
            if is_space_dependent p
            then Ok (put_dolfin_expression (Some rate) p)
            else assign_new_value tf rate p
        | from_file =>
            let int_data := preint_sampling_data p in
            let* a := np_interp tnf int_data S754_nan S754_nan in
            let* b := np_interp tf int_data S754_nan S754_nan in
            assign_new_value tf (Float.div (Float.sub b a) dtf) p
        | _ => Raise AssertionError
        end
  end.

Fixpoint update_parameters (self : Model) (ps : list parameter)
    : result (list parameter) :=
  match ps with
  | [] => Ok []
  | p :: rest =>
      let* p' := update_parameter self p in
      let* rest' := update_parameters self rest in
      Ok (p' :: rest')
  end.

Definition update_time_dependent_parameters (self : Model) : result Model :=
  let* ps := update_parameters self (pc self) in
  Ok (with_pc ps self).

(** *** [monolithic_solve] *)

(** The literal [-1e-6]. *)
Definition neg_tol : Float.float := Float.of_Q (-1 # 1000000).

(** The first loop of the negative-solution check, with its [break]. *)
Fixpoint any_too_negative (range : list nat) (u : list vector) : result bool :=
  match range with
  | [] => Ok false
  | idx :: range' =>
      match u !! idx with
      | None => Raise RuntimeError
      | Some curVec =>
          if existsb (fun x => Float.ltb x neg_tol) curVec then Ok true
          else any_too_negative range' u
      end
  end.

(** [vec[np.asarray(vec < 0).nonzero()] = 0] *)
Definition clamp_vector (v : vector) : vector :=
  map (fun x => if Float.ltb x Float.zero then Float.zero else x) v.

Fixpoint clamp_range (range : list nat) (u : list vector)
    : result (list vector) :=
  match range with
  | [] => Ok u
  | idx :: range' =>
      match u !! idx with
      | None => Raise RuntimeError
      | Some curVec => clamp_range range' (<[idx := clamp_vector curVec]> u)
      end
  end.

(** The two adjustments [monolithic_solve] makes before a fresh step. *)
Definition propose_dt (self : Model) : result Model :=
  let* self := adjust_dt_if_prescribed self in
  Ok (adjust_dt_if_pass_tfinal self).

(** The step size a call goes on with: the proposed one on a fresh step,
    the one the rollback left after a failed attempt. *)
Definition choose_dt (self : Model) : result Model :=
  if negb (_failed_to_converge self) then propose_dt self else Ok self.

(** The statements of [monolithic_solve] that come before the solver call:
    the step counter, the step-size adjustments of a fresh step, the guard
    on [dt], the clock advance and the parameter update. *)
Definition begin_step (self : Model) : result Model :=
  let self := with_idx (idx self + 1) self in
  let* self := choose_dt self in
  if dt self <=? 0 then Raise ValueError
  else
    let self := forward_time_step self in
    update_time_dependent_parameters self.

(** What the SNES branch records of a solver call: the solution lands in
    [u["u"]] and in the backing vector, the iteration counts are appended. *)
Definition record_solve (r : SolverResult) (self : Model) : Model :=
  let self := with_u_u (sol_u r) self in
  let self := with_ubackend (concat (sol_u r)) self in
  let self := with_idx_nl (idx_nl self ++ [its r]) self in
  with_idx_l (idx_l self ++ [ksp_its r]) self.

(** The statements between a failed solve and the recursive call. *)
Definition rollback (r : SolverResult) (self : Model) : result Model :=
  let* self := reset_timestep (reason r) self in
  let self := with_ubackend (concat (u_u self)) self in
  Ok (with_failed_to_converge true self).

(** The [else] branch of the negative-solution check. *)
Definition clamp_negative (self : Model) : result Model :=
  let* u' :=
    clamp_range (seq 0 (num_active_compartments self)) (u_u self) in
  let self := with_u_u u' self in
  Ok (with_ubackend (clamp_vector (_ubackend self)) self).

Section Solve.

(** The nonlinear solver, an external collaborator: what a call of
    [self.solver.solve] yields on the model as it stands after the clock and
    the parameters have advanced. *)
Variable solver : Model -> SolverResult.

(** [monolithic_solve], [depth] being the number of Python frames left
    before the interpreter raises [RecursionError]: the method retries by
    calling itself. *)
Fixpoint monolithic_solve (depth : nat) (self : Model) : result Model :=
  match depth with
  | O => Raise RecursionError
  | S depth' =>
      let* self := begin_step self in
      let r := solver self in
      if use_snes (config self) then
        let self := record_solve r self in
        let retry (self : Model) : result Model :=
          let* self := rollback r self in
          monolithic_solve depth' self in
        let finish (self : Model) : result Model :=
          if negb (converged r) then
            if negb (attempt_timestep_restart_on_divergence (config self))
            then Raise RuntimeError
            else retry self
          else
            update_solution [key_n] key_u
              (with_failed_to_converge false self) in
        if reset_timestep_for_negative_solution (config self) then
          let* negVals :=
            any_too_negative (seq 0 (num_active_compartments self))
              (u_u self) in
          if negVals then retry self
          else
            let* self := clamp_negative self in
            finish self
        else finish self
      else
        let self := with_u_u (sol_u r) self in
        update_solution [key_n] key_u self
  end.

(** A run of [steps] calls, as a driver script makes them. *)
Fixpoint run (depth steps : nat) (self : Model) : result Model :=
  match steps with
  | O => Ok self
  | S steps' =>
      let* self := monolithic_solve depth self in
      run depth steps' self
  end.

End Solve.

(** *** Clock history *)

(** The history of accepted steps: every accepted time is the previous one
    plus the step that led to it, and that step is positive. *)
Inductive history : list Z -> list Z -> Prop :=
| history_start (t0 dt0 : Z) : history [t0] [dt0]
| history_step (tv dv : list Z) (t_last d : Z) :
    history tv dv -> last tv = Some t_last -> 0 < d ->
    history (tv ++ [t_last + d]) (dv ++ [d]).

Definition sum_Z (l : list Z) : Z := fold_right Z.add 0 l.

(** The step sizes of the accepted steps: [dtvec] without its first entry,
    which holds the initial step size and belongs to no step. *)
Definition accepted_dts (self : Model) : list Z := tail (dtvec self).

(** *** Frame conditions *)

(** [s'] differs from [s] at most in the step size, the pending-reset flag
    and the checkpoint queue. *)
Definition same_but_step (s s' : Model) : Prop :=
  t s' = t s /\ tn s' = tn s /\ final_t s' = final_t s /\
  tvec s' = tvec s /\ dtvec s' = dtvec s /\
  idx s' = idx s /\ idx_nl s' = idx_nl s /\ idx_l s' = idx_l s /\
  _failed_to_converge s' = _failed_to_converge s /\
  failed_solves s' = failed_solves s /\
  num_active_compartments s' = num_active_compartments s /\
  u_u s' = u_u s /\ u_n s' = u_n s /\ _ubackend s' = _ubackend s /\
  pc s' = pc s /\
  time_precision (config s') = time_precision (config s) /\
  use_snes (config s') = use_snes (config s) /\
  reset_timestep_for_negative_solution (config s')
  = reset_timestep_for_negative_solution (config s) /\
  attempt_timestep_restart_on_divergence (config s')
  = attempt_timestep_restart_on_divergence (config s).

(** [s'] is [s] one step of size [d] later, as [begin_step] leaves it: the
    clock and its history have advanced, the solution is untouched. *)
Definition stepped (s s' : Model) (d : Z) : Prop :=
  0 < d /\ dt s' = d /\ t s' = t s + d /\ tn s' = t s /\
  tvec s' = tvec s ++ [t s + d] /\ dtvec s' = dtvec s ++ [d] /\
  idx s' = idx s + 1 /\ idx_nl s' = idx_nl s /\ idx_l s' = idx_l s /\
  failed_solves s' = failed_solves s /\
  num_active_compartments s' = num_active_compartments s /\
  u_u s' = u_u s /\ u_n s' = u_n s /\
  time_precision (config s') = time_precision (config s) /\
  use_snes (config s') = use_snes (config s) /\
  reset_timestep_for_negative_solution (config s')
  = reset_timestep_for_negative_solution (config s) /\
  attempt_timestep_restart_on_divergence (config s')
  = attempt_timestep_restart_on_divergence (config s).

(** [s'] is [s] after one more accepted step, of positive size. *)
Definition one_more_step (s s' : Model) : Prop :=
  exists d,
    0 < d /\ t s' = t s + d /\
    tvec s' = tvec s ++ [t s + d] /\ dtvec s' = dtvec s ++ [d].

(** [s'] has the clock of [s]. *)
Definition same_clock (s s' : Model) : Prop :=
  t s' = t s /\ tvec s' = tvec s /\ dtvec s' = dtvec s.

(** The model holds one current and one previous vector per active
    compartment. *)
Definition sized (self : Model) : Prop :=
  length (u_u self) = num_active_compartments self /\
  length (u_n self) = num_active_compartments self.

(** The clock agrees with its history. *)
Definition clock_consistent (self : Model) : Prop :=
  history (tvec self) (dtvec self) /\ last (tvec self) = Some (t self).



(** *** Example models *)

(** A configuration with six decimal digits of time. *)
Definition example_config (final : Q) (checkpoints : option (list (Q * Q)))
    : SolverConfig :=
  {| time_precision := 6;
     initial_dt := Float.literal (1 # 10);
     final_t_config := final;
     adjust_dt := checkpoints;
     use_snes := true;
     reset_timestep_for_negative_solution := true;
     attempt_timestep_restart_on_divergence := true |}.

(** A model in mid-run: the clock reads [t0], the step size is [dt0] and the
    current and previous solutions are [u0]. *)
Definition example_model (cfg : SolverConfig) (t0 dt0 : Q) (u0 : list vector)
    : Model :=
  let m := initial_model cfg (length u0) u0 [] in
  let tk := rounded_decimal m t0 in
  with_dt (rounded_decimal m dt0) (with_tvec [tk] (with_t tk m)).

Definition one_unknown : list vector := [[Float.of_Q 1]].



(** A clock at [0.5] with step [0.1], far from the final time [2.0], and
    two unknowns in one compartment. *)
Definition two_unknowns : list vector := [[Float.of_Q 1; Float.of_Q 1]].

Definition running_example : Model :=
  example_model (example_config (Float.literal 2) None)
    (Float.literal (1 # 2)) (Float.literal (1 # 10)) two_unknowns.

Definition converged_with (sol : list vector) : SolverResult :=
  {| sol_u := sol; its := 2; ksp_its := 5; converged := true; reason := 3 |}.



(** A solver that always converges with a positive solution. *)
Definition positive_solver (_ : Model) : SolverResult :=
  converged_with [[Float.of_Q 2; Float.of_Q 3]].

(** A time-dependent scalar parameter of the given kind, with expression
    [f], antiderivative [F] and tables [data]. *)
Definition example_parameter (kind : ParameterType) (preintegrated : bool)
    (f : Float.float -> Float.float)
    (F : option (Float.float -> Float.float))
    (data : list (Float.float * Float.float)) : parameter :=
  {| name := "k";
     type := kind;
     is_time_dependent := true;
     use_preintegration := preintegrated;
     is_space_dependent := false;
     sym_expr := f;
     preint_sym_expr := F;
     quad := fun _ _ => Float.zero;
     sampling_data := data;
     preint_sampling_data := data;
     value := Float.zero;
     value_vector := [];
     int_vec := [Float.zero];
     dolfin_constant := Float.zero;
     dolfin_expression := None;
     h5_file := [];
     tVec := [];
     mesh_map := [];
     dolfin_function := [] |}.

(** An expression whose value at the current time is not a number. *)
Definition undefined_expression (_ : Float.float) : Float.float := S754_nan.

(** A table sampled on [0, 0.55] only. *)
Definition short_table : list (Float.float * Float.float) :=
  [(Float.zero, Float.zero); (Float.of_Q (55 # 100), Float.of_Q 1)].

(** Evaluated directly from its expression. *)
Definition nan_expression : parameter :=
  example_parameter expression false undefined_expression None [].

(** Pre-integrated through an antiderivative. *)
Definition nan_antiderivative : parameter :=
  example_parameter expression true undefined_expression
    (Some undefined_expression) [].

(** Pre-integrated from a table that ends before the current time. *)
Definition nan_table : parameter :=
  example_parameter from_file true undefined_expression None short_table.

(** [running_example] one step forward, each time with one parameter. *)
Definition stepped_with (p : parameter) : Model :=
  with_pc [p] (forward_time_step running_example).

(** A model whose clock reads [t0]. *)
Definition model_at (t0 : Q) : Model :=
  example_model (example_config (Float.literal 1000) None) t0
    (Float.literal (1 # 10)) one_unknown.

(** Sample times [0.0, 1.0] with the one-component vectors [0.0] and
    [4.0]. *)
Definition samples_0_1 : list Float.float := [Float.zero; Float.of_Q 1].
Definition vectors_0_4 : list vector := [[Float.zero]; [Float.of_Q 4]].

(** Sample times [1.0, 1.000001]. *)
Definition samples_close : list Float.float :=
  [Float.of_Q 1; Float.of_Q (1000001 # 1000000)].

(** Sample times [100.0, 200.0]. *)
Definition samples_100_200 : list Float.float :=
  [Float.of_Q 100; Float.of_Q 200].

(** The samples that [np.isclose] matches with the clock. *)
Definition close_samples (self : Model) (tVec : list Float.float) : list nat :=
  flatnonzero (map (fun a => isclose a (to_float self (t self))) tVec).

(** The samples below and above the clock, as floats. *)
Definition earlier_samples (self : Model) (tVec : list Float.float)
    : list nat :=
  flatnonzero (map (fun a => Float.ltb a (to_float self (t self))) tVec).

Definition later_samples (self : Model) (tVec : list Float.float)
    : list nat :=
  flatnonzero (map (fun a => Float.ltb (to_float self (t self)) a) tVec).

(** The mean of two vectors, component by component. *)
Definition mean (vec1 vec2 : vector) : vector :=
  zip_with (fun a b => Float.div (Float.add a b) two) vec1 vec2.


(** The initial model of a run with step [0.1] up to time [2.0]. *)
Definition initial_example : Model :=
  initial_model (example_config (Float.literal 2) None) 1 two_unknowns [].

(** The model three accepted steps later. *)
Definition after_three_steps : Model :=
  match run positive_solver 3 3 initial_example with
  | Ok s => s
  | Raise _ => initial_example
  end.

(** *** Relations between a model before and after a call *)

(** The checkpoint queue of [s'] is that of [s], or that of [s] without its
    first entry. *)
Definition queue_advanced (s s' : Model) : Prop :=
  adjust_dt (config s') = adjust_dt (config s) \/
  exists c rest,
    adjust_dt (config s) = Some (c :: rest) /\
    adjust_dt (config s') = Some rest.

(** The settings of [s'] are those of [s]. *)
Definition same_settings (s s' : Model) : Prop :=
  final_t s' = final_t s /\
  num_active_compartments s' = num_active_compartments s /\
  time_precision (config s') = time_precision (config s) /\
  use_snes (config s') = use_snes (config s) /\
  reset_timestep_for_negative_solution (config s')
  = reset_timestep_for_negative_solution (config s) /\
  attempt_timestep_restart_on_divergence (config s')
  = attempt_timestep_restart_on_divergence (config s).

(** [s'] is [s] but for the solution vectors. *)
Definition same_but_solution (s s' : Model) : Prop :=
  config s' = config s /\ t s' = t s /\ tn s' = tn s /\ dt s' = dt s /\
  final_t s' = final_t s /\ tvec s' = tvec s /\ dtvec s' = dtvec s /\
  idx s' = idx s /\ idx_nl s' = idx_nl s /\ idx_l s' = idx_l s /\
  reset_dt s' = reset_dt s /\
  _failed_to_converge s' = _failed_to_converge s /\
  failed_solves s' = failed_solves s /\
  num_active_compartments s' = num_active_compartments s /\
  pc s' = pc s.

(** The step number a failed solve was recorded under. *)
Definition failed_idx (f : failed_solve) : Z :=
  match f with
  | (i, _, _, _, _, _) => i
  end.

(** What a call of [monolithic_solve] may rely on: a precision that
    [initialize] accepts, a clock that agrees with its history, and, when
    the call is a retry, a step that stays within the final time on the
    SNES path. *)
Definition callable (s : Model) : Prop :=
  valid_precision (config s) = true /\
  last (tvec s) = Some (t s) /\
  (_failed_to_converge s = true ->
   t s + dt s <= final_t s /\ use_snes (config s) = true).

(** What a returned call of [monolithic_solve] on [s] leaves in [s']. *)
Definition stepped_once (s s' : Model) : Prop :=
  same_settings s s' /\
  last (tvec s') = Some (t s') /\
  t s' <= final_t s' /\
  idx s' = idx s + 1 /\
  queue_advanced s s' /\
  (_failed_to_converge s = true ->
   adjust_dt (config s') = adjust_dt (config s)) /\
  (exists fs,
     failed_solves s' = failed_solves s ++ fs /\
     Forall (fun f => failed_idx f = idx s + 1) fs) /\
  (use_snes (config s) = true ->
   _failed_to_converge s' = false /\
   exists n l, idx_nl s' = idx_nl s ++ [n] /\ idx_l s' = idx_l s ++ [l]) /\
  (use_snes (config s) = false ->
   _failed_to_converge s' = _failed_to_converge s /\
   idx_nl s' = idx_nl s /\ idx_l s' = idx_l s /\
   failed_solves s' = failed_solves s).

(** Example: a checkpoint at [t = 0.1] that sets the step size to [0.01],
    on a model that starts with step [0.1]. *)
Definition checkpointed_start : Model :=
  initial_model
    (example_config (Float.literal 2)
       (Some [(Float.literal (1 # 10), Float.literal (1 # 100))]))
    1 two_unknowns [].

Definition after_checkpoint : Model :=
  match run positive_solver 3 3 checkpointed_start with
  | Ok s => s
  | Raise _ => checkpointed_start
  end.

(** The dolfin path: the example configuration without SNES. *)
Definition dolfin_config : SolverConfig :=
  {| time_precision := 6;
     initial_dt := Float.literal (1 # 10);
     final_t_config := Float.literal 2;
     adjust_dt := None;
     use_snes := false;
     reset_timestep_for_negative_solution := true;
     attempt_timestep_restart_on_divergence := true |}.

Definition dolfin_example : Model :=
  example_model dolfin_config (Float.literal (1 # 2)) (Float.literal (1 # 10))
    two_unknowns.

(** A solve that fails to converge. *)
Definition diverged_with (sol : list vector) : SolverResult :=
  {| sol_u := sol; its := 50; ksp_its := 7; converged := false;
     reason := -3 |}.

(** A solver that diverges, and returns a negative component, every time. *)
Definition stuck_solver (_ : Model) : SolverResult :=
  diverged_with [[Float.of_Q (-1 # 1000); Float.of_Q 3]].



(** A solver that never converges, whatever model it is called on. *)
Definition never_converges (solver : Model -> SolverResult) : Prop :=
  forall s, converged (solver s) = false.


(** *** What an update of the parameters keeps and what it books *)

(** The attributes that describe a parameter. *)
Definition same_description (p p' : parameter) : Prop :=
  name p' = name p /\ type p' = type p /\
  is_time_dependent p' = is_time_dependent p /\
  use_preintegration p' = use_preintegration p /\
  is_space_dependent p' = is_space_dependent p /\
  sampling_data p' = sampling_data p /\
  preint_sampling_data p' = preint_sampling_data p /\
  h5_file p' = h5_file p /\ tVec p' = tVec p /\ mesh_map p' = mesh_map p.

(** A pre-integrated, space-dependent expression: the one kind of
    time-dependent parameter that gets a new dolfin expression and no new
    value. *)
Definition becomes_expression (p : parameter) : bool :=
  match type p with
  | expression => use_preintegration p && is_space_dependent p
  | _ => false
  end.

(** The parameter [p'] that an update at the float time [tf] leaves in the
    place of [p]. *)
Definition updated (tf : Float.float) (p p' : parameter) : Prop :=
  same_description p p' /\
  match type p with
  | from_xdmf =>
      length (dolfin_function p') = length (mesh_map p) /\
      value p' = value p /\ value_vector p' = value_vector p
  | _ =>
      if negb (is_time_dependent p) then p' = p
      else
        type p <> constant /\
        if becomes_expression p then
          value p' = value p /\ value_vector p' = value_vector p /\
          is_Some (dolfin_expression p')
        else
          value_vector p' = value_vector p ++ [(tf, value p')] /\
          ((type p = expression /\ use_preintegration p = false) \/
           (Float.isnan (value p') = false /\
            dolfin_constant p' = value p'))
  end.

(** Example: a table sampled on [0, 1], read directly, beside a parameter
    that does not depend on time. *)
Definition unit_table : list (Float.float * Float.float) :=
  [(Float.zero, Float.zero); (Float.of_Q 1, Float.of_Q 1)].

Definition tabulated : parameter :=
  example_parameter from_file false undefined_expression None unit_table.

Definition steady : parameter :=
  {| name := "D";
     type := constant;
     is_time_dependent := false;
     use_preintegration := false;
     is_space_dependent := false;
     sym_expr := fun _ => Float.zero;
     preint_sym_expr := None;
     quad := fun _ _ => Float.zero;
     sampling_data := [];
     preint_sampling_data := [];
     value := Float.of_Q 3;
     value_vector := [];
     int_vec := [];
     dolfin_constant := Float.of_Q 3;
     dolfin_expression := None;
     h5_file := [];
     tVec := [];
     mesh_map := [];
     dolfin_function := [] |}.

Definition with_two_parameters : Model :=
  with_pc [tabulated; steady] running_example.
End Engine.

(** ** Validity checks of [Model.initialize], step 1 *)
Module Checks.

(** [compartment.cell_marker]: one marker or a list of markers. *)
Inductive Marker : Type :=
| marker (m : Z)
| markers (ms : list Z).

(** The attributes of a compartment that the checks read or write;
    [is_volume] is unset until [_init_1_1_check_mesh_dimensionality] runs. *)
Record Compartment : Type := {
  name : string;
  dimensionality : Z;
  cell_marker : Marker;
  is_volume : option bool
}.

Definition set_is_volume (b : bool) (c : Compartment) : Compartment :=
  {| name := name c;
     dimensionality := dimensionality c;
     cell_marker := cell_marker c;
     is_volume := Some b |}.

(** [max(l)] and [min(l)] of a list: [ValueError] on an empty one. *)
Definition py_max (l : list Z) : result Z :=
  match l with
  | [] => Raise ValueError
  | x :: rest => Ok (fold_left Z.max rest x)
  end.

Definition py_min (l : list Z) : result Z :=
  match l with
  | [] => Raise ValueError
  | x :: rest => Ok (fold_left Z.min rest x)
  end.

(** The cached properties [max_dim] and [min_dim]. *)
Definition max_dim (cc : list Compartment) : result Z :=
  py_max (map dimensionality cc).

Definition min_dim (cc : list Compartment) : result Z :=
  py_min (map dimensionality cc).

(** The record sent to [logger.warning]. *)
Inductive warning : Type :=
| parent_dimension_differs (parent_dim max_dim : Z).

(** [_init_1_1_check_mesh_dimensionality], [parent_dim] being
    [self.parent_mesh.dimensionality]. It returns the compartments with
    [is_volume] set and the warnings logged. *)
Definition _init_1_1_check_mesh_dimensionality (parent_dim : Z)
    (cc : list Compartment) : result (list Compartment * list warning) :=
  let* hi := max_dim cc in
  let* lo := min_dim cc in
  if negb ((hi - lo =? 0) || (hi - lo =? 1)) then Raise ValueError
  else if parent_dim <? hi then Raise ValueError
  else
    let log :=
      if negb (hi =? parent_dim) then [parent_dimension_differs parent_dim hi]
      else [] in
    Ok (map (fun c => set_is_volume (dimensionality c =? hi) c) cc, log).

(** The names no object may use. *)
Definition protected_names : gset string :=
  {[ "x[0]"; "x[1]"; "x[2]"; "t"; "unit_scale_factor" ]}.

(** [self._all_keys] after the loop over the containers' keys. *)
Definition all_keys_of (containers : list (list string)) : gset string :=
  fold_left (fun acc keys => acc ∪ list_to_set keys) containers ∅.

(** The first half of [_init_1_2_check_namespace_conflicts]. A container is
    seen through its list of keys, [c.keys]; [c.size] is their number. *)
Definition check_names (containers : list (list string))
    : result (gset string) :=
  let _all_keys := all_keys_of containers in
  if decide (sum_list (map length containers) <> size _all_keys)
  then Raise ValueError
  else if negb (bool_decide (protected_names ## _all_keys))
  then Raise ValueError
  else Ok _all_keys.

Definition marker_list (m : Marker) : list Z :=
  match m with
  | marker m => [m]
  | markers ms => ms
  end.

(** The loop over one compartment's markers. *)
Fixpoint add_markers (ms : list Z) (_all_markers : gset Z)
    : result (gset Z) :=
  match ms with
  | [] => Ok _all_markers
  | m :: rest =>
      if bool_decide (m ∈ _all_markers) then Raise ValueError
      else if m =? 0 then Raise ValueError
      else add_markers rest (_all_markers ∪ {[ m ]})
  end.

(** The loop over [self.cc.values]. *)
Fixpoint check_markers (cc : list Compartment) (_all_markers : gset Z)
    : result (gset Z) :=
  match cc with
  | [] => Ok _all_markers
  | compartment :: rest =>
      let* _all_markers :=
        add_markers (marker_list (cell_marker compartment)) _all_markers in
      check_markers rest _all_markers
  end.

(** [_init_1_2_check_namespace_conflicts]: the keys of the parameter,
    species and reaction containers, and the compartments, whose keys are
    their names. It returns [_all_keys] and [_all_markers]. *)
Definition _init_1_2_check_namespace_conflicts (pc sc : list string)
    (cc : list Compartment) (rc : list string)
    : result (gset string * gset Z) :=
  let* _all_keys := check_names [pc; sc; map name cc; rc] in
  let* _all_markers := check_markers cc ∅ in
  Ok (_all_keys, _all_markers).

(** [_init_1_3_check_parameter_dimensionality] *)
Definition _init_1_3_check_parameter_dimensionality (_all_keys : gset string)
    (max_dim : Z) : result unit :=
  if bool_decide ("x[2]" ∈ _all_keys) && (max_dim <? 3) then Raise ValueError
  else if bool_decide ("x[1]" ∈ _all_keys) && (max_dim <? 2)
  then Raise ValueError
  else Ok tt.

(** All markers of the compartments, in the order the check visits them. *)
Definition all_markers (cc : list Compartment) : list Z :=
  concat (map (fun c => marker_list (cell_marker c)) cc).

(** Examples: a volume with a surface around it. *)
Definition cyto : Compartment :=
  {| name := "cyto"; dimensionality := 3; cell_marker := marker 1;
     is_volume := None |}.
Definition pm : Compartment :=
  {| name := "pm"; dimensionality := 2; cell_marker := markers [10; 11];
     is_volume := None |}.

End Checks.

(** ** Python results with the remaining built-in exceptions *)
Module PyX.

Inductive exn : Type :=
| KeyError
| NameError
| NotImplementedError
| TypeError
| ValueError
| AttributeError
| AssertionError
| RuntimeError
| IndexError
| UnboundLocalError
| RecursionError
| InvalidOperation
| Exception.

Inductive result (A : Type) : Type :=
| Ok (a : A)
| Raise (e : exn).
Arguments Ok {A} a.
Arguments Raise {A} e.

Definition bind {A B : Type} (m : result A) (k : A -> result B) : result B :=
  match m with
  | Ok a => k a
  | Raise e => Raise e
  end.

(** A result of the engine, whose methods raise fewer exceptions. *)
Definition of_py {A : Type} (m : Py.result A) : result A :=
  match m with
  | Py.Ok a => Ok a
  | Py.Raise e =>
      Raise match e with
            | Py.AssertionError => AssertionError
            | Py.ValueError => ValueError
            | Py.IndexError => IndexError
            | Py.AttributeError => AttributeError
            | Py.RuntimeError => RuntimeError
            | Py.RecursionError => RecursionError
            | Py.InvalidOperation => InvalidOperation
            | Py.Exception => Exception
            end
  end.

End PyX.

Notation "'let+' x ':=' m 'in' k" := (PyX.bind m (fun x => k))
  (at level 10, x name, m at level 100, k at level 200).

(** ** Reactions: [_init_2_2_check_reaction_validity] and
    [_init_2_3_link_reaction_properties] *)
Module Reactions.

(** The attributes of a reaction that the two steps read:
    [species_names] is [species_map.values()], [param_names] is
    [param_map.values()], and an unset [explicit_restriction_to_domain] is
    the empty string. *)
Record Reaction : Type := {
  name : string;
  eqn_f_str : string;
  eqn_r_str : string;
  param_names : list string;
  species_names : list string;
  explicit_restriction_to_domain : string
}.

Section Validity.

(** [{str(x) for x in parse_expr(eqn_str).free_symbols}]: the parser is an
    external collaborator. *)
Variable free_symbols : string -> gset string.



(** The equation strings the check parses. *)
Definition equations (rc : list Reaction) : list string :=
  filter (fun s => s <> "")
    (concat (map (fun r => [eqn_f_str r; eqn_r_str r]) rc)).

End Validity.

(** [reaction.topology] *)
Inductive Topology : Type :=
| volume
| surface
| volume_surface
| volume_surface_volume.

(** The keys of [{k: ... for k in names}], in the order a Python dict keeps
    them: every name once, at its first occurrence. *)
Fixpoint dict_keys (seen names : list string) : list string :=
  match names with
  | [] => []
  | k :: rest =>
      if bool_decide (k ∈ seen) then dict_keys seen rest
      else k :: dict_keys (k :: seen) rest
  end.

(** [container[key]]. The container classes are not part of the sources at
    hand; a container is taken as the association list of its entries, and
    the lookup of an absent key to raise [KeyError] as a dict does. *)
Fixpoint getitem {A : Type} (container : list (string * A)) (key : string)
    : PyX.result A :=
  match container with
  | [] => PyX.Raise PyX.KeyError
  | (k, v) :: rest => if decide (k = key) then PyX.Ok v else getitem rest key
  end.

Fixpoint getitems {A : Type} (container : list (string * A))
    (keys : list string) : PyX.result (list A) :=
  match keys with
  | [] => PyX.Ok []
  | k :: rest =>
      let+ v := getitem container k in
      let+ vs := getitems container rest in
      PyX.Ok (v :: vs)
  end.

(** The classification by the [is_volume] flags of the compartments
    involved. *)
Definition classify (is_volume : list bool) : PyX.result Topology :=
  match is_volume with
  | [b] => if b then PyX.Ok volume else PyX.Ok surface
  | [_; _] =>
      if forallb id is_volume then PyX.Raise PyX.NotImplementedError
      else if negb (existsb id is_volume) then PyX.Raise PyX.Exception
      else PyX.Ok volume_surface
  | [_; _; _] =>
      let n := length (filter (fun b => b = true) is_volume) in
      if (n =? 3)%nat then PyX.Raise PyX.Exception
      else if (n <? 2)%nat then PyX.Raise PyX.Exception
      else PyX.Ok volume_surface_volume
  | _ => PyX.Raise PyX.ValueError
  end.

(** What the step stores on the reaction. *)
Record Linked : Type := {
  parameters : list string;
  species : list string;
  compartments : list string;
  num_species : nat;
  topology : Topology
}.

(** The body of the loop of [_init_2_3_link_reaction_properties]: [pc]
    holds the parameter names, [sc] maps a species name to its
    [compartment_name], [cc] maps a compartment name to the [is_volume]
    flag that [_init_1_1_check_mesh_dimensionality] has set. *)
Definition link_reaction (pc : list (string * unit))
    (sc : list (string * string)) (cc : list (string * bool))
    (reaction : Reaction) : PyX.result Linked :=
  let parameter_keys := dict_keys [] (param_names reaction) in
  let+ _ := getitems pc parameter_keys in
  let species_keys := dict_keys [] (species_names reaction) in
  let+ compartment_names := getitems sc species_keys in
  let compartment_names :=
    if decide (explicit_restriction_to_domain reaction = "")
    then compartment_names
    else compartment_names ++ [explicit_restriction_to_domain reaction] in
  let compartment_keys := dict_keys [] compartment_names in
  let+ is_volume := getitems cc compartment_keys in
  let+ topology := classify is_volume in
  PyX.Ok {| parameters := parameter_keys;
            species := species_keys;
            compartments := compartment_keys;
            num_species := length species_keys;
            topology := topology |}.

(** The number of volumes ([flag] true) or of surfaces ([flag] false) among
    the named compartments. *)
Definition count_flag (cc : list (string * bool)) (flag : bool)
    (names : list string) : nat :=
  length (filter (fun k => (k, flag) ∈ cc) names).

(** Example: a surface reaction between a volume species and a surface
    species. *)
Definition example_pc : list (string * unit) := [("kf", tt); ("kr", tt)].
Definition example_sc : list (string * string) :=
  [("A", "cyto"); ("B", "pm"); ("C", "er")].
Definition example_cc : list (string * bool) :=
  [("cyto", true); ("pm", false); ("er", true)].
Definition binding : Reaction :=
  {| name := "binding";
     eqn_f_str := "kf*A";
     eqn_r_str := "kr*B";
     param_names := ["kf"; "kr"];
     species_names := ["A"; "B"];
     explicit_restriction_to_domain := "" |}.

End Reactions.


(** ** The Jacobian blocks: [get_block_J] and [get_block_system] *)
Module BlockSystem.

Import Blocks.

(** The records [get_block_J] sends to the logger. *)
Inductive log_record : Type :=
| jacobian_is_empty (idx_i idx_j : nat) (ci cj : string)
| jacobian_is_empty_on (idx_i idx_j : nat) (ci cj : string) (domain : string).

Section Jacobian.

(** [expand_derivatives(d.derivative(Fi, uj))], [uj] being given by its
    position in [u]; the compiled forms [d.Form(Jsub)] builds, which may
    raise, and the placeholder [d.cpp.fem.Form(2, 0)]. *)
Variable derivative : Form -> nat -> Form.
Variable compiled : Type.
Variable dolfin_Form : SubForm -> result compiled.
Variable Form_2_0 : compiled.

Variable cc_names : list string.
Variable all_meshes : list Mesh.

(** The double loop that fills [J]: for every block, one derivative for
    every function of [u]. *)
Fixpoint jacobian (Fblock : list Form) (len_u : nat) : list Form :=
  match Fblock with
  | [] => []
  | Fi :: rest => map (derivative Fi) (seq 0 len_u) ++ jacobian rest len_u
  end.

(** The inner loop over [sub_forms_by_domain(Ji)]: an empty sub-form is
    logged, and compiled like any other. *)
Fixpoint split_by_domain (idx_i idx_j : nat) (subs : list (option SubForm))
    (Js : list compiled) (log : list log_record)
    : result (list compiled * list log_record) :=
  match subs with
  | [] => Ok (Js, log)
  | Jsub :: rest =>
      match Jsub with
      | None =>
          (* [Jsub.mesh()] on [None] *)
          Raise AttributeError
      | Some f =>
          let* log' :=
            if sub_empty f then
              let* mesh := get_mesh_by_id all_meshes (sub_mesh f) in
              match mesh with
              | None => Raise AttributeError
              | Some m =>
                  let* ci := get_index_name cc_names idx_i in
                  let* cj := get_index_name cc_names idx_j in
                  Ok (log ++ [jacobian_is_empty_on idx_i idx_j ci cj
                                (mesh_name m)])
              end
            else Ok log in
          let* Jf := dolfin_Form f in
          split_by_domain idx_i idx_j rest (Js ++ [Jf]) log'
      end
  end.

(** The loop over [enumerate(J)], with [idx_i, idx_j = divmod(idx, len(u))];
    [J] is empty when [u] is, so that the division is by a positive
    number. *)
Fixpoint split_blocks (len_u : nat) (idx : nat) (J : list Form)
    (Jlist : list (list compiled)) (log : list log_record)
    : result (list (list compiled) * list log_record) :=
  match J with
  | [] => Ok (Jlist, log)
  | Ji :: rest =>
      let idx_i := (idx / len_u)%nat in
      let idx_j := (idx mod len_u)%nat in
      if empty Ji then
        let* ci := get_index_name cc_names idx_i in
        let* cj := get_index_name cc_names idx_j in
        split_blocks len_u (S idx) rest (Jlist ++ [[Form_2_0]])
          (log ++ [jacobian_is_empty idx_i idx_j ci cj])
      else
        let* '(Js, log') :=
          split_by_domain idx_i idx_j (sub_forms_by_domain Ji) [] log in
        split_blocks len_u (S idx) rest (Jlist ++ [Js]) log'
  end.

(** [get_block_J(Fsum, u)], given the blocks extracted from [Fsum] and
    [len(u)]. *)
Definition get_block_J (extracted : list Form) (len_u : nat)
    : result (list (list compiled) * list log_record) :=
  let J := jacobian extracted len_u in
  if decide (length J = len_u * len_u)%nat
  then split_blocks len_u 0 J [] []
  else Raise AssertionError.

(** [get_block_system(Fsum, u)], [u_dims] listing
    [uj.function_space().dim()] for the functions of [u]. *)
Definition get_block_system (extracted : list Form) (u_dims : list Z)
    : result (list (list (option SubForm)) * list (list compiled) * list Z) :=
  let* F := get_block_F cc_names all_meshes extracted (length u_dims) in
  let* J := get_block_J extracted (length u_dims) in
  Ok (fst F, fst J, u_dims).

(** What one block of [J] becomes in [Jlist]. *)
Definition compiled_block (Ji : Form) (Js : list compiled) : Prop :=
  if empty Ji then Js = [Form_2_0]
  else Forall2 (fun sub Jf => exists f, sub = Some f /\ dolfin_Form f = Ok Jf)
         (sub_forms_by_domain Ji) Js.

End Jacobian.

(** What one block of [Fblock] becomes in [Flist]: the placeholder
    [[None]] for a missing or empty block, and otherwise its sub-forms by
    integration domain, an empty one replaced by [None]. *)
Definition decomposed (Fi : option Form) (Fs : list (option SubForm))
    : Prop :=
  match Fi with
  | None => Fs = [None]
  | Some F =>
      if empty F then Fs = [None]
      else Forall2
             (fun sub out =>
                exists f, sub = Some f /\
                  out = if sub_empty f then None else Some f)
             (sub_forms_by_domain F) Fs
  end.

(** The block that [Ftemp[Fi.arguments()[0].part()] = Fi] leaves at index
    [i]: the last extracted block of that part. *)
Definition placed (extracted : list Form) (i : nat) : option Form :=
  last (filter (fun F => part F = i) extracted).

(** Example: the derivative of a block with respect to its own function has
    integrals, the others have none. *)
Definition diagonal_derivative (Fi : Form) (j : nat) : Form :=
  if decide (part Fi = j) then Fi
  else {| part := part Fi; empty := true; sub_forms_by_domain := [] |}.

Definition F_pm : Form :=
  {| part := 1;
     empty := false;
     sub_forms_by_domain := [Some {| sub_mesh := 2; sub_empty := false |}] |}.

Definition F_cyto_only : Form :=
  {| part := 0;
     empty := false;
     sub_forms_by_domain := [Some {| sub_mesh := 1; sub_empty := false |}] |}.

End BlockSystem.

(** ** [update_solution] over the whole dictionary [self.u] *)
Module Solution.

(** [self.u]: the functions by key, a function being the list of its
    sub-functions. *)
Definition functions : Type := gmap string (list Engine.vector).

(** [self.u[ukey].sub(idx).assign(self.u[unew].sub(idx))], evaluated from
    left to right; dolfin raises on a sub-function that does not exist. *)
Definition assign_sub (ukey unew : string) (idx : nat) (u : functions)
    : PyX.result functions :=
  match u !! ukey with
  | None => PyX.Raise PyX.KeyError
  | Some dst =>
      match dst !! idx with
      | None => PyX.Raise PyX.RuntimeError
      | Some _ =>
          match u !! unew with
          | None => PyX.Raise PyX.KeyError
          | Some src =>
              match src !! idx with
              | None => PyX.Raise PyX.RuntimeError
              | Some v => PyX.Ok (<[ukey := <[idx := v]> dst]> u)
              end
          end
      end
  end.

Fixpoint assign_range (range : list nat) (ukey unew : string) (u : functions)
    : PyX.result functions :=
  match range with
  | [] => PyX.Ok u
  | idx :: range' =>
      let+ u' := assign_sub ukey unew idx u in
      assign_range range' ukey unew u'
  end.

(** The loop [for ukey in ukeys]. *)
Fixpoint update_keys (ukeys : list string) (unew : string)
    (num_active_compartments : nat) (u : functions)
    : PyX.result functions :=
  match ukeys with
  | [] => PyX.Ok u
  | ukey :: rest =>
      if decide (is_Some (u !! ukey)) then
        let+ u' :=
          assign_range (seq 0 num_active_compartments) ukey unew u in
        update_keys rest unew num_active_compartments u'
      else PyX.Raise PyX.ValueError
  end.

(** [update_solution(ukeys, unew)]. For [ukeys=None] the keys are taken as
    [set(self.u.keys()).remove(unew)]: [remove] raises [KeyError] on a
    missing element and returns [None] otherwise, which the loop cannot
    iterate over. *)
Definition update_solution (ukeys : option (list string)) (unew : string)
    (num_active_compartments : nat) (u : functions)
    : PyX.result functions :=
  match ukeys with
  | None =>
      if decide (is_Some (u !! unew)) then PyX.Raise PyX.TypeError
      else PyX.Raise PyX.KeyError
  | Some ukeys => update_keys ukeys unew num_active_compartments u
  end.

(** A function whose first [n] sub-functions were overwritten with those of
    [src]. *)
Definition overwritten (n : nat) (src dst : list Engine.vector)
    : list Engine.vector :=
  take n src ++ drop n dst.

(** Example: the three functions of a model with two compartments. *)
Definition example_u : functions :=
  {[ "u"%string := [[Float.of_Z 1]; [Float.of_Z 2]];
     "n"%string := [[Float.of_Z 0]; [Float.of_Z 0]];
     "k"%string := [[Float.of_Z 5]; [Float.of_Z 6]] ]}.

End Solution.

(** ** The step size chosen from the iteration count: [Model.adjust_dt] *)
Module Adaptive.

(** The chain of tests on [self.idx_nl[-1]]; when none of them holds,
    [dt_scale] is left unbound. *)
Definition dt_scale (nl : nat) : option Float.float :=
  if bool_decide (nl ∈ [0; 1]%nat) then Some (Float.of_Q (11 # 10))
  else if bool_decide (nl ∈ [2; 3; 4]%nat) then Some (Float.of_Q (21 # 20))
  else if bool_decide (nl ∈ [5; 6; 7; 8; 9; 10]%nat)
  then Some (Float.of_Q 1)
  else if bool_decide (nl ∈ [11; 12; 13; 14; 15; 16; 17; 18; 19; 20]%nat)
  then Some (Float.of_Q (4 # 5))
  else if (20 <=? nl)%nat then Some (Float.of_Q (1 # 2))
  else None.

(** [adjust_dt()] *)
Definition adjust_dt (self : Engine.Model) : PyX.result Engine.Model :=
  let+ nl := PyX.of_py (Py.index (Engine.idx_nl self) (-1)) in
  match dt_scale nl with
  | None => PyX.Raise PyX.UnboundLocalError
  | Some scale =>
      let dt_cur :=
        Float.mul (Engine.to_float self (Engine.dt self)) scale in
      PyX.of_py (Engine.set_dt_float dt_cur self)
  end.

(** Example: the running example after a step that took [nl] nonlinear
    iterations. *)
Definition after_iterations (nl : nat) : Engine.Model :=
  Engine.with_idx_nl [nl] Engine.running_example.

End Adaptive.

(** ** Species and their compartments:
    [_init_2_6_link_species_to_compartments] and
    [_init_2_7_get_species_compartment_indices] *)
Module Linking.

(** The attributes of a species object that the two steps read or write.
    [compartment] is the reference [_init_2_5] has stored: the position of
    the compartment object in [self.cc]. [dof_index] is unset until
    [_init_2_7] assigns it. *)
Record Species : Type := {
  name : string;
  compartment : nat;
  dof_index : option nat
}.

(** A compartment object: the ordered dictionary [species], from a name to
    a reference to a species object (its position in [self.sc]), and
    [num_species], unset until [_init_2_6] assigns it. *)
Record Compartment : Type := {
  species : list (string * nat);
  num_species : option nat
}.

Record objects : Type := {
  sc : list Species;
  cc : list Compartment
}.

(** [d.update({k: v})] on an ordered dictionary: a known key keeps its
    place and takes the new value, a new key goes to the end. *)
Fixpoint dict_update (k : string) (v : nat) (d : list (string * nat))
    : list (string * nat) :=
  match d with
  | [] => [(k, v)]
  | (k', v') :: rest =>
      if decide (k' = k) then (k, v) :: rest
      else (k', v') :: dict_update k v rest
  end.

Definition add_species (k : string) (ref : nat) (c : Compartment)
    : Compartment :=
  {| species := dict_update k ref (species c);
     num_species := num_species c |}.

Definition count_species (c : Compartment) : Compartment :=
  {| species := species c; num_species := Some (length (species c)) |}.

Definition set_dof_index (index : nat) (s : Species) : Species :=
  {| name := name s; compartment := compartment s;
     dof_index := Some index |}.

(** The first loop of [_init_2_6], [ref] being the position of the species
    at hand: [species.compartment.species.update({species.name: species})]
    writes into the compartment object the species refers to. *)
Fixpoint link (all : list Species) (ref : nat) (cc : list Compartment)
    : list Compartment :=
  match all with
  | [] => cc
  | s :: rest =>
      link rest (S ref) (alter (add_species (name s) ref) (compartment s) cc)
  end.

Definition _init_2_6_link_species_to_compartments (o : objects) : objects :=
  {| sc := sc o; cc := map count_species (link (sc o) 0 (cc o)) |}.

(** The inner loop of [_init_2_7] over [list(compartment.species.values())],
    writing into the species objects. *)
Fixpoint number (refs : list nat) (index : nat) (sc : list Species)
    : list Species :=
  match refs with
  | [] => sc
  | r :: rest => number rest (S index) (alter (set_dof_index index) r sc)
  end.

Fixpoint number_all (cc : list Compartment) (sc : list Species)
    : list Species :=
  match cc with
  | [] => sc
  | c :: rest => number_all rest (number (map snd (species c)) 0 sc)
  end.

Definition _init_2_7_get_species_compartment_indices (o : objects)
    : objects :=
  {| sc := number_all (cc o) (sc o); cc := cc o |}.

(** The species of compartment [j] among [all], in their order, each with
    its position counted from [ref]. *)
Fixpoint entries (all : list Species) (ref : nat) (j : nat)
    : list (string * nat) :=
  match all with
  | [] => []
  | s :: rest =>
      if decide (compartment s = j)
      then (name s, ref) :: entries rest (S ref) j
      else entries rest (S ref) j
  end.

(** A compartment with further entries at the end of its dictionary. *)
Definition with_entries (es : list (string * nat)) (c : Compartment)
    : Compartment :=
  {| species := species c ++ es; num_species := num_species c |}.

(** The state [_init_2_5] leaves: every species refers to a compartment of
    the model, no two species share a name, and no compartment lists a
    species yet. *)
Definition linked (o : objects) : Prop :=
  Forall (fun s => compartment s < length (cc o))%nat (sc o) /\
  NoDup (map name (sc o)) /\
  Forall (fun c => species c = []) (cc o).

(** Example: three species in two compartments. *)
Definition example : objects :=
  {| sc := [ {| name := "A"; compartment := 0; dof_index := None |};
             {| name := "R"; compartment := 1; dof_index := None |};
             {| name := "B"; compartment := 0; dof_index := None |} ];
     cc := [ {| species := []; num_species := None |};
             {| species := []; num_species := None |} ] |}.

End Linking.

(** * Properties *)

(** ** Domain registry *)

Lemma collect_rm_idx_spec cc active it acc :
  Registry.collect_rm_idx cc active it acc
  = acc ++ Registry.rm_positions cc active it.
Proof.
  revert it acc.
  induction active as [|r rest IH]; intros it acc; simpl.
  - now rewrite app_nil_r.
  - destruct (Registry.has_no_species cc r); rewrite IH.
    + now rewrite <- app_assoc.
    + reflexivity.
Qed.

Lemma index_app_middle {A : Type} (pre suf : list A) (x : A) :
  Py.index (pre ++ x :: suf) (Z.of_nat (length pre)) = Ok x.
Proof.
  unfold Py.index.
  assert (Hlt : (Z.of_nat (length pre) <? 0) = false) by (apply Z.ltb_ge; lia).
  rewrite Hlt.
  rewrite length_app; simpl.
  assert (Hin : (0 <=? Z.of_nat (length pre))
                && (Z.of_nat (length pre) <? Z.of_nat (length pre + S (length suf)))
                = true).
  { apply andb_true_intro; split; [apply Z.leb_le | apply Z.ltb_lt]; lia. }
  rewrite Hin, Nat2Z.id.
  now rewrite list_lookup_middle by reflexivity.
Qed.

Lemma del_app_middle {A : Type} (pre suf : list A) (x : A) :
  Py.del (pre ++ x :: suf) (Z.of_nat (length pre)) = Ok (pre ++ suf).
Proof.
  unfold Py.del.
  assert (Hlt : (Z.of_nat (length pre) <? 0) = false) by (apply Z.ltb_ge; lia).
  rewrite Hlt.
  rewrite length_app; simpl.
  assert (Hin : (0 <=? Z.of_nat (length pre))
                && (Z.of_nat (length pre) <? Z.of_nat (length pre + S (length suf)))
                = true).
  { apply andb_true_intro; split; [apply Z.leb_le | apply Z.ltb_lt]; lia. }
  rewrite Hin, Nat2Z.id.
  now rewrite delete_middle.
Qed.

Lemma delete_rm_idx_suffix (k : Z) (pre suf : list Z) (active : list nat) :
  Registry.delete_rm_idx (seq (length pre) (length suf))
    (map (fun x => x - k) (pre ++ suf)) active
  = Registry.delete_shifted k suf active.
Proof.
  revert k pre active.
  induction suf as [|r rs IH]; intros k pre active; simpl; [reflexivity|].
  rewrite map_app; simpl.
  rewrite <- (length_map (fun x => x - k) pre) at 1.
  rewrite index_app_middle; simpl.
  destruct (Py.del active (r - k)) as [active'|e]; simpl; [|reflexivity].
  specialize (IH (k + 1) (pre ++ [r]) active').
  rewrite length_app in IH; simpl in IH.
  rewrite Nat.add_1_r, <- app_assoc in IH; simpl in IH.
  rewrite <- IH. f_equal.
  change (r - k :: map (fun x => x - k) rs)
    with (map (fun x => x - k) (r :: rs)).
  rewrite <- map_app, map_map.
  apply map_ext. intros x. lia.
Qed.

Lemma delete_shifted_filter cc (k : Z) (pre rest : list nat) :
  Registry.delete_shifted k
    (Registry.rm_positions cc rest (Z.of_nat (length pre) + k)) (pre ++ rest)
  = Ok (pre ++ Registry.with_species cc rest).
Proof.
  revert k pre.
  induction rest as [|r rest IH]; intros k pre; simpl; [reflexivity|].
  destruct (Registry.has_no_species cc r) eqn:Hr; simpl.
  - replace (Z.of_nat (length pre) + k - k) with (Z.of_nat (length pre)) by lia.
    rewrite del_app_middle; simpl.
    rewrite <- Z.add_assoc. apply IH.
  - specialize (IH k (pre ++ [r])).
    rewrite length_app in IH; simpl in IH.
    rewrite <- !app_assoc in IH; simpl in IH.
    rewrite <- IH. do 2 f_equal. lia.
Qed.

(** Activation never raises: the active list is the declaration-order list of
    the compartments that own a species. *)
Lemma get_active_compartments_filter (cc0 : list Registry.Compartment) :
  Registry._init_4_1_get_active_compartments cc0
  = Ok {| Registry.cc :=
            Registry.assign_dof_index cc0 0
              (Registry.with_species cc0 (seq 0 (length cc0)));
          Registry._active_compartments :=
            Registry.with_species cc0 (seq 0 (length cc0));
          Registry._all_compartments := seq 0 (length cc0) |}.
Proof.
  unfold Registry._init_4_1_get_active_compartments.
  rewrite collect_rm_idx_spec; simpl.
  pose proof (delete_rm_idx_suffix 0 []
                (Registry.rm_positions cc0 (seq 0 (length cc0)) 0)
                (seq 0 (length cc0))) as Hloop.
  simpl in Hloop.
  rewrite (map_ext _ (fun x => x) (fun x => Z.sub_0_r x)), map_id in Hloop.
  rewrite Hloop.
  pose proof (delete_shifted_filter cc0 0 [] (seq 0 (length cc0))) as Hdel.
  simpl in Hdel. change (Z.of_nat 0 + 0) with 0 in Hdel.
  rewrite Hdel. reflexivity.
Qed.

Lemma assign_dof_index_length cc idx active :
  length (Registry.assign_dof_index cc idx active) = length cc.
Proof.
  revert cc idx.
  induction active as [|r rest IH]; intros cc idx;
    cbn [Registry.assign_dof_index]; [reflexivity|].
  now rewrite IH, length_alter.
Qed.

Lemma assign_dof_index_other cc idx active r :
  r ∉ active ->
  Registry.assign_dof_index cc idx active !! r = cc !! r.
Proof.
  revert cc idx.
  induction active as [|r0 rest IH]; intros cc idx Hnot;
    cbn [Registry.assign_dof_index]; [reflexivity|].
  apply not_elem_of_cons in Hnot as [Hne Hrest].
  rewrite IH by assumption.
  apply list_lookup_alter_ne. congruence.
Qed.

Lemma assign_dof_index_lookup cc idx active k r :
  NoDup active ->
  active !! k = Some r ->
  Registry.assign_dof_index cc idx active !! r
  = Registry.set_dof_index (idx + k) <$> cc !! r.
Proof.
  revert cc idx k.
  induction active as [|r0 rest IH]; intros cc idx k Hnd Hk; [discriminate|].
  apply NoDup_cons in Hnd as [Hnotin Hnd].
  cbn [Registry.assign_dof_index].
  destruct k as [|k]; simpl in Hk.
  - injection Hk as ->.
    rewrite assign_dof_index_other by assumption.
    rewrite Nat.add_0_r. apply list_lookup_alter_eq.
  - rewrite (IH _ _ k) by assumption.
    rewrite list_lookup_alter_ne.
    + now rewrite Nat.add_succ_r.
    + intros ->. apply Hnotin. eapply list_elem_of_lookup_2; eassumption.
Qed.

Lemma with_species_NoDup cc n :
  NoDup (Registry.with_species cc (seq 0 n)).
Proof.
  apply NoDup_ListNoDup, List.NoDup_filter, List.seq_NoDup.
Qed.

Lemma with_species_elem cc refs r :
  r ∈ Registry.with_species cc refs <->
  r ∈ refs /\ Registry.has_no_species cc r = false.
Proof.
  unfold Registry.with_species.
  rewrite !list_elem_of_In, List.filter_In, negb_true_iff. reflexivity.
Qed.

(** What activation does: every active compartment owns a species, a
    compartment owning a species is active, and the [k]-th active compartment
    receives block index [k]. *)
Lemma activation_block_indices (cc0 : list Registry.Compartment) :
  exists a,
    Registry._init_4_1_get_active_compartments cc0 = Ok a /\
    (forall r, r ∈ Registry._active_compartments a <->
               exists c, cc0 !! r = Some c /\ (1 <= Registry.num_species c)%nat) /\
    (forall k r, Registry._active_compartments a !! k = Some r ->
               Registry.cc a !! r = Registry.set_dof_index k <$> cc0 !! r) /\
    (forall r, r ∉ Registry._active_compartments a ->
               Registry.cc a !! r = cc0 !! r).
Proof.
  eexists. split; [apply get_active_compartments_filter|]. simpl.
  split; [|split].
  - intros r. rewrite with_species_elem, list_elem_of_In, List.in_seq.
    unfold Registry.has_no_species. split.
    + intros [[_ Hr] Hs]. simpl in Hr.
      destruct (lookup_lt_is_Some_2 cc0 r Hr) as [c Hc].
      rewrite Hc in Hs. exists c. split; [exact Hc|].
      apply Nat.ltb_ge in Hs. exact Hs.
    + intros (c & Hc & Hs). split.
      * split; [lia|]. simpl. eapply lookup_lt_Some; eassumption.
      * rewrite Hc. apply Nat.ltb_ge. exact Hs.
  - intros k r Hk.
    apply (assign_dof_index_lookup cc0 0 _ k r (with_species_NoDup cc0 _) Hk).
  - intros r Hr. now apply assign_dof_index_other.
Qed.

Lemma has_no_species_assign (cc : list Registry.Compartment) idx active r :
  Registry.has_no_species (Registry.assign_dof_index cc idx active) r
  = Registry.has_no_species cc r.
Proof.
  revert cc idx.
  induction active as [|r0 rest IH]; intros cc idx;
    cbn [Registry.assign_dof_index]; [reflexivity|].
  rewrite IH. unfold Registry.has_no_species.
  destruct (decide (r = r0)) as [->|Hne].
  - rewrite list_lookup_alter_eq. now destruct (cc !! r0).
  - now rewrite list_lookup_alter_ne by congruence.
Qed.

Lemma with_species_assign cc idx active refs :
  Registry.with_species (Registry.assign_dof_index cc idx active) refs
  = Registry.with_species cc refs.
Proof.
  unfold Registry.with_species. apply List.filter_ext.
  intros r. now rewrite has_no_species_assign.
Qed.

(** Activating a second time, on the store the first activation left, gives
    the same active list and the same block indices. *)
Lemma activation_idempotent (cc0 : list Registry.Compartment) a :
  Registry._init_4_1_get_active_compartments cc0 = Ok a ->
  Registry._init_4_1_get_active_compartments (Registry.cc a) = Ok a.
Proof.
  rewrite get_active_compartments_filter. intros [= <-]; simpl.
  rewrite get_active_compartments_filter.
  rewrite assign_dof_index_length, with_species_assign.
  do 2 f_equal.
  set (act := Registry.with_species cc0 (seq 0 (length cc0))).
  apply list_eq. intros r.
  destruct (decide (r ∈ act)) as [Hin|Hnot].
  - apply list_elem_of_lookup_1 in Hin as [k Hk].
    rewrite (assign_dof_index_lookup _ 0 act k r (with_species_NoDup cc0 _) Hk).
    rewrite (assign_dof_index_lookup _ 0 act k r (with_species_NoDup cc0 _) Hk).
    now destruct (cc0 !! r).
  - now rewrite !assign_dof_index_other by assumption.
Qed.

(** C3 (the code departs from its docstring): activation drops the
    compartments without species and numbers the others 0..n-1, but in
    declaration order. On the store [A (1 species, 10 dofs); B (2 species,
    40 dofs)] it returns A then B with block indices 0 and 1, although B has
    more unknowns than A by either measure, so the order is not descending. *)
Theorem C3_activation_keeps_declaration_order :
  exists a,
    Registry._init_4_1_get_active_compartments
      [Registry.comp_A; Registry.comp_B] = Ok a /\
    Registry._active_compartments a = [0%nat; 1%nat] /\
    Registry.deref (Registry.cc a) (Registry._active_compartments a)
    = [Registry.set_dof_index 0 Registry.comp_A;
       Registry.set_dof_index 1 Registry.comp_B] /\
    Registry.descending
      (map Registry.num_dofs
         (Registry.deref (Registry.cc a) (Registry._active_compartments a)))
    = false /\
    Registry.descending
      (map Registry.num_species
         (Registry.deref (Registry.cc a) (Registry._active_compartments a)))
    = false.
Proof.
  eexists. split; [reflexivity|]. repeat split.
Qed.

Lemma with_species_all_empty cc refs :
  Forall (fun c => Registry.num_species c = 0%nat) cc ->
  Forall (fun r => (r < length cc)%nat) refs ->
  Registry.with_species cc refs = [].
Proof.
  intros Hall Hrefs.
  induction Hrefs as [|r refs Hr _ IH]; simpl; [reflexivity|].
  unfold Registry.has_no_species.
  destruct (lookup_lt_is_Some_2 cc r Hr) as [c Hc]. rewrite Hc.
  rewrite Forall_lookup in Hall. rewrite (Hall r c Hc). simpl. exact IH.
Qed.

(** C9 (as stated, it fails): on a store whose only compartment has no
    species, activation does not raise. *)
Lemma C9_counterexample :
  Forall (fun c => Registry.num_species c = 0%nat) [Registry.comp_E] /\
  ~ Py.raises (Registry._init_4_1_get_active_compartments [Registry.comp_E]).
Proof.
  split.
  - repeat constructor.
  - intros [e He]. discriminate He.
Qed.

(** C9 (amended): when every candidate compartment has zero species,
    activation returns normally with an empty active list and leaves every
    compartment untouched; no error is raised. *)
Theorem C9_activation_of_empty_domains (cc0 : list Registry.Compartment) :
  Forall (fun c => Registry.num_species c = 0%nat) cc0 ->
  Registry._init_4_1_get_active_compartments cc0
  = Ok {| Registry.cc := cc0;
          Registry._active_compartments := [];
          Registry._all_compartments := seq 0 (length cc0) |}.
Proof.
  intros Hall.
  rewrite get_active_compartments_filter.
  rewrite with_species_all_empty; [reflexivity | assumption |].
  apply Forall_forall. intros r Hr.
  apply list_elem_of_In, List.in_seq in Hr. lia.
Qed.

Lemma C9_activation_of_empty_domains_witness :
  Forall (fun c => Registry.num_species c = 0%nat)
    [Registry.comp_E; Registry.comp_E] /\
  Registry._init_4_1_get_active_compartments [Registry.comp_E; Registry.comp_E]
  = Ok {| Registry.cc := [Registry.comp_E; Registry.comp_E];
          Registry._active_compartments := [];
          Registry._all_compartments := [0%nat; 1%nat] |}.
Proof.
  split.
  - repeat constructor.
  - apply (C9_activation_of_empty_domains [Registry.comp_E; Registry.comp_E]).
    repeat constructor.
Defined.

(** ** Block system builder *)

(** [get_mesh_by_id] finds a mesh only when it is the first one listed: for
    any other identifier it raises, whether or not a later mesh carries it. *)
Lemma get_mesh_by_id_not_first (mesh : Blocks.Mesh) (others : list Blocks.Mesh)
    (id : Z) :
  Blocks.mesh_id mesh <> id ->
  Blocks.get_mesh_by_id (mesh :: others) id = Raise ValueError.
Proof.
  intros Hne. unfold Blocks.get_mesh_by_id.
  now destruct (Z.eqb_spec (Blocks.mesh_id mesh) id).
Qed.

Lemma get_mesh_by_id_first (mesh : Blocks.Mesh) (others : list Blocks.Mesh) :
  Blocks.get_mesh_by_id (mesh :: others) (Blocks.mesh_id mesh) = Ok (Some mesh).
Proof.
  unfold Blocks.get_mesh_by_id. now rewrite Z.eqb_refl.
Qed.

(** A block that is missing or empty is logged and replaced by the
    placeholder [[None]]; the loop goes on with the next block. *)
Lemma split_blocks_empty_block cc_names all_meshes idx Fi rest Flist log cname :
  Fi = None \/ (exists F, Fi = Some F /\ Blocks.empty F = true) ->
  Blocks.get_index_name cc_names idx = Ok cname ->
  Blocks.split_blocks cc_names all_meshes idx (Fi :: rest) Flist log
  = Blocks.split_blocks cc_names all_meshes (S idx) rest
      (Flist ++ [[None]]) (log ++ [Blocks.block_is_empty idx cname]).
Proof.
  intros [-> | (F & -> & HF)] Hname; simpl; rewrite ?HF, Hname; reflexivity.
Qed.

(** An empty sub-form on the first listed mesh is logged, with the names of
    the compartment and of the mesh, and replaced by [None]. *)
Lemma split_by_domain_empty_on_first cc_names mesh others idx f rest Fs log cname :
  Blocks.sub_empty f = true ->
  Blocks.sub_mesh f = Blocks.mesh_id mesh ->
  Blocks.get_index_name cc_names idx = Ok cname ->
  Blocks.split_by_domain cc_names (mesh :: others) idx (Some f :: rest) Fs log
  = Blocks.split_by_domain cc_names (mesh :: others) idx rest (Fs ++ [None])
      (log ++ [Blocks.block_is_empty_on idx cname (Blocks.mesh_name mesh)]).
Proof.
  intros Hempty Hmesh Hname.
  cbn [Blocks.split_by_domain]. rewrite Hempty, Hmesh.
  rewrite get_mesh_by_id_first. cbn [Py.bind]. now rewrite Hname.
Qed.

(** An empty sub-form on any other mesh makes the decomposition raise. *)
Lemma split_by_domain_empty_elsewhere cc_names mesh others idx f rest Fs log :
  Blocks.sub_empty f = true ->
  Blocks.sub_mesh f <> Blocks.mesh_id mesh ->
  Blocks.split_by_domain cc_names (mesh :: others) idx (Some f :: rest) Fs log
  = Raise ValueError.
Proof.
  intros Hempty Hmesh.
  cbn [Blocks.split_by_domain]. rewrite Hempty.
  rewrite get_mesh_by_id_not_first by congruence. reflexivity.
Qed.

(** C7 (the code misses what it attempts): an empty block is logged and
    replaced by a placeholder, and so is an empty sub-region contribution
    that lives on the first registered mesh; but for an empty contribution
    on any other registered mesh the lookup of the mesh name raises
    [ValueError] and block building is abandoned. With meshes [cyto] and
    [pm] and one block that is empty on [pm], [get_block_F] raises. *)
Theorem C7_empty_subregion_raises :
  In Blocks.mesh_pm [Blocks.mesh_cyto; Blocks.mesh_pm] /\
  Blocks.get_block_F ["cyto"%string] [Blocks.mesh_cyto; Blocks.mesh_pm]
    [Blocks.F_cyto] 1
  = Raise ValueError /\
  Blocks.get_block_F ["cyto"%string] [Blocks.mesh_cyto; Blocks.mesh_pm]
    [Blocks.F_first_mesh] 1
  = Ok ([[None; Some {| Blocks.sub_mesh := 2; Blocks.sub_empty := false |}]],
        [Blocks.block_is_empty_on 0 "cyto" "cyto"]) /\
  Blocks.get_block_F ["cyto"%string; "pm"%string]
    [Blocks.mesh_cyto; Blocks.mesh_pm] [Blocks.F_first_mesh] 2
  = Ok ([[None; Some {| Blocks.sub_mesh := 2; Blocks.sub_empty := false |}];
         [None]],
        [Blocks.block_is_empty_on 0 "cyto" "cyto";
         Blocks.block_is_empty 1 "pm"]).
Proof.
  split; [right; left; reflexivity|].
  split; [vm_compute; reflexivity|].
  split; vm_compute; reflexivity.
Qed.

(** ** Decimal quantization *)

Lemma round_half_even_integer (k : Z) (d : positive) :
  Decimal.round_half_even ((k # d) * inject_Z (Zpos d)) = k.
Proof.
  unfold Decimal.round_half_even, Qmult, inject_Z; simpl.
  rewrite Pos.mul_1_r.
  rewrite Z.div_mul by discriminate.
  rewrite Z.mod_mul by discriminate.
  reflexivity.
Qed.

(** Quantizing an already quantized Decimal changes nothing. *)
Lemma rounded_decimal_dec (p : nat) (k : Z) :
  Decimal.rounded_decimal p (Decimal.dec p k) = k.
Proof.
  unfold Decimal.rounded_decimal, Decimal.dec.
  apply round_half_even_integer.
Qed.

(** ** Step controller *)

Lemma with_dt_same (self : Engine.Model) :
  Engine.with_dt (Engine.dt self) self = self.
Proof. now destruct self. Qed.

Lemma with_t_same (self : Engine.Model) :
  Engine.with_t (Engine.t self) self = self.
Proof. now destruct self. Qed.

Lemma model_rounded_decimal_dec (self : Engine.Model) (k : Z) :
  Engine.rounded_decimal self (Engine.dec self k) = k.
Proof. apply rounded_decimal_dec. Qed.

(** [set_dt] on a Decimal argument stores exactly that Decimal. *)
Lemma set_dt_dec (self : Engine.Model) (k : Z) :
  Engine.set_dt (Engine.dec self k) self = Engine.with_dt k self.
Proof.
  unfold Engine.set_dt.
  rewrite !model_rounded_decimal_dec.
  destruct (Z.eqb_spec k (Engine.dt self)) as [->|Hne]; simpl.
  - now rewrite with_dt_same.
  - reflexivity.
Qed.

Lemma set_time_eq (self : Engine.Model) (v : Z) :
  Engine.set_time v self = Engine.with_t v self.
Proof.
  unfold Engine.set_time.
  destruct (Z.eqb_spec v (Engine.t self)) as [->|Hne]; simpl.
  - now rewrite with_t_same.
  - reflexivity.
Qed.





(** Final-time clipping. *)
Lemma adjust_dt_if_pass_tfinal_spec self :
  Engine.adjust_dt_if_pass_tfinal self
  = if Engine.t self + Engine.dt self >? Engine.final_t self
    then Engine.with_dt (Engine.final_t self - Engine.t self) self
    else self.
Proof.
  unfold Engine.adjust_dt_if_pass_tfinal.
  destruct (Engine.t self + Engine.dt self >? Engine.final_t self);
    [|reflexivity].
  now rewrite model_rounded_decimal_dec, set_dt_dec.
Qed.

(** One step forward: the clock advances by exactly [dt]. *)
Lemma forward_time_step_spec self :
  Engine.forward_time_step self
  = Engine.with_dtvec (Engine.dtvec self ++ [Engine.dt self])
      (Engine.with_tvec (Engine.tvec self ++ [Engine.t self + Engine.dt self])
         (Engine.with_t (Engine.t self + Engine.dt self)
            (Engine.with_tn (Engine.t self) self))).
Proof.
  unfold Engine.forward_time_step. cbv zeta.
  rewrite !model_rounded_decimal_dec, !with_dt_same.
  reflexivity.
Qed.





(** ** Python list access at the end of a list *)

Lemma bind_Ok {A B : Type} (m : result A) (k : A -> result B) (b : B) :
  Py.bind m k = Ok b -> exists a, m = Ok a /\ k a = Ok b.
Proof.
  destruct m as [a|e]; simpl; [|discriminate].
  intros H. now exists a.
Qed.

Lemma index_last {A : Type} (l : list A) (x : A) :
  Py.index (l ++ [x]) (-1) = Ok x.
Proof.
  pose proof (index_app_middle l [] x) as H.
  unfold Py.index in *. rewrite length_app in *. simpl in *.
  replace (Z.of_nat (length l + 1) + -1) with (Z.of_nat (length l)) by lia.
  assert (Hlt : (Z.of_nat (length l) <? 0) = false) by (apply Z.ltb_ge; lia).
  rewrite Hlt in H. exact H.
Qed.

Lemma index_last_but_one {A : Type} (l : list A) (y x : A) :
  Py.index (l ++ [y] ++ [x]) (-2) = Ok y.
Proof.
  pose proof (index_app_middle l [x] y) as H.
  unfold Py.index in *. rewrite !length_app in *. simpl in *.
  replace (Z.of_nat (length l + 2) + -2) with (Z.of_nat (length l)) by lia.
  assert (Hlt : (Z.of_nat (length l) <? 0) = false) by (apply Z.ltb_ge; lia).
  rewrite Hlt in H. exact H.
Qed.

Lemma pop_last {A : Type} (l : list A) (x : A) :
  Py.pop (l ++ [x]) = Ok l.
Proof.
  unfold Py.pop. rewrite removelast_last.
  now destruct l.
Qed.

(** ** Loops over the active compartments *)

Lemma assign_range_middle (pre mid post spre smid spost : list Engine.vector) :
  length spre = length pre ->
  length smid = length mid ->
  Engine.assign_range (seq (length pre) (length mid))
    (pre ++ mid ++ post) (spre ++ smid ++ spost)
  = Ok (pre ++ smid ++ post).
Proof.
  revert pre spre smid.
  induction mid as [|x mid IH]; intros pre spre smid Hpre Hmid.
  - destruct smid; [reflexivity | discriminate].
  - destruct smid as [|v smid]; [discriminate|].
    injection Hmid as Hmid.
    cbn [length seq Engine.assign_range]. unfold Engine.assign_sub.
    rewrite <- Hpre at 1.
    rewrite (list_lookup_middle spre (smid ++ spost) v) by reflexivity.
    rewrite (list_lookup_middle pre (mid ++ post) x) by reflexivity.
    cbn [Py.bind].
    rewrite (insert_app_r_alt pre _ (length pre)) by lia.
    rewrite Nat.sub_diag. cbn [insert list_insert].
    specialize (IH (pre ++ [v]) (spre ++ [v]) smid).
    rewrite !length_app in IH. cbn [length] in IH.
    rewrite !Nat.add_1_r in IH.
    rewrite <- !app_assoc in IH. cbn [app] in IH.
    apply IH; [now f_equal | assumption].
Qed.

Lemma assign_range_all (dst src : list Engine.vector) :
  length src = length dst ->
  Engine.assign_range (seq 0 (length dst)) dst src = Ok src.
Proof.
  intros Hlen.
  pose proof (assign_range_middle [] dst [] [] src [] eq_refl Hlen) as H.
  cbn [length app] in H. now rewrite !app_nil_r in H.
Qed.






Lemma clamp_vector_lookup (v : Engine.vector) (i : nat) (x : Float.float) :
  v !! i = Some x ->
  Engine.clamp_vector v !! i
  = Some (if Float.ltb x Float.zero then Float.zero else x).
Proof.
  unfold Engine.clamp_vector. revert i.
  induction v as [|y v IH]; intros [|i] Hx; try discriminate; simpl in *.
  - now injection Hx as ->.
  - now apply IH.
Qed.

(** ** Solution state *)

(** Accepting a step copies the current solution into the previous one. *)
Lemma update_solution_accept (self : Engine.Model) :
  Engine.sized self ->
  Engine.update_solution [Engine.key_n] Engine.key_u self
  = Ok (Engine.with_u_n (Engine.u_u self) self).
Proof.
  intros [Hu Hn]. cbn [Engine.update_solution Engine.get_u Engine.set_u].
  rewrite <- Hn, assign_range_all by congruence. reflexivity.
Qed.

(** ** Binary64 rounding: how far a result can exceed the exact value *)

Lemma digits2_pos_bounds (m : positive) :
  2 ^ (Zpos (digits2_pos m) - 1) <= Zpos m < 2 ^ Zpos (digits2_pos m).
Proof.
  induction m as [m IH | m IH |]; simpl digits2_pos.
  - rewrite Pos2Z.inj_succ.
    replace (Z.succ (Zpos (digits2_pos m)) - 1) with (Z.succ (Zpos (digits2_pos m) - 1)) by lia.
    rewrite !Z.pow_succ_r by lia. lia.
  - rewrite Pos2Z.inj_succ.
    replace (Z.succ (Zpos (digits2_pos m)) - 1) with (Z.succ (Zpos (digits2_pos m) - 1)) by lia.
    rewrite !Z.pow_succ_r by lia. lia.
  - simpl. lia.
Qed.

Lemma shr_1_m (mrs : shr_record) :
  0 <= shr_m mrs -> shr_m (shr_1 mrs) = shr_m mrs / 2.
Proof.
  destruct mrs as [m r s]. simpl. intros Hm.
  destruct m as [|p|p]; try lia; [reflexivity|].
  destruct p as [p|p|]; simpl shr_m.
  - rewrite Pos2Z.inj_xI. apply Z.div_unique with 1; lia.
  - rewrite Pos2Z.inj_xO. apply Z.div_unique with 0; lia.
  - reflexivity.
Qed.

Lemma iter_pos_nat {A : Type} (f : A -> A) (n : positive) (x : A) :
  SpecFloat.iter_pos f n x = Nat.iter (Pos.to_nat n) f x.
Proof.
  revert x. induction n as [n IH | n IH |]; intros x; cbn [SpecFloat.iter_pos].
  - rewrite !IH. rewrite Pos2Nat.inj_xI.
    replace (S (2 * Pos.to_nat n))%nat with (Pos.to_nat n + (Pos.to_nat n + 1))%nat by lia.
    rewrite !Nat.iter_add. simpl. reflexivity.
  - rewrite !IH. rewrite Pos2Nat.inj_xO.
    replace (2 * Pos.to_nat n)%nat with (Pos.to_nat n + Pos.to_nat n)%nat by lia.
    rewrite Nat.iter_add. reflexivity.
  - reflexivity.
Qed.

Lemma iter_shr_1_m (k : nat) (mrs : shr_record) :
  0 <= shr_m mrs ->
  shr_m (Nat.iter k shr_1 mrs) = shr_m mrs / 2 ^ Z.of_nat k.
Proof.
  intros Hm. induction k as [|k IH].
  - simpl. now rewrite Z.div_1_r.
  - change (Nat.iter (S k) shr_1 mrs) with (shr_1 (Nat.iter k shr_1 mrs)).
    rewrite shr_1_m.
    + rewrite IH. rewrite Nat2Z.inj_succ, Z.pow_succ_r by lia.
      rewrite Z.div_div by lia. f_equal. lia.
    + rewrite IH. apply Z.div_pos; lia.
Qed.

Lemma shr_record_of_loc_m (m : Z) (l : location) :
  shr_m (shr_record_of_loc m l) = m.
Proof. destruct l as [|[| |]]; reflexivity. Qed.

Lemma loc_of_shr_record_of_loc (m : Z) (l : location) :
  loc_of_shr_record (shr_record_of_loc m l) = l.
Proof. destruct l as [|[| |]]; reflexivity. Qed.

Section Rounding.

Variables prec emax : Z.

Lemma shr_fexp_spec (m e : Z) (l : location) :
  0 <= m ->
  snd (shr_fexp prec emax m e l) = e + Float.dropped prec emax m e /\
  shr_m (fst (shr_fexp prec emax m e l)) = m / 2 ^ Float.dropped prec emax m e /\
  (Float.dropped prec emax m e = 0 ->
   loc_of_shr_record (fst (shr_fexp prec emax m e l)) = l).
Proof.
  intros Hm. unfold shr_fexp, shr, Float.dropped.
  destruct (fexp prec emax (Zdigits2 m + e) - e) as [|n|n] eqn:Hn.
  - simpl. rewrite shr_record_of_loc_m, Z.div_1_r, Z.add_0_r.
    repeat split. intros _. apply loc_of_shr_record_of_loc.
  - cbn [fst snd]. rewrite iter_pos_nat, iter_shr_1_m.
    + rewrite shr_record_of_loc_m, positive_nat_Z.
      rewrite Z.max_r by lia. repeat split. lia.
    + rewrite shr_record_of_loc_m. exact Hm.
  - simpl. rewrite shr_record_of_loc_m, Z.div_1_r, Z.add_0_r.
    repeat split. intros _. apply loc_of_shr_record_of_loc.
Qed.

Lemma round_nearest_even_bounds (m : Z) (l : location) :
  m <= round_nearest_even m l <= m + 1.
Proof.
  unfold round_nearest_even.
  destruct l as [|[| |]]; try lia. destruct (Z.even m); lia.
Qed.

(** What rounding can add: the result of [binary_round_aux], read at the
    exponent of its input, exceeds the input mantissa by at most one unit
    of the dropped bits, and by nothing when no bit is dropped from an exact
    input. *)
Lemma binary_round_aux_bound (sx : bool) (mx ex : Z) (lx : location)
    (s : bool) (m : positive) (e : Z) :
  0 <= mx ->
  binary_round_aux prec emax sx mx ex lx = S754_finite s m e ->
  s = sx /\ ex + Float.dropped prec emax mx ex <= e /\
  Zpos m * 2 ^ (e - ex)
  <= mx + (if (Float.dropped prec emax mx ex =? 0)
           then match lx with loc_Exact => 0 | _ => 1 end
           else 2 ^ Float.dropped prec emax mx ex).
Proof.
  intros Hmx. unfold binary_round_aux.
  pose proof (shr_fexp_spec mx ex lx Hmx) as (He1 & Hm1 & Hl1).
  destruct (shr_fexp prec emax mx ex lx) as [mrs1 e1]. cbn [fst snd] in *.
  set (m1 := round_nearest_even (shr_m mrs1) (loc_of_shr_record mrs1)).
  assert (Hn1 : 0 <= Float.dropped prec emax mx ex) by (unfold Float.dropped; lia).
  assert (Hm1pos : 0 <= shr_m mrs1).
  { rewrite Hm1. apply Z.div_pos; lia. }
  pose proof (round_nearest_even_bounds (shr_m mrs1) (loc_of_shr_record mrs1))
    as Hr. fold m1 in Hr.
  assert (Hm1' : 0 <= m1) by lia.
  pose proof (shr_fexp_spec m1 e1 loc_Exact Hm1') as (He2 & Hm2 & _).
  destruct (shr_fexp prec emax m1 e1 loc_Exact) as [mrs2 e2].
  cbn [fst snd] in *.
  assert (Hn2 : 0 <= Float.dropped prec emax m1 e1) by (unfold Float.dropped; lia).
  destruct (shr_m mrs2) as [|m2|m2] eqn:Hm2'; try discriminate.
  destruct (e2 <=? emax - prec); [|discriminate].
  intros [= <- <- <-].
  split; [reflexivity|]. split; [lia|].
  replace (e2 - ex) with (Float.dropped prec emax m1 e1 + Float.dropped prec emax mx ex) by lia.
  rewrite Z.pow_add_r by lia.
  assert (H2 : Zpos m2 * 2 ^ Float.dropped prec emax m1 e1 <= m1).
  { rewrite Hm2. rewrite Z.mul_comm. apply Z.mul_div_le. lia. }
  assert (H1 : shr_m mrs1 * 2 ^ Float.dropped prec emax mx ex <= mx).
  { rewrite Hm1. rewrite Z.mul_comm. apply Z.mul_div_le. lia. }
  destruct (Z.eqb_spec (Float.dropped prec emax mx ex) 0) as [H0|H0].
  - rewrite H0 in *. rewrite Z.pow_0_r, Z.mul_1_r in *.
    rewrite Z.div_1_r in Hm1.
    assert (Hm1le : m1 <= mx + match lx with loc_Exact => 0 | _ => 1 end).
    { unfold m1. rewrite (Hl1 eq_refl), Hm1.
      destruct lx as [|[| |]]; simpl; try lia. destruct (Z.even mx); lia. }
    lia.
  - assert (Hp : 0 < 2 ^ Float.dropped prec emax mx ex) by (apply Z.pow_pos_nonneg; lia).
    nia.
Qed.

End Rounding.

Section Values.

Local Open Scope Q_scope.

Lemma pow2_pos (e : Z) : 0 < 2 ^ e.
Proof. apply Qpower_0_lt. reflexivity. Qed.

Lemma pow2_add (a b : Z) : 2 ^ (a + b) == 2 ^ a * 2 ^ b.
Proof. apply Qpower_plus. discriminate. Qed.

Lemma pow2_inject (n : Z) : (0 <= n)%Z -> inject_Z (2 ^ n) == 2 ^ n.
Proof. intros H. apply (Zpower_Qpower 2 n H). Qed.

Lemma pow2_le (a b : Z) : (a <= b)%Z -> 2 ^ a <= 2 ^ b.
Proof. intros H. apply Qpower_le_compat_l; [exact H | discriminate]. Qed.

Lemma value_shift (m e k : Z) :
  (0 <= k)%Z -> Float.value (m * 2 ^ k) e == Float.value m (e + k).
Proof.
  intros Hk. unfold Float.value.
  rewrite inject_Z_mult, pow2_inject, pow2_add by exact Hk. ring.
Qed.

Lemma value_le (m m' e : Z) : (m <= m')%Z -> Float.value m e <= Float.value m' e.
Proof.
  intros H. unfold Float.value. apply Qmult_le_compat_r.
  - rewrite <- Zle_Qle. exact H.
  - apply Qlt_le_weak, pow2_pos.
Qed.

Lemma value_nonneg (m e : Z) : (0 <= m)%Z -> 0 <= Float.value m e.
Proof.
  intros H. unfold Float.value. apply Qmult_le_0_compat.
  - change 0 with (inject_Z 0). rewrite <- Zle_Qle. exact H.
  - apply Qlt_le_weak, pow2_pos.
Qed.

(** Rounding to binary64 adds at most a relative [2^-52], the smallest
    subnormal, and one unit of the input's exponent when the input carries a
    remainder. *)
Lemma binary_round_aux_value (mx ex : Z) (lx : location)
    (s : bool) (m : positive) (e : Z) :
  (0 < mx)%Z ->
  binary_round_aux 53 1024 false mx ex lx = S754_finite s m e ->
  s = false /\
  Float.value (Zpos m) e
  <= Float.value mx ex * (1 + 2 ^ (-52)) + 2 ^ (-1074)
     + match lx with loc_Exact => 0 | _ => 2 ^ ex end.
Proof.
  intros Hmx H.
  destruct (binary_round_aux_bound 53 1024 false mx ex lx s m e
              ltac:(lia) H) as (Hs & He & Hb).
  split; [exact Hs|].
  assert (Hn : (0 <= Float.dropped 53 1024 mx ex)%Z) by (unfold Float.dropped; lia).
  assert (Hv : Float.value (Zpos m) e == Float.value (Zpos m * 2 ^ (e - ex)) ex).
  { rewrite value_shift by lia. replace (ex + (e - ex))%Z with e by lia.
    reflexivity. }
  rewrite Hv. clear Hv.
  pose proof (value_nonneg mx ex ltac:(lia)) as Hv0.
  pose proof (pow2_pos (-52)) as H52.
  pose proof (pow2_pos (-1074)) as Hmin.
  pose proof (pow2_pos ex) as Hex.
  assert (Hrel : 0 <= Float.value mx ex * 2 ^ (-52)).
  { apply Qmult_le_0_compat; [exact Hv0 | apply Qlt_le_weak, H52]. }
  destruct (Z.eqb_spec (Float.dropped 53 1024 mx ex) 0) as [H0|H0].
  - destruct lx as [|c].
    + rewrite Z.add_0_r in Hb. apply (value_le _ _ ex) in Hb. lra.
    + apply (value_le _ _ ex) in Hb. unfold Float.value in *.
      rewrite inject_Z_plus in Hb. change (inject_Z 1) with 1 in Hb. lra.
  - apply (value_le _ _ ex) in Hb.
    assert (Hsplit : Float.value (mx + 2 ^ Float.dropped 53 1024 mx ex) ex
                     == Float.value mx ex + 2 ^ (ex + Float.dropped 53 1024 mx ex)).
    { unfold Float.value. rewrite inject_Z_plus, pow2_inject, pow2_add by exact Hn.
      ring. }
    rewrite Hsplit in Hb. clear Hsplit.
    assert (Herr : 2 ^ (ex + Float.dropped 53 1024 mx ex)
                   <= Float.value mx ex * 2 ^ (-52) + 2 ^ (-1074)).
    { unfold Float.dropped, fexp, emin in *.
      destruct (Z.max_spec (Zdigits2 mx + ex - 53) (3 - 1024 - 53))
        as [[Hlt Hmax]|[Hge Hmax]].
      - rewrite Hmax in *.
        replace (ex + Z.max 0 (3 - 1024 - 53 - ex))%Z with (-1074)%Z by lia.
        lra.
      - rewrite Hmax in *.
        replace (ex + Z.max 0 (Zdigits2 mx + ex - 53 - ex))%Z
          with ((ex + (Zdigits2 mx - 1)) + (-52))%Z by lia.
        rewrite pow2_add.
        assert (Hd : Float.value (2 ^ (Zdigits2 mx - 1)) ex <= Float.value mx ex).
        { apply value_le. destruct mx as [|p|p]; try lia.
          apply (digits2_pos_bounds p). }
        assert (Hd1 : (0 <= Zdigits2 mx - 1)%Z).
        { destruct mx as [|p|p]; lia. }
        replace (2 ^ (Zdigits2 mx - 1))%Z with (1 * 2 ^ (Zdigits2 mx - 1))%Z
          in Hd by lia.
        rewrite value_shift in Hd by exact Hd1.
        unfold Float.value at 1 in Hd. change (inject_Z 1) with 1 in Hd.
        rewrite Qmult_1_l in Hd.
        apply (Qmult_le_compat_r _ _ (2 ^ (-52))) in Hd; [|lra].
        lra. }
    destruct lx; lra.
Qed.

Lemma value_mul (m1 e1 m2 e2 : Z) :
  Float.value (m1 * m2) (e1 + e2) == Float.value m1 e1 * Float.value m2 e2.
Proof. unfold Float.value. rewrite inject_Z_mult, pow2_add. ring. Qed.

Lemma SFmul_value (m1 : positive) (e1 : Z) (m2 : positive) (e2 : Z)
    (s : bool) (m : positive) (e : Z) :
  SFmul 53 1024 (S754_finite false m1 e1) (S754_finite false m2 e2)
  = S754_finite s m e ->
  s = false /\
  Float.value (Zpos m) e
  <= Float.value (Zpos m1) e1 * Float.value (Zpos m2) e2 * (1 + 2 ^ (-52)) + 2 ^ (-1074).
Proof.
  unfold SFmul. cbn [xorb]. intros H.
  apply binary_round_aux_value in H; [|lia].
  destruct H as [Hs H]. split; [exact Hs|].
  rewrite Pos2Z.inj_mul, value_mul in H. lra.
Qed.

Lemma ratio_lower (k t : positive) :
  2 ^ (Zdigits2 (Zpos k) - 1 + - Zdigits2 (Zpos t)) <= Zpos k # t.
Proof.
  rewrite (Qmake_Qdiv (Zpos k) t). apply Qle_shift_div_l; [reflexivity|].
  pose proof (digits2_pos_bounds k) as [Hk _].
  pose proof (digits2_pos_bounds t) as [_ Ht].
  cbn [Zdigits2]. rewrite pow2_add.
  rewrite Zle_Qle, pow2_inject in Hk by lia.
  apply Z.lt_le_incl in Ht. rewrite Zle_Qle, pow2_inject in Ht by lia.
  pose proof (pow2_add (- Zpos (digits2_pos t)) (Zpos (digits2_pos t))) as Hinv.
  replace (- Zpos (digits2_pos t) + Zpos (digits2_pos t))%Z with 0%Z in Hinv
    by lia.
  change (2 ^ 0) with 1 in Hinv.
  pose proof (pow2_pos (Zpos (digits2_pos k) - 1)) as HA.
  pose proof (pow2_pos (- Zpos (digits2_pos t))) as HB.
  set (A := 2 ^ (Zpos (digits2_pos k) - 1)) in *.
  set (B := 2 ^ (- Zpos (digits2_pos t))) in *.
  set (C := 2 ^ Zpos (digits2_pos t)) in *.
  apply Qle_trans with (A * B * C).
  - apply Qmult_le_l; [|exact Ht].
    apply Qmult_lt_0_compat; assumption.
  - rewrite <- Qmult_assoc, <- Hinv, Qmult_1_r. exact Hk.
Qed.

(** The quotient the division hands to the rounding: positive, no larger
    than the exact ratio, and with an exponent at least 52 bits below it. *)
Lemma SFdiv_core_binary_spec (k t : positive) (q e' : Z) (l : location) :
  (Zpos t < 2 ^ 97)%Z ->
  SFdiv_core_binary 53 1024 (Zpos k) 0 (Zpos t) 0 = (q, e', l) ->
  (0 < q)%Z /\ Float.value q e' <= Zpos k # t /\ 2 ^ e' <= (Zpos k # t) * 2 ^ (-52).
Proof.
  intros Ht. unfold SFdiv_core_binary.
  pose proof (digits2_pos_bounds k) as [Hk1 Hk2].
  pose proof (digits2_pos_bounds t) as [Ht1 Ht2].
  cbn [Zdigits2] in *.
  set (d1 := Zpos (digits2_pos k)) in *.
  set (d2 := Zpos (digits2_pos t)) in *.
  assert (Hd1 : (1 <= d1)%Z) by (unfold d1; lia).
  assert (Hd2 : (1 <= d2 <= 97)%Z).
  { split; [unfold d2; lia|].
    assert (d2 - 1 < 97)%Z; [|lia].
    apply (Z.pow_lt_mono_r_iff 2); lia. }
  rewrite !Z.add_0_r. change (0 - 0)%Z with 0%Z.
  unfold fexp, emin.
  set (e0 := Z.min (Z.max (d1 - d2 - 53) (3 - 1024 - 53)) 0).
  assert (He0 : (e0 <= d1 - d2 - 53 /\ e0 <= 0 /\
                (e0 = 0 \/ e0 = d1 - d2 - 53))%Z) by (unfold e0; lia).
  clearbody e0.
  set (m' := match (0 - e0)%Z with
             | Zpos _ => Z.shiftl (Zpos k) (0 - e0)
             | Z0 => Zpos k
             | Zneg _ => 0%Z
             end).
  assert (Hm' : m' = (Zpos k * 2 ^ (- e0))%Z).
  { unfold m'. replace (0 - e0)%Z with (- e0)%Z by lia.
    destruct (- e0)%Z as [|p|p] eqn:Hs.
    - rewrite Z.pow_0_r. lia.
    - apply Z.shiftl_mul_pow2. lia.
    - lia. }
  clearbody m'.
  pose proof (Z_div_mod m' (Zpos t) ltac:(lia)) as Hdiv.
  destruct (Z.div_eucl m' (Zpos t)) as [q0 r0].
  destruct Hdiv as [Hq Hr]. intros [= <- <- <-].
  assert (Hpow : (0 < 2 ^ (- e0))%Z) by (apply Z.pow_pos_nonneg; lia).
  assert (Hbig : (Zpos t <= m')%Z).
  { rewrite Hm'. destruct He0 as (Ha & Hb & [Hc|Hc]).
    - rewrite Hc. simpl (2 ^ (- 0))%Z. rewrite Z.mul_1_r.
      apply Z.le_trans with (2 ^ d2)%Z; [lia|].
      apply Z.le_trans with (2 ^ (d1 - 1))%Z; [|lia].
      apply Z.pow_le_mono_r; lia.
    - apply Z.le_trans with (2 ^ d2)%Z; [lia|].
      apply Z.le_trans with (2 ^ (d1 - 1) * 2 ^ (- e0))%Z; [|nia].
      rewrite <- Z.pow_add_r by lia. apply Z.pow_le_mono_r; lia. }
  assert (Hq0 : (0 < q0)%Z) by nia.
  split; [exact Hq0|]. split.
  - rewrite (Qmake_Qdiv (Zpos k) t). apply Qle_shift_div_l; [reflexivity|].
    assert (Hle : (q0 * Zpos t <= Zpos k * 2 ^ (- e0))%Z) by nia.
    apply (value_le _ _ e0) in Hle.
    rewrite value_shift in Hle by lia.
    replace (e0 + - e0)%Z with 0%Z in Hle by lia.
    unfold Float.value in *. rewrite inject_Z_mult in Hle.
    change (2 ^ 0) with 1 in Hle. lra.
  - apply Qle_trans with (2 ^ (d1 - 1 + - d2) * 2 ^ (-52)).
    + rewrite <- pow2_add. apply pow2_le. lia.
    + apply Qmult_le_compat_r; [apply (ratio_lower k t)|].
      apply Qlt_le_weak, pow2_pos.
Qed.

Lemma SFdiv_value (k t : positive) (s : bool) (m : positive) (e : Z) :
  (Zpos t < 2 ^ 97)%Z ->
  SFdiv 53 1024 (S754_finite false k 0) (S754_finite false t 0)
  = S754_finite s m e ->
  s = false /\
  Float.value (Zpos m) e <= (Zpos k # t) * (1 + 2 ^ (-50)) + 2 ^ (-1074).
Proof.
  intros Ht. unfold SFdiv. cbn [xorb].
  pose proof (SFdiv_core_binary_spec k t) as Hcore.
  destruct (SFdiv_core_binary 53 1024 (Zpos k) 0 (Zpos t) 0) as [[q e'] l].
  destruct (Hcore q e' l Ht eq_refl) as (Hq & Hv & He). clear Hcore.
  intros H. apply binary_round_aux_value in H; [|exact Hq].
  destruct H as [Hs H]. split; [exact Hs|].
  assert (Hl : match l with loc_Exact => 0 | _ => 2 ^ e' end <= 2 ^ e').
  { destruct l; [apply Qlt_le_weak, pow2_pos | apply Qle_refl]. }
  assert (H50 : 2 ^ (-50) == 4 * 2 ^ (-52)).
  { change 4 with (2 ^ 2). rewrite <- pow2_add. reflexivity. }
  pose proof (pow2_pos (-52)) as H52.
  pose proof (value_nonneg q e' ltac:(lia)) as Hv0.
  set (v := Zpos k # t) in *.
  assert (Hvv : Float.value q e' * 2 ^ (-52) <= v * 2 ^ (-52)).
  { apply Qmult_le_compat_r; [exact Hv | lra]. }
  rewrite H50. lra.
Qed.

End Values.
(** ** The step a rollback leaves is smaller than the failed one *)

Section Shrinking.

Local Open Scope Q_scope.

Lemma mult_le_left (z x y : Q) : 0 <= z -> x <= y -> z * x <= z * y.
Proof.
  intros Hz Hxy. rewrite (Qmult_comm z x), (Qmult_comm z y).
  apply Qmult_le_compat_r; assumption.
Qed.

Lemma to_Q_value (m : positive) (e : Z) (x : Q) :
  Float.to_Q (S754_finite false m e) = Some x ->
  x == Float.value (Zpos m) e.
Proof.
  unfold Float.to_Q, Float.value. intros [= <-].
  destruct e as [|p|p].
  - change (2 ^ 0) with 1. ring.
  - rewrite inject_Z_mult, pow2_inject by lia. reflexivity.
  - rewrite (Qmake_Qdiv (Zpos m) (2 ^ p)).
    change (Z.neg p) with (- Zpos p)%Z. rewrite Qpower_opp.
    rewrite Pos2Z.inj_pow, pow2_inject by lia. reflexivity.
Qed.

Lemma round_half_even_nonneg (y : Q) :
  0 <= y -> (0 <= Decimal.round_half_even y)%Z.
Proof.
  destruct y as [n d]. unfold Qle, Decimal.round_half_even. cbn [Qnum Qden].
  rewrite Z.mul_1_r. intros Hn.
  assert (0 <= n / Zpos d)%Z by (apply Z.div_pos; lia).
  destruct (2 * (n mod Zpos d) ?= Zpos d)%Z; [destruct (Z.even _)| |]; lia.
Qed.

Lemma round_half_even_below (y : Q) (k : Z) :
  y < inject_Z k - (1 # 2) -> (Decimal.round_half_even y < k)%Z.
Proof.
  destruct y as [n d]. unfold Qlt, Decimal.round_half_even.
  cbn [Qnum Qden inject_Z Qminus Qplus Qopp]. intros Hy.
  assert (Hn : (2 * n < (2 * k - 1) * Zpos d)%Z) by lia.
  clear Hy.
  pose proof (Z.div_mod n (Zpos d) ltac:(lia)) as Hdm.
  pose proof (Z.mod_pos_bound n (Zpos d) ltac:(lia)) as Hr.
  set (f := (n / Zpos d)%Z) in *. set (r := (n mod Zpos d)%Z) in *.
  destruct (Z.compare_spec (2 * r) (Zpos d)) as [He|Hl|Hg];
    [destruct (Z.even f)| |]; nia.
Qed.

(** [0.2] as a binary64. *)
Lemma dt_scale_value :
  Engine.dt_scale = S754_finite false 7205759403792794 (-55).
Proof. vm_compute. reflexivity. Qed.

Lemma ticks_per_unit_bound (p : nat) :
  (p < 30)%nat -> (Zpos (Decimal.ticks_per_unit p) <= 10 ^ 29)%Z.
Proof.
  intros Hp. unfold Decimal.ticks_per_unit.
  rewrite Z2Pos.id by (apply Z.pow_pos_nonneg; lia).
  apply Z.pow_le_mono_r; lia.
Qed.

(** The scaled step, before it is quantized: at least half a tick below the
    failed step. *)
Lemma scaled_step_small (self : Engine.Model) (d : Z) (x : Q) :
  Engine.valid_precision (Engine.config self) = true ->
  (0 < d)%Z ->
  Float.to_Q (Float.mul (Engine.to_float self d) Engine.dt_scale) = Some x ->
  0 <= x /\
  x * inject_Z (Zpos (Decimal.ticks_per_unit
                        (Engine.time_precision (Engine.config self))))
  < inject_Z d - (1 # 2).
Proof.
  unfold Engine.valid_precision. intros Hp Hd.
  apply andb_prop in Hp as [_ Hp]. apply Nat.ltb_lt in Hp.
  apply ticks_per_unit_bound in Hp.
  unfold Engine.to_float, Engine.dec, Decimal.dec, Float.of_Q.
  cbn [Qnum Qden].
  set (tpu := Decimal.ticks_per_unit _) in *.
  set (T := inject_Z (Zpos tpu)).
  assert (HT : 0 < T) by reflexivity.
  assert (HT' : T <= inject_Z (10 ^ 29)).
  { unfold T. rewrite <- Zle_Qle. exact Hp. }
  assert (Ht97 : (Zpos tpu < 2 ^ 97)%Z).
  { eapply Z.le_lt_trans; [exact Hp|]. reflexivity. }
  destruct d as [|k|k]; try lia. clear Hd.
  assert (HD : 1 <= inject_Z (Zpos k)).
  { change 1 with (inject_Z 1). rewrite <- Zle_Qle. lia. }
  assert (Hzero : 0 <= 0 /\ 0 * T < inject_Z (Zpos k) - (1 # 2)).
  { split; lra. }
  rewrite dt_scale_value. unfold Float.mul, Float.of_Z.
  unfold Float.prec64, Float.emax64.
  destruct (SFdiv 53 1024 (S754_finite false k 0) (S754_finite false tpu 0))
    as [s0|s0| |s0 m0 e0] eqn:Hdiv; try discriminate.
  { cbn. intros [= <-]. exact Hzero. }
  apply SFdiv_value in Hdiv; [|exact Ht97]. destruct Hdiv as [-> HVX].
  destruct (SFmul 53 1024 (S754_finite false m0 e0)
              (S754_finite false 7205759403792794 (-55)))
    as [s1|s1| |s1 m1 e1] eqn:Hmul; try discriminate.
  { cbn. intros [= <-]. exact Hzero. }
  apply SFmul_value in Hmul. destruct Hmul as [-> Hx].
  intros Hq. apply to_Q_value in Hq.
  pose proof (value_nonneg (Zpos m1) e1 ltac:(lia)) as Hx0.
  pose proof (value_nonneg (Zpos m0) e0 ltac:(lia)) as HVX0.
  rewrite Hq. split; [exact Hx0|].
  assert (Hc : Float.value 7205759403792794 (-55) * (1 + 2 ^ (-52))
               <= 43 # 200).
  { apply Qle_bool_imp_le. vm_compute. reflexivity. }
  assert (Hb : 1 + 2 ^ (-50) <= 101 # 100).
  { apply Qle_bool_imp_le. vm_compute. reflexivity. }
  assert (Heps : 2 ^ (-1074) * inject_Z (10 ^ 29) <= 1 # 100).
  { apply Qle_bool_imp_le. vm_compute. reflexivity. }
  pose proof (pow2_pos (-1074)) as Heps0.
  assert (HvT : (Zpos k # tpu) * T == inject_Z (Zpos k)).
  { unfold T, Qeq. cbn [Qnum Qden Qmult inject_Z]. lia. }
  assert (Hv0 : 0 <= Zpos k # tpu) by (unfold Qle; cbn; lia).
  set (VX := Float.value (Zpos m0) e0) in *.
  set (X := Float.value (Zpos m1) e1) in *.
  set (c := Float.value 7205759403792794 (-55)) in *.
  set (a := 1 + 2 ^ (-52)) in *.
  set (b := 1 + 2 ^ (-50)) in *.
  set (eps := 2 ^ (-1074)) in *.
  set (v := Zpos k # tpu) in *.
  set (D := inject_Z (Zpos k)) in *.
  clearbody VX X c a b eps v D T.
  assert (H1 : VX * c * a <= VX * (43 # 200)).
  { rewrite <- Qmult_assoc. apply mult_le_left; [exact HVX0 | exact Hc]. }
  assert (H2 : v * b <= v * (101 # 100)).
  { apply mult_le_left; [exact Hv0 | exact Hb]. }
  assert (H3 : X <= v * (21715 # 100000) + 2 * eps) by lra.
  assert (H4 : X * T <= (v * (21715 # 100000) + 2 * eps) * T).
  { apply Qmult_le_compat_r; lra. }
  assert (H5 : eps * T <= eps * inject_Z (10 ^ 29)).
  { apply mult_le_left; lra. }
  assert (H6 : (v * (21715 # 100000) + 2 * eps) * T
               == (21715 # 100000) * (v * T) + 2 * (eps * T)) by ring.
  rewrite H6, HvT in H4. lra.
Qed.

Lemma shrunk_dt_smaller (self : Engine.Model) (d q : Z) :
  Engine.valid_precision (Engine.config self) = true ->
  (0 < d)%Z ->
  Engine.shrunk_dt self d = Some q ->
  (0 <= q < d)%Z.
Proof.
  intros Hp Hd. unfold Engine.shrunk_dt.
  pose proof (scaled_step_small self d) as Hs.
  destruct (Float.to_Q _) as [x|]; [|discriminate].
  destruct (Hs x Hp Hd eq_refl) as [H0 H1]. intros [= <-].
  unfold Engine.rounded_decimal, Decimal.rounded_decimal. split.
  - apply round_half_even_nonneg. apply Qmult_le_0_compat; [exact H0|].
    discriminate.
  - apply round_half_even_below. exact H1.
Qed.

End Shrinking.

(** ** Rollback *)

Ltac model_fields :=
  cbn [Engine.config Engine.t Engine.tn Engine.dt Engine.final_t Engine.tvec
       Engine.dtvec Engine.idx Engine.idx_nl Engine.idx_l Engine.reset_dt
       Engine._failed_to_converge Engine.failed_solves
       Engine.num_active_compartments Engine.u_u Engine.u_n Engine._ubackend
       Engine.pc
       Engine.with_config Engine.with_t Engine.with_tn Engine.with_dt
       Engine.with_tvec Engine.with_dtvec Engine.with_idx Engine.with_idx_nl
       Engine.with_idx_l Engine.with_reset_dt Engine.with_failed_to_converge
       Engine.with_failed_solves Engine.with_u_u Engine.with_u_n
       Engine.with_ubackend Engine.with_pc
       Engine.get_u Engine.set_u Engine.del_adjust_dt Engine.put_adjust_dt
       Engine.time_precision Engine.adjust_dt Engine.use_snes
       Engine.reset_timestep_for_negative_solution
       Engine.attempt_timestep_restart_on_divergence
       Py.bind] in *.

Lemma set_dt_eq (self : Engine.Model) (x : Q) :
  Engine.set_dt x self = Engine.with_dt (Engine.rounded_decimal self x) self.
Proof.
  unfold Engine.set_dt.
  rewrite model_rounded_decimal_dec.
  destruct (Z.eqb_spec (Engine.rounded_decimal self x) (Engine.dt self))
    as [->|Hne]; simpl.
  - now rewrite with_dt_same.
  - reflexivity.
Qed.

Ltac model_unfold :=
  unfold Engine.shrunk_dt, Engine.to_float, Engine.dec,
    Engine.rounded_decimal in *.





(** ** Frames of the methods *)

Lemma adjust_dt_if_prescribed_frame self s1 :
  Engine.adjust_dt_if_prescribed self = Ok s1 ->
  Engine.same_but_step self s1.
Proof.
  unfold Engine.adjust_dt_if_prescribed.
  destruct (Engine.adjust_dt (Engine.config self)) as [[|[ta0 dta0] rest]|].
  2: destruct (_ || _).
  3: destruct (_ <? _).
  4: destruct (_ && _).
  4: destruct (_ >? _).
  all: intros H; try discriminate H; injection H as <-.
  all: rewrite ?set_dt_eq; unfold Engine.same_but_step; model_fields.
  all: repeat split; reflexivity.
Qed.

Lemma adjust_dt_if_pass_tfinal_frame self :
  Engine.same_but_step self (Engine.adjust_dt_if_pass_tfinal self).
Proof.
  rewrite adjust_dt_if_pass_tfinal_spec.
  destruct (_ >? _); unfold Engine.same_but_step; model_fields;
    repeat split; reflexivity.
Qed.

Lemma update_time_dependent_parameters_frame self s1 :
  Engine.update_time_dependent_parameters self = Ok s1 ->
  exists ps, s1 = Engine.with_pc ps self.
Proof.
  unfold Engine.update_time_dependent_parameters. intros H.
  apply bind_Ok in H as (ps & _ & H). injection H as <-. now exists ps.
Qed.

(** What [begin_step] does to the model when it returns: one positive step
    on the clock and its history, nothing on the solution. *)
Lemma begin_step_stepped self s1 :
  Engine.begin_step self = Ok s1 ->
  exists d, Engine.stepped self s1 d.
Proof.
  unfold Engine.begin_step. intros H.
  apply bind_Ok in H as (s0 & Hadj & H).
  assert (Hframe : Engine.same_but_step
                     (Engine.with_idx (Engine.idx self + 1) self) s0).
  { unfold Engine.choose_dt, Engine.propose_dt in Hadj.
    destruct (negb _) in Hadj.
    - apply bind_Ok in Hadj as (sa & Ha & Hb). injection Hb as <-.
      apply adjust_dt_if_prescribed_frame in Ha.
      pose proof (adjust_dt_if_pass_tfinal_frame sa) as Hb.
      unfold Engine.same_but_step in *. model_fields.
      repeat match goal with H : _ /\ _ |- _ => destruct H end.
      repeat split; congruence.
    - injection Hadj as <-.
      unfold Engine.same_but_step; repeat split; reflexivity. }
  destruct (Z.leb_spec (Engine.dt s0) 0) as [|Hpos]; [discriminate|].
  apply update_time_dependent_parameters_frame in H as [ps ->].
  rewrite forward_time_step_spec.
  exists (Engine.dt s0).
  unfold Engine.same_but_step, Engine.stepped in *. model_fields.
  repeat match goal with H : _ /\ _ |- _ => destruct H end.
  repeat split; congruence.
Qed.

Lemma update_solution_frame ks k self s1 :
  Engine.update_solution ks k self = Ok s1 ->
  Engine.same_clock self s1 /\
  Engine.dt s1 = Engine.dt self /\
  Engine._failed_to_converge s1 = Engine._failed_to_converge self /\
  Engine.failed_solves s1 = Engine.failed_solves self.
Proof.
  revert self.
  induction ks as [|k0 ks IH]; intros self H; simpl in H.
  - injection H as <-. unfold Engine.same_clock. repeat split.
  - apply bind_Ok in H as (v & _ & H). apply IH in H.
    unfold Engine.same_clock in *.
    destruct k0; model_fields; exact H.
Qed.

Lemma clamp_negative_frame self s1 :
  Engine.clamp_negative self = Ok s1 ->
  exists u b, s1 = Engine.with_ubackend b (Engine.with_u_u u self).
Proof.
  unfold Engine.clamp_negative. intros H.
  apply bind_Ok in H as (u & _ & H). injection H as <-.
  now eexists; eexists.
Qed.

(** When a rollback returns, the clock is back on the last accepted time
    and the history has lost its last entry. *)
Lemma rollback_clock r self s1 tv dv t_prev x d :
  Engine.rollback r self = Ok s1 ->
  Engine.tvec self = tv ++ [t_prev] ++ [x] ->
  Engine.dtvec self = dv ++ [d] ->
  Engine.t s1 = t_prev /\ Engine.tvec s1 = tv ++ [t_prev] /\
  Engine.dtvec s1 = dv /\ Engine._failed_to_converge s1 = true.
Proof.
  intros H Htv Hdv. revert H.
  unfold Engine.rollback, Engine.reset_timestep.
  rewrite Htv, index_last_but_one. cbn [Py.bind].
  rewrite set_time_eq.
  cbn [Engine.dtvec Engine.with_t].
  rewrite Hdv, index_last. cbn [Py.bind].
  unfold Engine.set_dt_float.
  destruct (Float.to_Q _) as [xq|]; [|discriminate].
  cbn [Py.bind]. rewrite set_dt_eq.
  cbn [Engine.idx_nl Engine.idx_l Engine.tvec Engine.dtvec Engine.with_dt
       Engine.with_t].
  destruct (index (Engine.idx_nl self) (-1)) as [nl|]; [|discriminate].
  destruct (index (Engine.idx_l self) (-1)) as [l|]; [|discriminate].
  cbn [Py.bind].
  rewrite Htv, Hdv, (app_assoc tv [t_prev] [x]), !index_last.
  cbn [Py.bind].
  cbn [Engine.idx_nl Engine.idx_l Engine.tvec Engine.dtvec Engine.with_dt
       Engine.with_t Engine.with_failed_solves Engine.with_idx
       Engine.with_idx_nl Engine.with_idx_l Engine.with_tvec
       Engine.with_dtvec].
  destruct (pop (Engine.idx_nl self)) as [nls|]; [|discriminate].
  destruct (pop (Engine.idx_l self)) as [ls|]; [|discriminate].
  cbn [Py.bind].
  rewrite Htv, Hdv, (app_assoc tv [t_prev] [x]), !pop_last. cbn [Py.bind].
  intros H. apply bind_Ok in H as (s2 & H & Hs1). injection Hs1 as <-.
  apply update_solution_frame in H as ((Ht & Htv' & Hdv') & _ & _ & _).
  cbn [Engine.t Engine.tvec Engine.dtvec Engine._failed_to_converge
       Engine.with_failed_to_converge Engine.with_ubackend].
  rewrite Ht, Htv', Hdv'. repeat split.
Qed.

(** ** The clock along accepted steps *)

Lemma sum_Z_app (l1 l2 : list Z) :
  Engine.sum_Z (l1 ++ l2) = Engine.sum_Z l1 + Engine.sum_Z l2.
Proof.
  unfold Engine.sum_Z.
  induction l1 as [|x l1 IH]; simpl; [reflexivity|].
  rewrite IH. lia.
Qed.

(** A consistent history is strictly increasing, and its last time is its
    first time plus the sum of the steps taken since. *)
Lemma history_facts (tv dv : list Z) :
  Engine.history tv dv ->
  length tv = length dv /\
  StronglySorted Z.lt tv /\
  Forall (fun d => 0 < d) (tail dv) /\
  exists t0 t_last,
    head tv = Some t0 /\ last tv = Some t_last /\
    t_last = t0 + Engine.sum_Z (tail dv) /\
    Forall (fun x => x <= t_last) tv.
Proof.
  induction 1 as [t0 dt0 | tv dv tl d Hh IH Hlast Hd].
  - split; [reflexivity|]. split; [repeat constructor|].
    split; [constructor|].
    exists t0, t0. repeat split; simpl; try reflexivity.
    + unfold Engine.sum_Z; simpl. lia.
    + repeat constructor. lia.
  - destruct IH
      as (Hlen & Hsorted & Hpos & t0 & tl' & Hhead & Hlast' & Hsum & Hle).
    rewrite Hlast in Hlast'. injection Hlast' as <-.
    destruct tv as [|t1 tv]; [discriminate|].
    destruct dv as [|d1 dv]; [discriminate|].
    split; [rewrite !length_app; simpl in *; lia|].
    split.
    { apply StronglySorted_app_2; [|assumption|repeat constructor].
      intros x1 x2 Hx1 Hx2. apply list_elem_of_singleton in Hx2 as ->.
      rewrite Forall_forall in Hle. specialize (Hle x1 Hx1). lia. }
    split.
    { simpl in *. apply Forall_app. split; [assumption|].
      now repeat constructor. }
    exists t0, (tl + d).
    split; [exact Hhead|]. split; [apply last_snoc|].
    split.
    { simpl in *. rewrite sum_Z_app. unfold Engine.sum_Z at 2. simpl. lia. }
    apply Forall_app. split.
    + eapply Forall_impl; [exact Hle|]. simpl. intros; lia.
    + repeat constructor. lia.
Qed.

Section Clock.

Variable solver : Engine.Model -> Engine.SolverResult.

(** A retry that returns adds one step to the history the failed attempt
    started from. *)
Lemma retry_one_more_step (depth : nat) (r : Engine.SolverResult)
    (self s1 s2 s' : Engine.Model) (d : Z) :
  (forall s s', Engine.monolithic_solve solver depth s = Ok s' ->
                last (Engine.tvec s) = Some (Engine.t s) ->
                Engine.one_more_step s s') ->
  last (Engine.tvec self) = Some (Engine.t self) ->
  Engine.stepped self s1 d ->
  Engine.tvec s2 = Engine.tvec s1 ->
  Engine.dtvec s2 = Engine.dtvec s1 ->
  (let* s3 := Engine.rollback r s2 in Engine.monolithic_solve solver depth s3)
  = Ok s' ->
  Engine.one_more_step self s'.
Proof.
  intros IH Hlast Hstep Htv Hdv H.
  apply bind_Ok in H as (s3 & Hroll & H).
  apply last_Some in Hlast as [tv Hlast].
  destruct Hstep as (_ & _ & _ & _ & Htv1 & Hdv1 & _).
  rewrite Htv1, Hlast, <- app_assoc in Htv.
  rewrite Hdv1 in Hdv.
  destruct (rollback_clock _ _ _ _ _ _ _ _ Hroll Htv Hdv)
    as (Ht3 & Htv3 & Hdv3 & _).
  apply IH in H.
  - destruct H as (d' & Hd' & Ht' & Htv' & Hdv').
    exists d'. rewrite Ht3, Htv3, Hdv3 in *. rewrite Hlast.
    repeat split; assumption.
  - rewrite Htv3, Ht3. apply last_snoc.
Qed.

(** An accepted solve keeps the step [begin_step] made. *)
Lemma accept_one_more_step (self s1 s2 s' : Engine.Model) (d : Z) :
  Engine.stepped self s1 d ->
  Engine.same_clock s1 s2 ->
  Engine.update_solution [Engine.key_n] Engine.key_u s2 = Ok s' ->
  Engine.one_more_step self s'.
Proof.
  intros (Hd & _ & Ht1 & _ & Htv1 & Hdv1 & _) (Ht2 & Htv2 & Hdv2) H.
  apply update_solution_frame in H as ((Ht & Htv & Hdv) & _).
  exists d. rewrite Ht, Htv, Hdv, Ht2, Htv2, Hdv2.
  repeat split; assumption.
Qed.

(** Every returned call of [monolithic_solve], whatever the number of
    failed attempts inside it, adds exactly one positive step to the
    history. *)
Lemma monolithic_solve_one_more_step (depth : nat) (self s' : Engine.Model) :
  Engine.monolithic_solve solver depth self = Ok s' ->
  last (Engine.tvec self) = Some (Engine.t self) ->
  Engine.one_more_step self s'.
Proof.
  revert self s'.
  induction depth as [|depth IH]; intros self s' H Hlast; [discriminate|].
  cbn [Engine.monolithic_solve] in H.
  apply bind_Ok in H as (s1 & Hbegin & H).
  apply begin_step_stepped in Hbegin as [d Hstep].
  set (r := solver s1) in *.
  revert H.
  assert (Hretry : forall s2,
             Engine.tvec s2 = Engine.tvec s1 ->
             Engine.dtvec s2 = Engine.dtvec s1 ->
             (let* s3 := Engine.rollback r s2
              in Engine.monolithic_solve solver depth s3) = Ok s' ->
             Engine.one_more_step self s').
  { intros s2 Htv Hdv Hr.
    eapply retry_one_more_step; eauto. }
  assert (Hfinish : forall s2,
             Engine.same_clock s1 s2 ->
             (if negb (Engine.converged r)
              then if negb (Engine.attempt_timestep_restart_on_divergence
                              (Engine.config s2))
                   then Raise RuntimeError
                   else let* s3 := Engine.rollback r s2
                        in Engine.monolithic_solve solver depth s3
              else Engine.update_solution [Engine.key_n] Engine.key_u
                     (Engine.with_failed_to_converge false s2)) = Ok s' ->
             Engine.one_more_step self s').
  { intros s2 Hclock.
    destruct (negb (Engine.converged r)).
    - destruct (negb _); [discriminate|].
      destruct Hclock as (_ & Htv & Hdv). now apply (Hretry s2).
    - intros Hf. eapply accept_one_more_step; [exact Hstep| |exact Hf].
      destruct Hclock as (Ht & Htv & Hdv). now repeat split. }
  destruct (Engine.use_snes (Engine.config s1)).
  - destruct (Engine.reset_timestep_for_negative_solution _).
    + intros H. apply bind_Ok in H as (negVals & _ & H).
      destruct negVals.
      * now apply (Hretry (Engine.record_solve r s1)).
      * apply bind_Ok in H as (s2 & Hclamp & H).
        apply clamp_negative_frame in Hclamp as (u & b & ->).
        eapply Hfinish; [|exact H]. now repeat split.
    + apply Hfinish. now repeat split.
  - intros H. eapply accept_one_more_step; [exact Hstep| |exact H].
    now repeat split.
Qed.

(** A run of returned calls keeps the clock consistent with its history and
    adds one positive step per call. *)
Lemma run_history (depth steps : nat) (self s' : Engine.Model) :
  Engine.run solver depth steps self = Ok s' ->
  Engine.clock_consistent self ->
  Engine.clock_consistent s' /\
  exists ts ds,
    Engine.tvec s' = Engine.tvec self ++ ts /\
    Engine.dtvec s' = Engine.dtvec self ++ ds /\
    length ds = steps.
Proof.
  revert self.
  induction steps as [|steps IH]; intros self H [Hh Hlast]; simpl in H.
  - injection H as <-. split; [now split|].
    exists [], []. now rewrite !app_nil_r.
  - apply bind_Ok in H as (s1 & Hs1 & H).
    apply monolithic_solve_one_more_step in Hs1; [|assumption].
    destruct Hs1 as (d & Hd & Ht & Htv & Hdv).
    apply IH in H.
    + destruct H as (Hc & ts & ds & Hts & Hds & Hlen). split; [assumption|].
      exists ([Engine.t self + d] ++ ts), ([d] ++ ds).
      rewrite Hts, Hds, Htv, Hdv, <- !app_assoc.
      repeat split. simpl. now rewrite Hlen.
    + split.
      * rewrite Htv, Hdv. now constructor.
      * rewrite Htv, Ht. apply last_snoc.
Qed.

End Clock.

(** C6: along every run of accepted steps from the initial model, whose
    clock reads zero, the accepted times are strictly increasing, every
    accepted step size is positive, and [t] is the sum of the accepted step
    sizes; and a call that would go on with [dt <= 0] raises [ValueError]
    whatever the solver is, that is, before solving. *)
Theorem C6_monotonic_clock :
  (forall solver depth steps cfg n u0 params s0 s',
     Engine.initialize cfg n u0 params = Ok s0 ->
     Engine.run solver depth steps s0 = Ok s' ->
     Engine.history (Engine.tvec s') (Engine.dtvec s') /\
     last (Engine.tvec s') = Some (Engine.t s') /\
     StronglySorted Z.lt (Engine.tvec s') /\
     length (Engine.accepted_dts s') = steps /\
     Forall (fun d => 0 < d) (Engine.accepted_dts s') /\
     Engine.t s' = Engine.sum_Z (Engine.accepted_dts s')) /\
  (forall solver depth self s0,
     Engine.choose_dt (Engine.with_idx (Engine.idx self + 1) self) = Ok s0 ->
     Engine.dt s0 <= 0 ->
     Engine.monolithic_solve solver (S depth) self = Raise ValueError).
Proof.
  split.
  - intros solver depth steps cfg n u0 params s0 s' Hinit Hrun.
    unfold Engine.initialize in Hinit.
    destruct (Engine.valid_precision cfg); [|discriminate].
    injection Hinit as <-.
    apply run_history in Hrun.
    2:{ split; [constructor | reflexivity]. }
    destruct Hrun as ([Hh Hlast] & ts & ds & Hts & Hds & Hlen).
    pose proof (history_facts _ _ Hh)
      as (Hl & Hsorted & Hpos & t0 & tl & Hhead & Hlast' & Hsum & _).
    rewrite Hlast in Hlast'. injection Hlast' as <-.
    unfold Engine.accepted_dts.
    rewrite Hts in Hhead. rewrite Hds in *.
    cbn [Engine.initial_model Engine.tvec Engine.dtvec app head tail] in *.
    injection Hhead as <-.
    repeat split; assumption.
  - intros solver depth self s0 Hchoose Hdt.
    cbn [Engine.monolithic_solve]. unfold Engine.begin_step.
    rewrite Hchoose. cbn [Py.bind].
    destruct (Z.leb_spec (Engine.dt s0) 0); [reflexivity | lia].
Qed.

Lemma C6_monotonic_clock_witness :
  Engine.run Engine.positive_solver 3 3 Engine.initial_example
  = Ok Engine.after_three_steps /\
  Engine.accepted_dts Engine.after_three_steps = [100000; 100000; 100000] /\
  Engine.t Engine.after_three_steps
  = Engine.sum_Z (Engine.accepted_dts Engine.after_three_steps) /\
  Engine.monolithic_solve Engine.positive_solver 1
    (Engine.with_dt 0 Engine.running_example)
  = Raise ValueError.
Proof.
  assert (Hrun : Engine.run Engine.positive_solver 3 3 Engine.initial_example
                 = Ok Engine.after_three_steps)
    by (vm_compute; reflexivity).
  split; [exact Hrun|].
  split; [vm_compute; reflexivity|].
  split.
  - exact (proj2 (proj2 (proj2 (proj2 (proj2
             (proj1 C6_monotonic_clock Engine.positive_solver 3%nat 3%nat
                (Engine.example_config (Float.literal 2) None) 1%nat
                Engine.two_unknowns [] Engine.initial_example
                Engine.after_three_steps eq_refl Hrun)))))).
  - apply (proj2 C6_monotonic_clock Engine.positive_solver 0%nat
             (Engine.with_dt 0 Engine.running_example)
             (Engine.with_idx 1 (Engine.with_dt 0 Engine.running_example))).
    + vm_compute. reflexivity.
    + vm_compute. discriminate.
Defined.

(** ** The negative-solution policy *)


Lemma record_solve_config (r : Engine.SolverResult) (self : Engine.Model) :
  Engine.config (Engine.record_solve r self) = Engine.config self.
Proof. reflexivity. Qed.



(** ** Time-dependent parameters *)

(** The closing block of the loop refuses a NaN. *)
Lemma assign_new_value_nan (tf v : Float.float) (p : Engine.parameter) :
  Float.isnan v = true ->
  Engine.assign_new_value tf v p = Raise AssertionError.
Proof.
  intros Hnan. unfold Engine.assign_new_value. now rewrite Hnan.
Qed.

(** Whatever it stores is not a NaN. *)
Lemma assign_new_value_stores (tf v : Float.float) (p p' : Engine.parameter) :
  Engine.assign_new_value tf v p = Ok p' ->
  Float.isnan v = false /\ Engine.value p' = v /\
  Engine.dolfin_constant p' = v /\
  Engine.value_vector p' = Engine.value_vector p ++ [(tf, v)].
Proof.
  unfold Engine.assign_new_value.
  destruct (Float.isnan v); [discriminate|].
  intros [= <-]. repeat split.
Qed.

(** The pre-integrated paths of a scalar parameter and the tabulated path
    all end in that block: a NaN makes the update raise. *)
Lemma update_parameter_checked_paths (self : Engine.Model)
    (p p' : Engine.parameter) :
  Engine.is_time_dependent p = true ->
  Engine.is_space_dependent p = false ->
  Engine.type p = Engine.from_file
  \/ (Engine.type p = Engine.expression /\ Engine.use_preintegration p = true) ->
  Engine.update_parameter self p = Ok p' ->
  Float.isnan (Engine.value p') = false.
Proof.
  intros Htd Hsd Hkind. unfold Engine.update_parameter. rewrite Htd.
  cbn [negb].
  destruct Hkind as [Hty | [Hty Hpre]]; rewrite Hty.
  - destruct (Engine.use_preintegration p); cbn [negb].
    + intros H.
      apply bind_Ok in H as (a & _ & H). apply bind_Ok in H as (b & _ & H).
      apply assign_new_value_stores in H as (Hnan & -> & _). exact Hnan.
    + intros H.
      apply bind_Ok in H as (t0 & _ & H). apply bind_Ok in H as (t1 & _ & H).
      destruct (_ || _); [discriminate|].
      apply bind_Ok in H as (v & _ & H).
      apply assign_new_value_stores in H as (Hnan & -> & _). exact Hnan.
  - rewrite Hpre. cbn [negb]. intros H.
    apply bind_Ok in H as ([[a b] p0] & Hab & H).
    assert (Hsd0 : Engine.is_space_dependent p0 = false).
    { destruct (Engine.preint_sym_expr p).
      - injection Hab as _ _ <-. exact Hsd.
      - apply bind_Ok in Hab as (a0 & _ & Hab). injection Hab as _ _ <-.
        exact Hsd. }
    rewrite Hsd0 in H.
    apply assign_new_value_stores in H as (Hnan & -> & _). exact Hnan.
Qed.

(** The direct expression path stores whatever the expression evaluates
    to, and returns. *)
Lemma update_parameter_direct_expression (self : Engine.Model)
    (p : Engine.parameter) :
  Engine.type p = Engine.expression ->
  Engine.is_time_dependent p = true ->
  Engine.use_preintegration p = false ->
  exists p',
    Engine.update_parameter self p = Ok p' /\
    Engine.value p'
    = Engine.sym_expr p (Engine.to_float self (Engine.t self)) /\
    Engine.value_vector p'
    = Engine.value_vector p
      ++ [(Engine.to_float self (Engine.t self),
           Engine.sym_expr p (Engine.to_float self (Engine.t self)))].
Proof.
  intros Hty Htd Hpre. unfold Engine.update_parameter.
  rewrite Hty, Htd, Hpre. cbn [negb].
  eexists. split; [reflexivity|]. split; reflexivity.
Qed.

(** C5 (a sibling path does what this one misses): for a parameter given
    by an expression and evaluated directly, the update stores the value of
    the expression, NaN included, and returns normally; for the same NaN
    the pre-integrated expression and the pre-integrated table raise
    [AssertionError]. *)
Theorem C5_direct_expression_stores_nan :
  (exists s' p',
     Engine.update_time_dependent_parameters
       (Engine.stepped_with Engine.nan_expression) = Ok s' /\
     Engine.pc s' = [p'] /\
     Float.isnan (Engine.value p') = true /\
     Engine.value_vector p' = [(Float.of_Q (6 # 10), S754_nan)]) /\
  Engine.update_time_dependent_parameters
    (Engine.stepped_with Engine.nan_antiderivative) = Raise AssertionError /\
  Engine.update_time_dependent_parameters
    (Engine.stepped_with Engine.nan_table) = Raise AssertionError.
Proof.
  split.
  - eexists. eexists. split; [vm_compute; reflexivity|].
    repeat split; vm_compute; reflexivity.
  - split; vm_compute; reflexivity.
Qed.

(** ** Field-valued parameters *)

Lemma index_of_last {A : Type} (l : list A) (x : A) :
  last l = Some x -> Py.index l (-1) = Ok x.
Proof.
  intros H. apply last_Some in H as [l' ->]. apply index_last.
Qed.

Lemma index_of_head {A : Type} (l : list A) (x : A) :
  head l = Some x -> Py.index l 0 = Ok x.
Proof.
  destruct l as [|y l]; [discriminate|]. intros [= ->].
  apply (index_app_middle [] l x).
Qed.

Lemma read_dataset_lookup (h5 : list Engine.vector) (i : nat)
    (v : Engine.vector) :
  h5 !! i = Some v -> Engine.read_dataset h5 i = Ok v.
Proof.
  intros H. unfold Engine.read_dataset. now rewrite H.
Qed.

Lemma read_last_dataset (h5 : list Engine.vector) (tVec : list Float.float)
    (x : Float.float) :
  length h5 = length tVec ->
  last tVec = Some x ->
  exists v, last h5 = Some v /\
            Engine.read_dataset h5 (length tVec - 1) = Ok v.
Proof.
  intros Hlen Hlast. apply last_Some in Hlast as [l ->].
  rewrite length_app in *. simpl in *.
  destruct (last h5) as [v|] eqn:Hv.
  - exists v. split; [reflexivity|].
    apply last_Some in Hv as [h' ->].
    rewrite length_app in Hlen. simpl in Hlen.
    unfold Engine.read_dataset.
    replace (length l + 1 - 1)%nat with (length h') by lia.
    now rewrite list_lookup_middle.
  - apply last_None in Hv. subst h5. simpl in Hlen. lia.
Qed.

Lemma read_first_dataset (h5 : list Engine.vector) (tVec : list Float.float)
    (x : Float.float) :
  length h5 = length tVec ->
  head tVec = Some x ->
  exists v, head h5 = Some v /\ Engine.read_dataset h5 0 = Ok v.
Proof.
  intros Hlen Hhead.
  destruct tVec as [|y tVec]; [discriminate|].
  destruct h5 as [|v h5]; [discriminate|].
  exists v. split; reflexivity.
Qed.

(** C10 (as stated, it fails): with samples at [1.0] and [1.000001] the
    time [1.000002] lies after the last sample, yet the loader returns the
    first stored vector and logs nothing; with samples at [100.0] and
    [200.0] the time [100.0005] lies strictly between them, yet the loader
    returns the first stored vector and not the mean. Both times are close
    to the first sample in the sense of [np.isclose]. *)
Lemma C10_counterexample :
  (Engine.decimal_gt_float
     (Engine.dec (Engine.model_at (Float.literal (1000002 # 1000000)))
        (Engine.t (Engine.model_at (Float.literal (1000002 # 1000000)))))
     (Float.of_Q (1000001 # 1000000)) = Ok true /\
   Engine.load_vector (Engine.model_at (Float.literal (1000002 # 1000000)))
     Engine.vectors_0_4 Engine.samples_close
   = Ok ([Float.zero], []) /\
   last Engine.vectors_0_4 = Some [Float.of_Q 4]) /\
  (Engine.earlier_samples (Engine.model_at (Float.literal (1000005 # 10000)))
     Engine.samples_100_200 = [0%nat] /\
   Engine.later_samples (Engine.model_at (Float.literal (1000005 # 10000)))
     Engine.samples_100_200 = [1%nat] /\
   Engine.load_vector (Engine.model_at (Float.literal (1000005 # 10000)))
     Engine.vectors_0_4 Engine.samples_100_200
   = Ok ([Float.zero], []) /\
   Engine.mean [Float.zero] [Float.of_Q 4] = [Float.of_Q 2]).
Proof.
  split; repeat split; vm_compute; reflexivity.
Qed.

(** C10 (amended): let the file hold one vector per sample, and let the
    first and the last sample time not be NaN. If some sample time is close
    to the clock in the sense of [np.isclose], the vector of the first such
    sample is returned. If none is: a clock after the last sample gets the
    last stored vector and a clock before the first sample gets the first
    stored vector, each with one warning and no error; otherwise, when the
    clock has an earlier and a later sample, the result is the unweighted
    mean of the vector of the last earlier sample and the vector of the
    first later sample, so that at [t = 0.25] between the samples [0.0] of
    value [0.0] and [1.0] of value [4.0] the value is [2.0], not the
    time-weighted [1.0]. *)
Theorem C10_load_vector (self : Engine.Model) (h5 : list Engine.vector)
    (tVec : list Float.float) (t_first t_last : Float.float) :
  length h5 = length tVec ->
  head tVec = Some t_first ->
  last tVec = Some t_last ->
  Float.isnan t_first = false ->
  Float.isnan t_last = false ->
  (forall idx rest v,
     Engine.close_samples self tVec = idx :: rest ->
     h5 !! idx = Some v ->
     Engine.load_vector self h5 tVec = Ok (v, [])) /\
  (Engine.close_samples self tVec = [] ->
   exists after before,
     Engine.decimal_gt_float (Engine.dec self (Engine.t self)) t_last
     = Ok after /\
     Engine.decimal_lt_float (Engine.dec self (Engine.t self)) t_first
     = Ok before /\
     (after = true ->
      exists v, last h5 = Some v /\
        Engine.load_vector self h5 tVec
        = Ok (v, [Engine.file_ends_before_current_time])) /\
     (after = false -> before = true ->
      exists v, head h5 = Some v /\
        Engine.load_vector self h5 tVec
        = Ok (v, [Engine.file_starts_after_current_time])) /\
     (after = false -> before = false ->
      forall idx1 idx2 vec1 vec2,
        last (Engine.earlier_samples self tVec) = Some idx1 ->
        head (Engine.later_samples self tVec) = Some idx2 ->
        h5 !! idx1 = Some vec1 ->
        h5 !! idx2 = Some vec2 ->
        length vec1 = length vec2 ->
        Engine.load_vector self h5 tVec
        = Ok (Engine.mean vec1 vec2, []))) /\
  (Engine.close_samples (Engine.model_at (Float.literal (25 # 100)))
     Engine.samples_0_1 = [] /\
   Engine.load_vector (Engine.model_at (Float.literal (25 # 100)))
     Engine.vectors_0_4 Engine.samples_0_1
   = Ok ([Float.of_Q 2], []) /\
   Float.eqb (Float.of_Q 2) (Float.of_Q 1) = false).
Proof.
  intros Hlen Hhead Hlast Hnan1 Hnan2.
  split; [|split].
  - intros idx rest v Hclose Hv.
    unfold Engine.load_vector. unfold Engine.close_samples in Hclose.
    rewrite Hclose. now rewrite (read_dataset_lookup _ _ _ Hv).
  - intros Hclose.
    assert (Hafter : exists after,
               Engine.decimal_gt_float (Engine.dec self (Engine.t self)) t_last
               = Ok after).
    { unfold Engine.decimal_gt_float.
      destruct t_last; try discriminate; simpl; eauto. }
    assert (Hbefore : exists before,
               Engine.decimal_lt_float (Engine.dec self (Engine.t self)) t_first
               = Ok before).
    { unfold Engine.decimal_lt_float.
      destruct t_first; try discriminate; simpl; eauto. }
    destruct Hafter as [after Hafter]. destruct Hbefore as [before Hbefore].
    exists after, before. split; [exact Hafter|]. split; [exact Hbefore|].
    unfold Engine.load_vector. unfold Engine.close_samples in Hclose.
    rewrite Hclose, (index_of_last _ _ Hlast). cbn [Py.bind].
    rewrite Hafter. cbn [Py.bind].
    split; [|split].
    + intros ->.
      destruct (read_last_dataset h5 tVec t_last Hlen Hlast) as (v & Hv & Hr).
      exists v. split; [exact Hv|]. now rewrite Hr.
    + intros -> ->.
      rewrite (index_of_head _ _ Hhead). cbn [Py.bind].
      rewrite Hbefore. cbn [Py.bind].
      destruct (read_first_dataset h5 tVec t_first Hlen Hhead)
        as (v & Hv & Hr).
      exists v. split; [exact Hv|]. now rewrite Hr.
    + intros -> -> idx1 idx2 vec1 vec2 H1 H2 Hv1 Hv2 Hsame.
      rewrite (index_of_head _ _ Hhead). cbn [Py.bind].
      rewrite Hbefore. cbn [Py.bind].
      unfold Engine.earlier_samples in H1. unfold Engine.later_samples in H2.
      rewrite (index_of_last _ _ H1), (index_of_head _ _ H2). cbn [Py.bind].
      rewrite (read_dataset_lookup _ _ _ Hv1), (read_dataset_lookup _ _ _ Hv2).
      cbn [Py.bind]. unfold Engine.average.
      destruct (decide (length vec1 = length vec2)); [reflexivity|].
      contradiction.
  - repeat split; vm_compute; reflexivity.
Qed.

Lemma C10_load_vector_witness :
  Engine.load_vector (Engine.model_at (Float.literal 250))
    Engine.vectors_0_4 Engine.samples_100_200
  = Ok ([Float.of_Q 4], [Engine.file_ends_before_current_time]) /\
  Engine.load_vector (Engine.model_at (Float.literal 150))
    Engine.vectors_0_4 Engine.samples_100_200
  = Ok (Engine.mean [Float.zero] [Float.of_Q 4], []).
Proof.
  pose proof (C10_load_vector (Engine.model_at (Float.literal 250))
                Engine.vectors_0_4 Engine.samples_100_200
                (Float.of_Q 100) (Float.of_Q 200)
                eq_refl eq_refl eq_refl eq_refl eq_refl) as [_ [Hout _]].
  pose proof (C10_load_vector (Engine.model_at (Float.literal 150))
                Engine.vectors_0_4 Engine.samples_100_200
                (Float.of_Q 100) (Float.of_Q 200)
                eq_refl eq_refl eq_refl eq_refl eq_refl) as [_ [Hin _]].
  split.
  - destruct (Hout ltac:(vm_compute; reflexivity))
      as (after & before & Ha & _ & Hlast & _).
    assert (Hafter : after = true).
    { assert (Hc : Engine.decimal_gt_float
                (Engine.dec (Engine.model_at (Float.literal 250))
                   (Engine.t (Engine.model_at (Float.literal 250))))
                (Float.of_Q 200) = Ok true) by (vm_compute; reflexivity).
      rewrite Hc in Ha. now injection Ha. }
    destruct (Hlast Hafter) as (v & Hv & Hload).
    rewrite Hload.
    assert (Hv4 : last Engine.vectors_0_4 = Some [Float.of_Q 4])
      by (vm_compute; reflexivity).
    rewrite Hv4 in Hv. now injection Hv as <-.
  - destruct (Hin ltac:(vm_compute; reflexivity))
      as (after & before & Ha & Hb & _ & _ & Hmid).
    assert (Hafter : after = false).
    { assert (Hc : Engine.decimal_gt_float
                (Engine.dec (Engine.model_at (Float.literal 150))
                   (Engine.t (Engine.model_at (Float.literal 150))))
                (Float.of_Q 200) = Ok false) by (vm_compute; reflexivity).
      rewrite Hc in Ha. now injection Ha. }
    assert (Hbefore : before = false).
    { assert (Hc : Engine.decimal_lt_float
                (Engine.dec (Engine.model_at (Float.literal 150))
                   (Engine.t (Engine.model_at (Float.literal 150))))
                (Float.of_Q 100) = Ok false) by (vm_compute; reflexivity).
      rewrite Hc in Hb. now injection Hb. }
    apply (Hmid Hafter Hbefore 0%nat 1%nat [Float.zero] [Float.of_Q 4]).
    + vm_compute. reflexivity.
    + vm_compute. reflexivity.
    + reflexivity.
    + reflexivity.
    + reflexivity.
Defined.
(** * Further properties *)

(** ** Step 1 of the initialization: dimensions, names and markers *)

Lemma fold_left_max_spec (rest : list Z) (x : Z) :
  (fold_left Z.max rest x = x \/ In (fold_left Z.max rest x) rest) /\
  x <= fold_left Z.max rest x /\
  Forall (fun y => y <= fold_left Z.max rest x) rest.
Proof.
  revert x. induction rest as [|y rest IH]; intros x; simpl.
  - repeat split; [now left | lia | constructor].
  - destruct (IH (Z.max x y)) as (Hin & Hle & Hall).
    split; [|split].
    + destruct Hin as [Heq|Hin]; [|now right; right].
      rewrite Heq. destruct (Z.max_spec x y) as [[_ ->]|[_ ->]];
        [right; now left | now left].
    + lia.
    + constructor; [lia | exact Hall].
Qed.

Lemma fold_left_min_spec (rest : list Z) (x : Z) :
  (fold_left Z.min rest x = x \/ In (fold_left Z.min rest x) rest) /\
  fold_left Z.min rest x <= x /\
  Forall (fun y => fold_left Z.min rest x <= y) rest.
Proof.
  revert x. induction rest as [|y rest IH]; intros x; simpl.
  - repeat split; [now left | lia | constructor].
  - destruct (IH (Z.min x y)) as (Hin & Hle & Hall).
    split; [|split].
    + destruct Hin as [Heq|Hin]; [|now right; right].
      rewrite Heq. destruct (Z.min_spec x y) as [[_ ->]|[_ ->]];
        [now left | right; now left].
    + lia.
    + constructor; [lia | exact Hall].
Qed.

Lemma py_max_spec (l : list Z) (m : Z) :
  Checks.py_max l = Ok m -> In m l /\ Forall (fun y => y <= m) l.
Proof.
  destruct l as [|x rest]; [discriminate|]. intros [= <-].
  destruct (fold_left_max_spec rest x) as (Hin & Hle & Hall).
  split; [destruct Hin as [->|Hin]; [now left | now right]|].
  constructor; assumption.
Qed.

Lemma py_min_spec (l : list Z) (m : Z) :
  Checks.py_min l = Ok m -> In m l /\ Forall (fun y => m <= y) l.
Proof.
  destruct l as [|x rest]; [discriminate|]. intros [= <-].
  destruct (fold_left_min_spec rest x) as (Hin & Hle & Hall).
  split; [destruct Hin as [->|Hin]; [now left | now right]|].
  constructor; assumption.
Qed.

(** X1: [_init_1_1_check_mesh_dimensionality] raises [ValueError] on a
    model without compartments; when it returns, the highest compartment
    dimension does not exceed the parent mesh's, every compartment has that
    dimension and is flagged a volume or has one less and is flagged a
    surface, at least one compartment is a volume, names and dimensions are
    untouched, and a warning is logged exactly when the highest dimension
    differs from the parent mesh's. *)
Theorem X1_mesh_dimensionality_check (parent_dim : Z)
    (cc cc' : list Checks.Compartment) (log : list Checks.warning) :
  Checks._init_1_1_check_mesh_dimensionality parent_dim [] = Raise ValueError /\
  (Checks._init_1_1_check_mesh_dimensionality parent_dim cc = Ok (cc', log) ->
   exists hi,
     Checks.max_dim cc = Ok hi /\ hi <= parent_dim /\
     map Checks.name cc' = map Checks.name cc /\
     map Checks.dimensionality cc' = map Checks.dimensionality cc /\
     map Checks.cell_marker cc' = map Checks.cell_marker cc /\
     Forall (fun c =>
               (Checks.dimensionality c = hi /\
                Checks.is_volume c = Some true) \/
               (Checks.dimensionality c = hi - 1 /\
                Checks.is_volume c = Some false)) cc' /\
     Exists (fun c => Checks.is_volume c = Some true) cc' /\
     (log = [] <-> hi = parent_dim)).
Proof.
  split; [reflexivity|].
  unfold Checks._init_1_1_check_mesh_dimensionality, Checks.max_dim,
    Checks.min_dim.
  destruct (Checks.py_max (map Checks.dimensionality cc)) as [hi|e] eqn:Hmax;
    [|discriminate].
  destruct (Checks.py_min (map Checks.dimensionality cc)) as [lo|e] eqn:Hmin;
    [|discriminate].
  cbn [Py.bind].
  destruct (py_max_spec _ _ Hmax) as [Hhi_in Hhi].
  destruct (py_min_spec _ _ Hmin) as [Hlo_in Hlo].
  destruct ((hi - lo =? 0) || (hi - lo =? 1)) eqn:Hspan; [|discriminate].
  cbn [negb].
  destruct (parent_dim <? hi) eqn:Hparent; [discriminate|].
  intros [= <- <-].
  apply Z.ltb_ge in Hparent.
  assert (Hspan' : hi - lo = 0 \/ hi - lo = 1).
  { apply orb_true_iff in Hspan as [H|H]; apply Z.eqb_eq in H; lia. }
  exists hi. split; [reflexivity|]. split; [exact Hparent|].
  rewrite !map_map. cbn [Checks.set_is_volume Checks.name
    Checks.dimensionality Checks.cell_marker].
  split; [reflexivity|]. split; [reflexivity|]. split; [reflexivity|].
  split; [|split].
  - apply Forall_forall. intros c Hc.
    apply list_elem_of_In, in_map_iff in Hc as (c0 & <- & Hc0).
    cbn [Checks.set_is_volume Checks.dimensionality Checks.is_volume].
    assert (Hd : In (Checks.dimensionality c0) (map Checks.dimensionality cc))
      by (apply in_map; exact Hc0).
    rewrite List.Forall_forall in Hhi, Hlo.
    specialize (Hhi _ Hd). specialize (Hlo _ Hd).
    destruct (Z.eqb_spec (Checks.dimensionality c0) hi) as [Heq|Hne].
    + left. split; [exact Heq | reflexivity].
    + right. split; [lia | reflexivity].
  - apply in_map_iff in Hhi_in as (c0 & Hd & Hc0).
    apply Exists_exists.
    exists (Checks.set_is_volume (Checks.dimensionality c0 =? hi) c0).
    split.
    + apply list_elem_of_In, in_map_iff. exists c0. split; [reflexivity|].
      exact Hc0.
    + cbn [Checks.set_is_volume Checks.is_volume].
      rewrite Hd, Z.eqb_refl. reflexivity.
  - destruct (Z.eqb_spec hi parent_dim) as [Heq|Hne]; cbn [negb].
    + split; [intros _; exact Heq | reflexivity].
    + split; [discriminate | intros H; contradiction].
Qed.

Lemma X1_mesh_dimensionality_check_witness :
  exists hi,
    Checks.max_dim [Checks.cyto; Checks.pm] = Ok hi /\ hi <= 3.
Proof.
  destruct (proj2 (X1_mesh_dimensionality_check 3 [Checks.cyto; Checks.pm]
                     [Checks.set_is_volume true Checks.cyto;
                      Checks.set_is_volume false Checks.pm] [])
              ltac:(vm_compute; reflexivity))
    as (hi & Hmax & Hle & _).
  exists hi. split; assumption.
Defined.

Lemma size_list_to_set_le (l : list string) :
  (size (list_to_set l : gset string) <= length l)%nat.
Proof.
  induction l as [|x l IH]; [now rewrite list_to_set_nil, size_empty|].
  rewrite list_to_set_cons, size_union_alt, size_singleton. simpl.
  pose proof (subseteq_size (list_to_set l ∖ {[x]}) (list_to_set l : gset string)
                ltac:(set_solver)).
  lia.
Qed.

Lemma size_list_to_set_NoDup (l : list string) :
  size (list_to_set l : gset string) = length l <-> NoDup l.
Proof.
  split; [|apply size_list_to_set].
  induction l as [|x l IH]; [constructor|].
  intros Hsize. destruct (decide (x ∈ l)) as [Hin|Hnin].
  - exfalso.
    assert (Heq : (list_to_set (x :: l) : gset string) = list_to_set l)
      by set_solver.
    rewrite Heq in Hsize. pose proof (size_list_to_set_le l). simpl in Hsize.
    lia.
  - constructor; [exact Hnin|]. apply IH.
    rewrite list_to_set_cons, size_union, size_singleton in Hsize
      by set_solver.
    simpl in Hsize. lia.
Qed.

Lemma all_keys_of_fold (containers : list (list string)) (acc : gset string) :
  fold_left (fun acc keys => acc ∪ list_to_set keys) containers acc
  = acc ∪ list_to_set (concat containers).
Proof.
  revert acc. induction containers as [|c cs IH]; intros acc; simpl.
  - set_solver.
  - rewrite IH, list_to_set_app_L. set_solver.
Qed.

Lemma all_keys_of_concat (containers : list (list string)) :
  Checks.all_keys_of containers = list_to_set (concat containers).
Proof. unfold Checks.all_keys_of. rewrite all_keys_of_fold. set_solver. Qed.

Lemma sum_list_lengths (containers : list (list string)) :
  sum_list (map length containers) = length (concat containers).
Proof.
  induction containers as [|c cs IH]; [reflexivity|].
  simpl. rewrite length_app, IH. reflexivity.
Qed.

Lemma check_names_spec (containers : list (list string)) (K : gset string) :
  Checks.check_names containers = Ok K <->
  NoDup (concat containers) /\
  (forall x, x ∈ concat containers -> x ∉ Checks.protected_names) /\
  K = list_to_set (concat containers).
Proof.
  unfold Checks.check_names.
  rewrite all_keys_of_concat, sum_list_lengths.
  destruct (decide (length (concat containers)
                    <> size (list_to_set (concat containers) : gset string)))
    as [Hne|Heq].
  - split; [discriminate|]. intros (Hnd & _ & _).
    apply size_list_to_set_NoDup in Hnd. congruence.
  - assert (Hnd : NoDup (concat containers)).
    { apply size_list_to_set_NoDup. lia. }
    destruct (bool_decide_reflect
                (Checks.protected_names ## list_to_set (concat containers)))
      as [Hdisj|Hndisj]; cbn [negb].
    + split.
      * intros [= <-]. split; [exact Hnd|]. split; [|reflexivity].
        intros x Hx Hp. apply (Hdisj x Hp). set_solver.
      * intros (_ & _ & ->). reflexivity.
    + split; [discriminate|]. intros (_ & Hprot & _). exfalso.
      apply Hndisj. intros x Hp Hx. apply (Hprot x); [set_solver | exact Hp].
Qed.

Lemma add_markers_spec (ms : list Z) (S S' : gset Z) :
  Checks.add_markers ms S = Ok S' <->
  NoDup ms /\ (forall m, m ∈ ms -> m ∉ S /\ m <> 0) /\
  S' = S ∪ list_to_set ms.
Proof.
  revert S. induction ms as [|m rest IH]; intros S; simpl.
  - split.
    + intros [= <-]. split; [constructor|]. split; [|set_solver].
      intros m Hm. inversion Hm.
    + intros (_ & _ & ->). f_equal. set_solver.
  - destruct (bool_decide_reflect (m ∈ S)) as [Hin|Hnin].
    { split; [discriminate|]. intros (_ & Hall & _).
      destruct (Hall m ltac:(left)) as [Hn _]. contradiction. }
    destruct (Z.eqb_spec m 0) as [H0|H0].
    { split; [discriminate|]. intros (_ & Hall & _).
      destruct (Hall m ltac:(left)) as [_ Hn]. contradiction. }
    rewrite IH. split.
    + intros (Hnd & Hall & ->). split; [|split].
      * constructor; [|exact Hnd]. intros Hm.
        destruct (Hall m Hm) as [Hn _]. set_solver.
      * intros x Hx. apply elem_of_cons in Hx as [->|Hx]; [now split|].
        destruct (Hall x Hx) as [Hn Hz]. split; [set_solver | exact Hz].
      * set_solver.
    + intros (Hnd & Hall & ->). apply NoDup_cons in Hnd as [Hm Hnd].
      split; [exact Hnd|]. split; [|set_solver].
      intros x Hx. destruct (Hall x ltac:(now right)) as [Hn Hz].
      split; [|exact Hz]. set_solver.
Qed.

Lemma check_markers_spec (cc : list Checks.Compartment) (S S' : gset Z) :
  Checks.check_markers cc S = Ok S' <->
  NoDup (Checks.all_markers cc) /\
  (forall m, m ∈ Checks.all_markers cc -> m ∉ S /\ m <> 0) /\
  S' = S ∪ list_to_set (Checks.all_markers cc).
Proof.
  revert S. induction cc as [|c rest IH]; intros S.
  - cbn. split.
    + intros [= <-]. split; [constructor|]. split; [|set_solver].
      intros m Hm. inversion Hm.
    + intros (_ & _ & ->). f_equal. set_solver.
  - cbn [Checks.check_markers]. unfold Checks.all_markers in *.
    cbn [map concat]. fold (Checks.all_markers rest) in *.
    set (ms := Checks.marker_list (Checks.cell_marker c)).
    destruct (Checks.add_markers ms S) as [S1|e] eqn:Hadd; cbn [Py.bind].
    + apply add_markers_spec in Hadd as (Hnd1 & Hall1 & ->).
      rewrite IH. split.
      * intros (Hnd2 & Hall2 & ->). split; [|split].
        -- apply NoDup_app. split; [exact Hnd1|]. split; [|exact Hnd2].
           intros x Hx1 Hx2. destruct (Hall2 x Hx2) as [Hn _]. set_solver.
        -- intros x Hx. apply elem_of_app in Hx as [Hx|Hx].
           ++ apply Hall1, Hx.
           ++ destruct (Hall2 x Hx) as [Hn Hz]. split; [set_solver|exact Hz].
        -- rewrite list_to_set_app_L. set_solver.
      * intros (Hnd & Hall & ->). apply NoDup_app in Hnd as (_ & Hdisj & Hnd2).
        split; [exact Hnd2|]. split.
        -- intros x Hx. destruct (Hall x ltac:(set_solver)) as [Hn Hz].
           split; [|exact Hz]. intros Hu. apply elem_of_union in Hu as [Hu|Hu];
             [contradiction|]. apply elem_of_list_to_set in Hu.
           exact (Hdisj x Hu Hx).
        -- rewrite list_to_set_app_L. set_solver.
    + split; [discriminate|]. intros (Hnd & Hall & _). exfalso.
      assert (Hok : exists S1, Checks.add_markers ms S = Ok S1).
      { eexists. apply add_markers_spec. apply NoDup_app in Hnd as (Hnd1 & _).
        split; [exact Hnd1|]. split; [|reflexivity].
        intros x Hx. apply Hall. set_solver. }
      destruct Hok as [S1 Hok]. congruence.
Qed.

Lemma namespace_check_spec (pc sc rc : list string)
    (cc : list Checks.Compartment) (K : gset string) (M : gset Z) :
  Checks._init_1_2_check_namespace_conflicts pc sc cc rc = Ok (K, M) <->
  NoDup (pc ++ sc ++ map Checks.name cc ++ rc) /\
  (forall x, x ∈ pc ++ sc ++ map Checks.name cc ++ rc ->
             x ∉ Checks.protected_names) /\
  NoDup (Checks.all_markers cc) /\
  (forall m, m ∈ Checks.all_markers cc -> m <> 0) /\
  K = list_to_set (pc ++ sc ++ map Checks.name cc ++ rc) /\
  M = list_to_set (Checks.all_markers cc).
Proof.
  unfold Checks._init_1_2_check_namespace_conflicts.
  pose proof (check_names_spec [pc; sc; map Checks.name cc; rc]) as Hnames.
  cbn [concat] in Hnames. rewrite app_nil_r in Hnames.
  pose proof (check_markers_spec cc ∅) as Hmarkers.
  destruct (Checks.check_names _) as [K0|e]; cbn [Py.bind].
  - destruct (proj1 (Hnames K0) eq_refl) as (Hnd & Hprot & ->).
    destruct (Checks.check_markers cc ∅) as [M0|e]; cbn [Py.bind].
    + destruct (proj1 (Hmarkers M0) eq_refl) as (HndM & HallM & ->).
      split.
      * intros [= <- <-]. repeat split; try assumption.
        -- intros m Hm. apply (HallM m Hm).
        -- set_solver.
      * intros (_ & _ & _ & _ & -> & ->). do 2 f_equal. set_solver.
    + split; [discriminate|]. intros (_ & _ & HndM & HallM & _ & _).
      exfalso.
      assert (Hok : @Raise (gset Z) e
                    = Ok (∅ ∪ list_to_set (Checks.all_markers cc))).
      { apply Hmarkers. split; [exact HndM|]. split; [|reflexivity].
        intros m Hm. split; [set_solver | exact (HallM m Hm)]. }
      discriminate.
  - split; [discriminate|]. intros (Hnd & Hprot & _). exfalso.
    assert (Hok : @Raise (gset string) e
                  = Ok (list_to_set (pc ++ sc ++ map Checks.name cc ++ rc))).
    { apply Hnames. repeat split; assumption. }
    discriminate.
Qed.


(** X2: [_init_1_2_check_namespace_conflicts] returns normally exactly when
    the names of all parameters, species, compartments and reactions are
    pairwise distinct, none of them is one of the protected names, the cell
    markers of all compartments (the members of marker lists included) are
    pairwise distinct, and no marker is [0]; it then leaves the set of all
    names and the set of all markers behind. *)
Theorem X2_namespace_check (pc sc rc : list string)
    (cc : list Checks.Compartment) (K : gset string) (M : gset Z) :
  Checks._init_1_2_check_namespace_conflicts pc sc cc rc = Ok (K, M) <->
  NoDup (pc ++ sc ++ map Checks.name cc ++ rc) /\
  (forall x, x ∈ pc ++ sc ++ map Checks.name cc ++ rc ->
             x ∉ Checks.protected_names) /\
  NoDup (Checks.all_markers cc) /\
  (forall m, m ∈ Checks.all_markers cc -> m <> 0) /\
  K = list_to_set (pc ++ sc ++ map Checks.name cc ++ rc) /\
  M = list_to_set (Checks.all_markers cc).
Proof. apply namespace_check_spec. Qed.

(** X3: once [_init_1_2_check_namespace_conflicts] has returned,
    [_init_1_3_check_parameter_dimensionality] returns normally whatever the
    highest dimension is: its two tests look for the names [x[2]] and
    [x[1]], which the check before it has rejected as protected. *)
Theorem X3_parameter_dimensionality_never_raises (pc sc rc : list string)
    (cc : list Checks.Compartment) (K : gset string) (M : gset Z)
    (max_dim : Z) :
  Checks._init_1_2_check_namespace_conflicts pc sc cc rc = Ok (K, M) ->
  Checks._init_1_3_check_parameter_dimensionality K max_dim = Ok tt.
Proof.
  intros H. apply namespace_check_spec in H as (_ & Hprot & _ & _ & -> & _).
  unfold Checks._init_1_3_check_parameter_dimensionality.
  set (names := pc ++ sc ++ map Checks.name cc ++ rc) in *.
  assert (H2 : "x[2]" ∉ (list_to_set names : gset string)).
  { intros Hin. apply elem_of_list_to_set in Hin.
    apply (Hprot _ Hin). unfold Checks.protected_names. set_solver. }
  assert (H1 : "x[1]" ∉ (list_to_set names : gset string)).
  { intros Hin. apply elem_of_list_to_set in Hin.
    apply (Hprot _ Hin). unfold Checks.protected_names. set_solver. }
  rewrite (bool_decide_eq_false_2 _ H2), (bool_decide_eq_false_2 _ H1).
  reflexivity.
Qed.

Lemma X3_parameter_dimensionality_never_raises_witness :
  Checks._init_1_3_check_parameter_dimensionality
    (list_to_set (["k"] ++ ["A"] ++ map Checks.name [Checks.cyto; Checks.pm]
                  ++ ["r1"])) 1 = Ok tt.
Proof.
  apply (X3_parameter_dimensionality_never_raises ["k"] ["A"] ["r1"]
           [Checks.cyto; Checks.pm] _ (list_to_set [1; 10; 11]) 1).
  apply namespace_check_spec.
  repeat split.
  - cbn. repeat (constructor; [set_solver|]). constructor.
  - cbn. intros x Hx. unfold Checks.protected_names.
    repeat (apply elem_of_cons in Hx as [->|Hx]; [set_solver|]).
    inversion Hx.
  - cbn. repeat (constructor; [set_solver|]). constructor.
  - cbn. intros m Hm.
    repeat (apply elem_of_cons in Hm as [->|Hm]; [lia|]). inversion Hm.
Defined.

(** ** Step 2 of the initialization: reactions *)



Section ReactionValidity.

Variable free_symbols : string -> gset string.
Variables pc_keys sc_keys : list string.
Hypothesis keys_disjoint : forall x, x ∈ pc_keys -> x ∉ sc_keys.
Hypothesis curv_free : "curv" ∉ pc_keys /\ "curv" ∉ sc_keys.



End ReactionValidity.



Lemma dict_keys_spec (names seen : list string) :
  NoDup (Reactions.dict_keys seen names) /\
  (forall x, x ∈ Reactions.dict_keys seen names <-> x ∈ names /\ x ∉ seen).
Proof.
  revert seen. induction names as [|k rest IH]; intros seen; simpl.
  - split; [constructor|]. intros x. split; [inversion 1|].
    intros [H _]. inversion H.
  - destruct (bool_decide_reflect (k ∈ seen)) as [Hin|Hnin].
    + destruct (IH seen) as [Hnd Hmem]. split; [exact Hnd|].
      intros x. rewrite Hmem, elem_of_cons. split; [tauto|].
      intros [[->|Hx] Hs]; [contradiction | tauto].
    + destruct (IH (k :: seen)) as [Hnd Hmem]. split.
      * constructor; [|exact Hnd]. rewrite Hmem, elem_of_cons. tauto.
      * intros x. rewrite !elem_of_cons, Hmem, elem_of_cons.
        destruct (decide (x = k)) as [->|Hne]; tauto.
Qed.

Lemma getitem_elem_of (cc : list (string * bool)) (k : string) (b b' : bool) :
  NoDup (map fst cc) ->
  Reactions.getitem cc k = PyX.Ok b ->
  ((k, b') ∈ cc <-> b' = b).
Proof.
  induction cc as [|[k0 v0] rest IH]; [discriminate|].
  cbn [map fst Reactions.getitem]. intros Hnd Hget.
  apply NoDup_cons in Hnd as [Hk0 Hnd].
  destruct (decide (k0 = k)) as [->|Hne].
  - injection Hget as ->. rewrite elem_of_cons. split.
    + intros [[= ->]|Hin]; [reflexivity|]. exfalso. apply Hk0.
      apply list_elem_of_fmap. exists (k, b'). split; [reflexivity|exact Hin].
    + intros ->. now left.
  - rewrite elem_of_cons, (IH Hnd Hget). split; [|tauto].
    intros [[= -> _]|H]; [contradiction | exact H].
Qed.

Lemma getitems_count (cc : list (string * bool)) (keys : list string)
    (flags : list bool) (b : bool) :
  NoDup (map fst cc) ->
  Reactions.getitems cc keys = PyX.Ok flags ->
  length flags = length keys /\
  Reactions.count_flag cc b keys = length (filter (fun x => x = b) flags).
Proof.
  intros Hnd. unfold Reactions.count_flag.
  revert flags. induction keys as [|k rest IH]; intros flags.
  - intros [= <-]. split; reflexivity.
  - cbn [Reactions.getitems].
    destruct (Reactions.getitem cc k) as [v|e] eqn:Hget; [|discriminate].
    cbn [PyX.bind].
    destruct (Reactions.getitems cc rest) as [vs|e]; [|discriminate].
    cbn [PyX.bind]. intros [= <-].
    destruct (IH vs eq_refl) as [Hlen Hcount].
    split; [simpl; lia|].
    rewrite !filter_cons.
    pose proof (getitem_elem_of cc k v b Hnd Hget) as Hiff.
    destruct (decide ((k, b) ∈ cc)) as [Hin|Hnin];
      destruct (decide (v = b)) as [Heq|Hne].
    + simpl. lia.
    + exfalso. apply Hne. symmetry. now apply Hiff.
    + exfalso. apply Hnin. apply Hiff. now symmetry.
    + exact Hcount.
Qed.

(** X5: a reaction that [_init_2_3_link_reaction_properties] links is
    stored with every parameter, species and compartment once, with
    [num_species] the number of its distinct species, and it spans one
    compartment, or a volume and a surface, or two volumes and a surface;
    its topology is [volume], [surface], [volume_surface] or
    [volume_surface_volume] accordingly. No linked reaction involves two
    surfaces. *)
Theorem X5_linked_reaction_topology (pc : list (string * unit))
    (sc : list (string * string)) (cc : list (string * bool))
    (reaction : Reactions.Reaction) (l : Reactions.Linked) :
  NoDup (map fst cc) ->
  Reactions.link_reaction pc sc cc reaction = PyX.Ok l ->
  NoDup (Reactions.parameters l) /\
  NoDup (Reactions.species l) /\
  NoDup (Reactions.compartments l) /\
  Reactions.num_species l = length (Reactions.species l) /\
  (forall x, x ∈ Reactions.species l <-> x ∈ Reactions.species_names reaction) /\
  let n := length (Reactions.compartments l) in
  let v := Reactions.count_flag cc true (Reactions.compartments l) in
  let s := Reactions.count_flag cc false (Reactions.compartments l) in
  (n = 1 /\ v = 1 /\ s = 0 /\ Reactions.topology l = Reactions.volume)%nat \/
  (n = 1 /\ v = 0 /\ s = 1 /\ Reactions.topology l = Reactions.surface)%nat \/
  (n = 2 /\ v = 1 /\ s = 1 /\
   Reactions.topology l = Reactions.volume_surface)%nat \/
  (n = 3 /\ v = 2 /\ s = 1 /\
   Reactions.topology l = Reactions.volume_surface_volume)%nat.
Proof.
  intros Hnd. unfold Reactions.link_reaction.
  destruct (Reactions.getitems pc _) as [ps|e]; [|discriminate].
  cbn [PyX.bind].
  destruct (Reactions.getitems sc _) as [cnames|e]; [|discriminate].
  cbn [PyX.bind].
  set (names := if decide (Reactions.explicit_restriction_to_domain reaction = "")
                then cnames
                else cnames ++ [Reactions.explicit_restriction_to_domain reaction]).
  destruct (Reactions.getitems cc (Reactions.dict_keys [] names))
    as [flags|e] eqn:Hflags; [|discriminate].
  cbn [PyX.bind].
  destruct (Reactions.classify flags) as [topo|e] eqn:Hclass; [|discriminate].
  cbn [PyX.bind]. intros [= <-].
  cbn [Reactions.parameters Reactions.species Reactions.compartments
       Reactions.num_species Reactions.topology].
  split; [apply dict_keys_spec|]. split; [apply dict_keys_spec|].
  split; [apply dict_keys_spec|]. split; [reflexivity|].
  split.
  { intros x. rewrite (proj2 (dict_keys_spec _ [])). split; [tauto|].
    intros H. split; [exact H | inversion 1]. }
  destruct (getitems_count cc _ flags true Hnd Hflags) as [Hlen Hv].
  destruct (getitems_count cc _ flags false Hnd Hflags) as [_ Hs].
  cbv zeta. rewrite Hv, Hs, <- Hlen. clear Hv Hs Hlen Hflags.
  destruct flags as [|b1 [|b2 [|b3 [|b4 rest]]]]; try discriminate.
  - destruct b1; injection Hclass as <-; cbn; tauto.
  - destruct b1, b2; try discriminate; injection Hclass as <-; cbn; tauto.
  - destruct b1, b2, b3; try discriminate; injection Hclass as <-; cbn; tauto.
Qed.

Lemma X5_linked_reaction_topology_witness :
  exists l,
    Reactions.link_reaction Reactions.example_pc Reactions.example_sc
      Reactions.example_cc Reactions.binding = PyX.Ok l /\
    NoDup (Reactions.compartments l) /\
    Reactions.topology l = Reactions.volume_surface.
Proof.
  eexists. split; [vm_compute; reflexivity|].
  destruct (X5_linked_reaction_topology Reactions.example_pc
              Reactions.example_sc Reactions.example_cc Reactions.binding _
              ltac:(cbn; repeat (constructor; [set_solver|]); constructor)
              ltac:(vm_compute; reflexivity))
    as (_ & _ & Hnd & _ & _ & _).
  split; [exact Hnd | reflexivity].
Defined.

(** ** The step loop: what a call leaves behind *)

Lemma index_m1_inv {A : Type} (l : list A) (x : A) :
  Py.index l (-1) = Ok x -> exists pre, l = pre ++ [x].
Proof.
  destruct l as [|y l'] using rev_ind; [discriminate|].
  rewrite index_last. intros [= <-]. now exists l'.
Qed.

Lemma index_m2_inv {A : Type} (l : list A) (y : A) :
  Py.index l (-2) = Ok y -> exists pre x, l = pre ++ [y] ++ [x].
Proof.
  destruct l as [|x l' _] using rev_ind; [discriminate|].
  destruct l' as [|y' l'' _] using rev_ind; [discriminate|].
  rewrite <- app_assoc, index_last_but_one. intros [= <-].
  now exists l'', x.
Qed.

Lemma update_solution_shape (ks : list Engine.ukey) (k : Engine.ukey)
    (self s1 : Engine.Model) :
  Engine.update_solution ks k self = Ok s1 ->
  exists u n, s1 = Engine.with_u_n n (Engine.with_u_u u self).
Proof.
  revert self. induction ks as [|k0 ks IH]; intros self H; simpl in H.
  - injection H as <-. exists (Engine.u_u self), (Engine.u_n self).
    now destruct self.
  - apply bind_Ok in H as (v & _ & H). apply IH in H as (u & n & ->).
    destruct k0; cbn [Engine.set_u]; eexists; eexists; reflexivity.
Qed.

(** [reset_timestep] up to its last statement. *)
Lemma reset_timestep_reduce (self : Engine.Model) (r : Z)
    (tv dv : list Z) (t_prev x d q : Z) (nls ls : list nat) (nl l : nat) :
  Engine.tvec self = tv ++ [t_prev] ++ [x] ->
  Engine.dtvec self = dv ++ [d] ->
  Engine.idx_nl self = nls ++ [nl] ->
  Engine.idx_l self = ls ++ [l] ->
  Engine.shrunk_dt self d = Some q ->
  Engine.reset_timestep r self
  = Engine.update_solution [Engine.key_u] Engine.key_n
      (Engine.with_dtvec dv
         (Engine.with_tvec (tv ++ [t_prev])
            (Engine.with_idx_l ls
               (Engine.with_idx_nl nls
                  (Engine.with_idx (Engine.idx self - 1)
                     (Engine.with_failed_solves
                        (Engine.failed_solves self
                         ++ [(Engine.idx self, nl, l, x, d, r)])
                        (Engine.with_dt q
                           (Engine.with_t t_prev self)))))))).
Proof.
  intros Htv Hdv Hnl Hl Hq.
  unfold Engine.reset_timestep.
  rewrite Htv, index_last_but_one. cbn [Py.bind].
  rewrite set_time_eq. model_fields.
  rewrite Hdv, index_last. cbn [Py.bind].
  unfold Engine.set_dt_float, Engine.shrunk_dt, Engine.to_float in *.
  unfold Engine.dec in *. model_fields.
  destruct (Float.to_Q _) as [xq|]; [|discriminate].
  injection Hq as <-. cbn [Py.bind]. rewrite set_dt_eq.
  unfold Engine.rounded_decimal. model_fields.
  rewrite Hnl, Hl, !index_last. cbn [Py.bind].
  rewrite Htv, Hdv, (app_assoc tv [t_prev] [x]), !index_last.
  cbn [Py.bind].
  rewrite !pop_last. cbn [Py.bind].
  reflexivity.
Qed.

(** What a returned [reset_timestep] started from and what it built. *)
Lemma reset_timestep_inv (self s1 : Engine.Model) (r : Z) :
  Engine.reset_timestep r self = Ok s1 ->
  exists tv dv t_prev x d q nls ls nl l u n,
    Engine.tvec self = tv ++ [t_prev] ++ [x] /\
    Engine.dtvec self = dv ++ [d] /\
    Engine.idx_nl self = nls ++ [nl] /\
    Engine.idx_l self = ls ++ [l] /\
    Engine.shrunk_dt self d = Some q /\
    s1 = Engine.with_u_n n
           (Engine.with_u_u u
              (Engine.with_dtvec dv
                 (Engine.with_tvec (tv ++ [t_prev])
                    (Engine.with_idx_l ls
                       (Engine.with_idx_nl nls
                          (Engine.with_idx (Engine.idx self - 1)
                             (Engine.with_failed_solves
                                (Engine.failed_solves self
                                 ++ [(Engine.idx self, nl, l, x, d, r)])
                                (Engine.with_dt q
                                   (Engine.with_t t_prev self))))))))).
Proof.
  intros H.
  destruct (Py.index (Engine.tvec self) (-2)) as [t_prev|e] eqn:E1.
  2:{ revert H. unfold Engine.reset_timestep. rewrite E1. discriminate. }
  apply index_m2_inv in E1 as (tv & x & Htv).
  destruct (Py.index (Engine.dtvec self) (-1)) as [d|e] eqn:E2.
  2:{ revert H. unfold Engine.reset_timestep.
      rewrite Htv, index_last_but_one. cbn [Py.bind].
      rewrite set_time_eq. cbn [Engine.dtvec Engine.with_t].
      rewrite E2. discriminate. }
  apply index_m1_inv in E2 as (dv & Hdv).
  destruct (Engine.shrunk_dt self d) as [q|] eqn:Hq.
  2:{ revert H. unfold Engine.reset_timestep.
      rewrite Htv, index_last_but_one. cbn [Py.bind].
      rewrite set_time_eq. cbn [Engine.dtvec Engine.with_t].
      rewrite Hdv, index_last. cbn [Py.bind].
      unfold Engine.set_dt_float. revert Hq.
      unfold Engine.shrunk_dt, Engine.to_float, Engine.dec.
      cbn [Engine.config Engine.with_t].
      destruct (Float.to_Q _); discriminate. }
  assert (Hstep : forall P : Prop,
            (forall nls nl ls l,
               Engine.idx_nl self = nls ++ [nl] ->
               Engine.idx_l self = ls ++ [l] -> P) -> P).
  { intros P HP.
    destruct (Py.index (Engine.idx_nl self) (-1)) as [nl|e] eqn:E3.
    2:{ exfalso. revert H. unfold Engine.reset_timestep.
        rewrite Htv, index_last_but_one. cbn [Py.bind].
        rewrite set_time_eq. cbn [Engine.dtvec Engine.with_t].
        rewrite Hdv, index_last. cbn [Py.bind].
        unfold Engine.set_dt_float. revert Hq.
        unfold Engine.shrunk_dt, Engine.to_float, Engine.dec.
        cbn [Engine.config Engine.with_t].
        destruct (Float.to_Q _); [|discriminate]. intros _.
        cbn [Py.bind]. rewrite set_dt_eq.
        cbn [Engine.idx_nl Engine.with_dt Engine.with_t].
        rewrite E3. discriminate. }
    destruct (Py.index (Engine.idx_l self) (-1)) as [l|e] eqn:E4.
    2:{ exfalso. revert H. unfold Engine.reset_timestep.
        rewrite Htv, index_last_but_one. cbn [Py.bind].
        rewrite set_time_eq. cbn [Engine.dtvec Engine.with_t].
        rewrite Hdv, index_last. cbn [Py.bind].
        unfold Engine.set_dt_float. revert Hq.
        unfold Engine.shrunk_dt, Engine.to_float, Engine.dec.
        cbn [Engine.config Engine.with_t].
        destruct (Float.to_Q _); [|discriminate]. intros _.
        cbn [Py.bind]. rewrite set_dt_eq.
        cbn [Engine.idx_nl Engine.idx_l Engine.with_dt Engine.with_t].
        rewrite E3. cbn [Py.bind]. rewrite E4. discriminate. }
    apply index_m1_inv in E3 as (nls & Hnl).
    apply index_m1_inv in E4 as (ls & Hl).
    exact (HP nls nl ls l Hnl Hl). }
  apply Hstep. intros nls nl ls l Hnl Hl.
  rewrite (reset_timestep_reduce self r tv dv t_prev x d q nls ls nl l
             Htv Hdv Hnl Hl Hq) in H.
  apply update_solution_shape in H as (u & n & ->).
  exists tv, dv, t_prev, x, d, q, nls, ls, nl, l, u, n.
  repeat split; assumption.
Qed.

Lemma put_adjust_dt_same (c : Engine.SolverConfig) :
  Engine.put_adjust_dt (Engine.adjust_dt c) c = c.
Proof. now destruct c. Qed.

Lemma with_config_same (self : Engine.Model) :
  Engine.with_config (Engine.config self) self = self.
Proof. now destruct self. Qed.

Lemma with_config_with_dt (self : Engine.Model) (d : Z) :
  Engine.with_config (Engine.config self) (Engine.with_dt d self)
  = Engine.with_dt d self.
Proof. now destruct self. Qed.

Lemma with_reset_dt_same (self : Engine.Model) :
  Engine.with_reset_dt (Engine.reset_dt self) self = self.
Proof. now destruct self. Qed.

(** The shape of the model [adjust_dt_if_prescribed] returns. *)
Lemma adjust_dt_if_prescribed_shape (self s1 : Engine.Model) :
  Engine.adjust_dt_if_prescribed self = Ok s1 ->
  exists d b q,
    s1 = Engine.with_reset_dt b
           (Engine.with_config (Engine.put_adjust_dt q (Engine.config self))
              (Engine.with_dt d self)) /\
    (q = Engine.adjust_dt (Engine.config self) \/
     exists c rest,
       Engine.adjust_dt (Engine.config self) = Some (c :: rest) /\
       q = Some rest).
Proof.
  assert (Hsame : exists d b q,
            self = Engine.with_reset_dt b
                     (Engine.with_config
                        (Engine.put_adjust_dt q (Engine.config self))
                        (Engine.with_dt d self)) /\
            (q = Engine.adjust_dt (Engine.config self) \/
             exists c rest,
               Engine.adjust_dt (Engine.config self) = Some (c :: rest) /\
               q = Some rest)).
  { exists (Engine.dt self), (Engine.reset_dt self),
      (Engine.adjust_dt (Engine.config self)).
    split; [|now left].
    rewrite put_adjust_dt_same, with_dt_same, with_config_same,
      with_reset_dt_same. reflexivity. }
  unfold Engine.adjust_dt_if_prescribed.
  destruct (Engine.adjust_dt (Engine.config self))
    as [[|[ta0 dta0] rest]|] eqn:Hq.
  1, 3: intros [= <-]; exact Hsame.
  destruct (_ || _).
  { intros [= <-]. rewrite set_dt_eq. unfold Engine.del_adjust_dt.
    eexists _, false, (Some rest). split; [reflexivity|].
    right. now eexists _, _. }
  destruct (_ <? _); [discriminate|].
  destruct (_ && _); [|intros [= <-]; exact Hsame].
  destruct (_ >? _); intros [= <-]; rewrite set_dt_eq.
  - unfold Engine.del_adjust_dt.
    eexists _, false, (Some rest). split; [reflexivity|].
    right. now eexists _, _.
  - eexists _, true, (Some ((ta0, dta0) :: rest)). split; [|now left].
    rewrite <- Hq, put_adjust_dt_same, with_config_with_dt. reflexivity.
Qed.

(** The shape of the model [begin_step] returns. *)
Lemma begin_step_inv (self s1 : Engine.Model) :
  Engine.begin_step self = Ok s1 ->
  exists d b q ps,
    0 < d /\
    s1 = Engine.with_pc ps
           (Engine.with_dtvec (Engine.dtvec self ++ [d])
              (Engine.with_tvec (Engine.tvec self ++ [Engine.t self + d])
                 (Engine.with_t (Engine.t self + d)
                    (Engine.with_tn (Engine.t self)
                       (Engine.with_reset_dt b
                          (Engine.with_config
                             (Engine.put_adjust_dt q (Engine.config self))
                             (Engine.with_dt d
                                (Engine.with_idx (Engine.idx self + 1)
                                   self)))))))) /\
    (q = Engine.adjust_dt (Engine.config self) \/
     exists c rest,
       Engine.adjust_dt (Engine.config self) = Some (c :: rest) /\
       q = Some rest) /\
    (Engine._failed_to_converge self = true ->
     d = Engine.dt self /\ b = Engine.reset_dt self /\
     q = Engine.adjust_dt (Engine.config self)) /\
    (Engine._failed_to_converge self = false ->
     Engine.t self + d <= Engine.final_t self).
Proof.
  unfold Engine.begin_step. intros H.
  apply bind_Ok in H as (s0 & Hchoose & H).
  assert (Hs0 : exists d b q,
            s0 = Engine.with_reset_dt b
                   (Engine.with_config
                      (Engine.put_adjust_dt q (Engine.config self))
                      (Engine.with_dt d
                         (Engine.with_idx (Engine.idx self + 1) self))) /\
            (q = Engine.adjust_dt (Engine.config self) \/
             exists c rest,
               Engine.adjust_dt (Engine.config self) = Some (c :: rest) /\
               q = Some rest) /\
            (Engine._failed_to_converge self = true ->
             d = Engine.dt self /\ b = Engine.reset_dt self /\
             q = Engine.adjust_dt (Engine.config self)) /\
            (Engine._failed_to_converge self = false ->
             Engine.t self + d <= Engine.final_t self)).
  { unfold Engine.choose_dt, Engine.propose_dt in Hchoose.
    cbn [Engine._failed_to_converge Engine.with_idx] in Hchoose.
    destruct (Engine._failed_to_converge self) eqn:Hflag;
      cbn [negb] in Hchoose.
    - injection Hchoose as <-.
      exists (Engine.dt self), (Engine.reset_dt self),
        (Engine.adjust_dt (Engine.config self)).
      split; [|split; [now left|split; [now intros _|discriminate]]].
      rewrite put_adjust_dt_same.
      now destruct self.
    - apply bind_Ok in Hchoose as (sa & Ha & Hb). injection Hb as <-.
      apply adjust_dt_if_prescribed_shape in Ha as (d & b & q & -> & Hq).
      rewrite adjust_dt_if_pass_tfinal_spec.
      cbn [Engine.t Engine.dt Engine.final_t Engine.config
           Engine.with_reset_dt Engine.with_config Engine.with_dt
           Engine.with_idx] in *.
      destruct (Z.gtb_spec (Engine.t self + d) (Engine.final_t self))
        as [Hgt|Hle].
      + exists (Engine.final_t self - Engine.t self), b, q.
        split; [reflexivity|]. split; [exact Hq|].
        split; [discriminate|]. intros _. lia.
      + exists d, b, q.
        split; [reflexivity|]. split; [exact Hq|].
        split; [discriminate|]. intros _. lia. }
  destruct Hs0 as (d & b & q & -> & Hq & Htrue & Hfalse).
  cbn [Engine.dt Engine.with_reset_dt Engine.with_config Engine.with_dt] in H.
  destruct (Z.leb_spec d 0) as [|Hpos]; [discriminate|].
  apply update_time_dependent_parameters_frame in H as [ps ->].
  rewrite forward_time_step_spec.
  exists d, b, q, ps. split; [exact Hpos|].
  split; [reflexivity|]. split; [exact Hq|]. split; assumption.
Qed.

Lemma update_solution_facts (ks : list Engine.ukey) (k : Engine.ukey)
    (self s1 : Engine.Model) :
  Engine.update_solution ks k self = Ok s1 ->
  Engine.same_but_solution self s1.
Proof.
  intros H. apply update_solution_shape in H as (u & n & ->).
  unfold Engine.same_but_solution. repeat split.
Qed.

Lemma clamp_negative_facts (self s1 : Engine.Model) :
  Engine.clamp_negative self = Ok s1 ->
  Engine.same_but_solution self s1.
Proof.
  intros H. apply clamp_negative_frame in H as (u & b & ->).
  unfold Engine.same_but_solution. repeat split.
Qed.

Lemma record_solve_facts (r : Engine.SolverResult) (self : Engine.Model) :
  Engine.config (Engine.record_solve r self) = Engine.config self /\
  Engine.t (Engine.record_solve r self) = Engine.t self /\
  Engine.dt (Engine.record_solve r self) = Engine.dt self /\
  Engine.final_t (Engine.record_solve r self) = Engine.final_t self /\
  Engine.tvec (Engine.record_solve r self) = Engine.tvec self /\
  Engine.dtvec (Engine.record_solve r self) = Engine.dtvec self /\
  Engine.idx (Engine.record_solve r self) = Engine.idx self /\
  Engine.idx_nl (Engine.record_solve r self)
  = Engine.idx_nl self ++ [Engine.its r] /\
  Engine.idx_l (Engine.record_solve r self)
  = Engine.idx_l self ++ [Engine.ksp_its r] /\
  Engine.reset_dt (Engine.record_solve r self) = Engine.reset_dt self /\
  Engine._failed_to_converge (Engine.record_solve r self)
  = Engine._failed_to_converge self /\
  Engine.failed_solves (Engine.record_solve r self)
  = Engine.failed_solves self /\
  Engine.num_active_compartments (Engine.record_solve r self)
  = Engine.num_active_compartments self /\
  Engine.pc (Engine.record_solve r self) = Engine.pc self.
Proof. repeat split. Qed.

(** What a returned rollback started from and what it left. *)
Lemma rollback_facts (r : Engine.SolverResult) (s2 s3 : Engine.Model) :
  Engine.rollback r s2 = Ok s3 ->
  exists tv dv t_prev x d q nls ls nl l,
    Engine.tvec s2 = tv ++ [t_prev] ++ [x] /\
    Engine.dtvec s2 = dv ++ [d] /\
    Engine.idx_nl s2 = nls ++ [nl] /\
    Engine.idx_l s2 = ls ++ [l] /\
    Engine.shrunk_dt s2 d = Some q /\
    Engine.config s3 = Engine.config s2 /\
    Engine.t s3 = t_prev /\ Engine.dt s3 = q /\
    Engine.final_t s3 = Engine.final_t s2 /\
    Engine.tvec s3 = tv ++ [t_prev] /\ Engine.dtvec s3 = dv /\
    Engine.idx s3 = Engine.idx s2 - 1 /\
    Engine.idx_nl s3 = nls /\ Engine.idx_l s3 = ls /\
    Engine.reset_dt s3 = Engine.reset_dt s2 /\
    Engine._failed_to_converge s3 = true /\
    Engine.failed_solves s3
    = Engine.failed_solves s2
      ++ [(Engine.idx s2, nl, l, x, d, Engine.reason r)] /\
    Engine.num_active_compartments s3 = Engine.num_active_compartments s2 /\
    Engine.pc s3 = Engine.pc s2.
Proof.
  unfold Engine.rollback. intros H.
  apply bind_Ok in H as (s & Hreset & H). injection H as <-.
  apply reset_timestep_inv in Hreset
    as (tv & dv & t_prev & x & d & q & nls & ls & nl & l & u & n
        & Htv & Hdv & Hnl & Hl & Hq & ->).
  exists tv, dv, t_prev, x, d, q, nls, ls, nl, l.
  repeat split; assumption.
Qed.

Lemma begin_step_facts (self s1 : Engine.Model) :
  Engine.begin_step self = Ok s1 ->
  exists d,
    0 < d /\
    Engine.t s1 = Engine.t self + d /\ Engine.dt s1 = d /\
    Engine.final_t s1 = Engine.final_t self /\
    Engine.tvec s1 = Engine.tvec self ++ [Engine.t self + d] /\
    Engine.dtvec s1 = Engine.dtvec self ++ [d] /\
    Engine.idx s1 = Engine.idx self + 1 /\
    Engine.idx_nl s1 = Engine.idx_nl self /\
    Engine.idx_l s1 = Engine.idx_l self /\
    Engine._failed_to_converge s1 = Engine._failed_to_converge self /\
    Engine.failed_solves s1 = Engine.failed_solves self /\
    Engine.num_active_compartments s1
    = Engine.num_active_compartments self /\
    Engine.time_precision (Engine.config s1)
    = Engine.time_precision (Engine.config self) /\
    Engine.use_snes (Engine.config s1)
    = Engine.use_snes (Engine.config self) /\
    Engine.reset_timestep_for_negative_solution (Engine.config s1)
    = Engine.reset_timestep_for_negative_solution (Engine.config self) /\
    Engine.attempt_timestep_restart_on_divergence (Engine.config s1)
    = Engine.attempt_timestep_restart_on_divergence (Engine.config self) /\
    Engine.queue_advanced self s1 /\
    (Engine._failed_to_converge self = true ->
     d = Engine.dt self /\
     Engine.reset_dt s1 = Engine.reset_dt self /\
     Engine.adjust_dt (Engine.config s1)
     = Engine.adjust_dt (Engine.config self)) /\
    (Engine._failed_to_converge self = false ->
     Engine.t self + d <= Engine.final_t self).
Proof.
  intros H.
  apply begin_step_inv in H
    as (d & b & q & ps & Hd & -> & Hq & Htrue & Hfalse).
  exists d. unfold Engine.queue_advanced.
  cbn [Engine.config Engine.t Engine.dt Engine.final_t Engine.tvec
       Engine.dtvec Engine.idx Engine.idx_nl Engine.idx_l Engine.reset_dt
       Engine._failed_to_converge Engine.failed_solves
       Engine.num_active_compartments
       Engine.with_pc Engine.with_dtvec Engine.with_tvec Engine.with_t
       Engine.with_tn Engine.with_reset_dt Engine.with_config Engine.with_dt
       Engine.with_idx Engine.put_adjust_dt Engine.adjust_dt
       Engine.time_precision Engine.use_snes
       Engine.reset_timestep_for_negative_solution
       Engine.attempt_timestep_restart_on_divergence].
  repeat (split; [first [exact Hd | reflexivity]|]).
  split.
  { destruct Hq as [->|(c & rest & Hc & ->)]; [now left|].
    right. now exists c, rest. }
  split; [|exact Hfalse].
  intros Hflag. destruct (Htrue Hflag) as (-> & -> & ->). now repeat split.
Qed.

Lemma valid_precision_same (c c' : Engine.SolverConfig) :
  Engine.time_precision c' = Engine.time_precision c ->
  Engine.valid_precision c' = Engine.valid_precision c.
Proof. unfold Engine.valid_precision. now intros ->. Qed.

Lemma shrunk_dt_same (s s' : Engine.Model) (d : Z) :
  Engine.time_precision (Engine.config s')
  = Engine.time_precision (Engine.config s) ->
  Engine.shrunk_dt s' d = Engine.shrunk_dt s d.
Proof.
  unfold Engine.shrunk_dt, Engine.to_float, Engine.dec,
    Engine.rounded_decimal.
  now intros ->.
Qed.

Section Steps.

Variable solver : Engine.Model -> Engine.SolverResult.

(** A returned call steps once: by induction on the retries. *)
Lemma monolithic_solve_stepped_once (depth : nat) (self s' : Engine.Model) :
  Engine.monolithic_solve solver depth self = Ok s' ->
  Engine.callable self ->
  Engine.stepped_once self s'.
Proof.
  revert self s'.
  induction depth as [|depth IH]; intros self s' H Hcall; [discriminate|].
  cbn [Engine.monolithic_solve] in H.
  apply bind_Ok in H as (s1 & Hbegin & H).
  apply begin_step_facts in Hbegin
    as (d & Hd & Ht1 & Hdt1 & Hfin1 & Htv1 & Hdv1 & Hidx1 & Hnl1 & Hl1
        & Hflag1 & Hfs1 & Hnum1 & Hprec1 & Hsnes1 & Hneg1 & Hrestart1
        & Hqueue1 & Htrue1 & Hfalse1).
  destruct Hcall as (Hvalid & Hlast & Hretrying).
  assert (Hbound : Engine.t self + d <= Engine.final_t self).
  { destruct (Engine._failed_to_converge self) eqn:Hflag.
    - destruct (Htrue1 eq_refl) as (-> & _). now apply Hretrying.
    - now apply Hfalse1. }
  assert (Hqueue' : forall s2,
            Engine.config s2 = Engine.config s1 ->
            Engine.queue_advanced self s2 /\
            (Engine._failed_to_converge self = true ->
             Engine.adjust_dt (Engine.config s2)
             = Engine.adjust_dt (Engine.config self))).
  { intros s2 Hc. unfold Engine.queue_advanced in *. rewrite Hc. split.
    - exact Hqueue1.
    - intros Hflag. now destruct (Htrue1 Hflag) as (_ & _ & ->). }
  assert (Hsettings : forall s2,
            Engine.config s2 = Engine.config s1 ->
            Engine.final_t s2 = Engine.final_t s1 ->
            Engine.num_active_compartments s2
            = Engine.num_active_compartments s1 ->
            Engine.same_settings self s2).
  { intros s2 Hc Hf Hn. unfold Engine.same_settings.
    rewrite Hc, Hf, Hn. repeat split; assumption. }
  set (r := solver s1) in *.
  pose proof (record_solve_facts r s1)
    as (Rc & Rt & Rdt & Rfin & Rtv & Rdv & Ridx & Rnl & Rl & Rreset & Rflag
        & Rfs & Rnum & Rpc).
  revert H.
  assert (Haccept : forall X,
            Engine.same_but_solution (Engine.record_solve r s1) X ->
            Engine.use_snes (Engine.config self) = true ->
            Engine.update_solution [Engine.key_n] Engine.key_u
              (Engine.with_failed_to_converge false X) = Ok s' ->
            Engine.stepped_once self s').
  { intros X HX Hsnes Hup.
    apply update_solution_facts in Hup.
    destruct Hup as (Uc & Ut & _ & Udt & Ufin & Utv & Udv & Uidx & Unl & Ul
                     & _ & Uflag & Ufs & Unum & _).
    destruct HX as (Xc & Xt & _ & Xdt & Xfin & Xtv & Xdv & Xidx & Xnl & Xl
                    & _ & Xflag & Xfs & Xnum & _).
    cbn [Engine.config Engine.t Engine.dt Engine.final_t Engine.tvec
         Engine.dtvec Engine.idx Engine.idx_nl Engine.idx_l
         Engine._failed_to_converge Engine.failed_solves
         Engine.num_active_compartments Engine.with_failed_to_converge]
      in Uc, Ut, Udt, Ufin, Utv, Udv, Uidx, Unl, Ul, Uflag, Ufs, Unum.
    assert (Hc : Engine.config s' = Engine.config s1) by congruence.
    destruct (Hqueue' s' Hc) as [Hq1 Hq2].
    unfold Engine.stepped_once.
    split; [apply Hsettings; congruence|].
    split; [rewrite Utv, Xtv, Rtv, Htv1, Ut, Xt, Rt, Ht1; apply last_snoc|].
    split; [rewrite Ut, Xt, Rt, Ht1, Ufin, Xfin, Rfin, Hfin1; exact Hbound|].
    split; [congruence|].
    split; [exact Hq1|]. split; [exact Hq2|].
    split.
    { exists []. rewrite app_nil_r. split; [congruence | constructor]. }
    split.
    - intros _. split; [exact Uflag|].
      exists (Engine.its r), (Engine.ksp_its r).
      split; congruence.
    - congruence. }
  assert (Hretry : forall X,
            Engine.same_but_solution (Engine.record_solve r s1) X ->
            Engine.use_snes (Engine.config self) = true ->
            (let* s3 := Engine.rollback r X
             in Engine.monolithic_solve solver depth s3) = Ok s' ->
            Engine.stepped_once self s').
  { intros X HX Hsnes Hr.
    apply bind_Ok in Hr as (s3 & Hroll & Hr).
    destruct HX as (Xc & Xt & _ & Xdt & Xfin & Xtv & Xdv & Xidx & Xnl & Xl
                    & Xreset & Xflag & Xfs & Xnum & _).
    apply rollback_facts in Hroll
      as (tv & dv & t_prev & x & d' & q & nls & ls & nl & l
          & Ktv & Kdv & Knl & Kl & Kq & Kc & Kt & Kdt & Kfin & Ktv3 & Kdv3
          & Kidx & Knl3 & Kl3 & Kreset & Kflag & Kfs & Knum & _).
    apply last_Some in Hlast as [tv0 Hlast].
    rewrite Xtv, Rtv, Htv1, Hlast in Ktv.
    rewrite <- app_assoc in Ktv.
    change ([Engine.t self] ++ [Engine.t self + d])
      with ([Engine.t self; Engine.t self + d]) in Ktv.
    assert (Ktv' : (tv0 ++ [Engine.t self]) ++ [Engine.t self + d]
                   = (tv ++ [t_prev]) ++ [x]).
    { rewrite <- !app_assoc. exact Ktv. }
    apply app_inj_tail in Ktv' as [Ktv' <-].
    apply app_inj_tail in Ktv' as [<- <-].
    rewrite Xdv, Rdv, Hdv1 in Kdv. apply app_inj_tail in Kdv as [<- <-].
    rewrite Xnl, Rnl, Hnl1 in Knl. apply app_inj_tail in Knl as [<- <-].
    rewrite Xl, Rl, Hl1 in Kl. apply app_inj_tail in Kl as [<- <-].
    assert (Hprec3 : Engine.time_precision (Engine.config X)
                     = Engine.time_precision (Engine.config self))
      by congruence.
    assert (Hsmall : 0 <= q < d).
    { apply (shrunk_dt_smaller X d q); [|exact Hd|exact Kq].
      rewrite (valid_precision_same _ _ Hprec3). exact Hvalid. }
    assert (Hcall3 : Engine.callable s3).
    { unfold Engine.callable. split; [|split].
      - rewrite <- Hvalid. apply valid_precision_same. congruence.
      - rewrite Ktv3, Kt. apply last_snoc.
      - intros _. split; [rewrite Kt, Kdt, Kfin, Xfin, Rfin, Hfin1; lia|].
        congruence. }
    specialize (IH s3 s' Hr Hcall3).
    destruct IH as (Iset & Ilast & Ifin & Iidx & Iq & Iq' & (fs & Ifs & Iall)
                    & Isnes & _).
    destruct Iset as (I1 & I2 & I3 & I4 & I5 & I6).
    assert (Hsnes3 : Engine.use_snes (Engine.config s3) = true)
      by congruence.
    specialize (Iq' Kflag).
    assert (Hc3 : Engine.config s3 = Engine.config s1) by congruence.
    unfold Engine.stepped_once.
    split.
    { unfold Engine.same_settings. rewrite I1, I2, I3, I4, I5, I6.
      rewrite Kfin, Knum, Kc, Xfin, Xnum, Xc, Rfin, Rnum, Rc.
      repeat split; assumption. }
    split; [exact Ilast|]. split; [exact Ifin|].
    split; [rewrite Iidx, Kidx, Xidx, Ridx, Hidx1; lia|].
    split.
    { unfold Engine.queue_advanced in *. rewrite Iq', Hc3. exact Hqueue1. }
    split.
    { intros Hflag. rewrite Iq', Hc3.
      now destruct (Htrue1 Hflag) as (_ & _ & ->). }
    split.
    { exists ((Engine.idx X, Engine.its r, Engine.ksp_its r,
               Engine.t self + d, d, Engine.reason r) :: fs).
      split.
      - rewrite Ifs, Kfs, Xfs, Rfs, Hfs1, <- app_assoc. reflexivity.
      - constructor.
        + cbn [Engine.failed_idx]. congruence.
        + eapply Forall_impl; [exact Iall|]. intros f Hf.
          rewrite Hf, Kidx, Xidx, Ridx, Hidx1. lia. }
    split.
    - intros _. destruct (Isnes Hsnes3) as (If & n & l' & In & Il).
      split; [exact If|]. exists n, l'. rewrite In, Il, Knl3, Kl3.
      split; reflexivity.
    - congruence. }
  assert (Hrefl : Engine.same_but_solution (Engine.record_solve r s1)
                    (Engine.record_solve r s1)).
  { unfold Engine.same_but_solution. repeat split. }
  assert (Hfinish : forall X,
            Engine.same_but_solution (Engine.record_solve r s1) X ->
            Engine.use_snes (Engine.config self) = true ->
            (if negb (Engine.converged r)
             then if negb (Engine.attempt_timestep_restart_on_divergence
                             (Engine.config X))
                  then Raise RuntimeError
                  else let* s3 := Engine.rollback r X
                       in Engine.monolithic_solve solver depth s3
             else Engine.update_solution [Engine.key_n] Engine.key_u
                    (Engine.with_failed_to_converge false X)) = Ok s' ->
            Engine.stepped_once self s').
  { intros X HX Hsnes.
    destruct (negb (Engine.converged r)).
    - destruct (negb _); [discriminate|]. now apply Hretry.
    - now apply Haccept. }
  destruct (Engine.use_snes (Engine.config s1)) eqn:Hsnes.
  - assert (Hsnes' : Engine.use_snes (Engine.config self) = true)
      by congruence.
    destruct (Engine.reset_timestep_for_negative_solution _).
    + intros H. apply bind_Ok in H as (negVals & _ & H).
      destruct negVals.
      * now apply (Hretry (Engine.record_solve r s1)).
      * apply bind_Ok in H as (s2 & Hclamp & H).
        apply clamp_negative_facts in Hclamp.
        now apply (Hfinish s2).
    + now apply Hfinish.
  - intros H. apply update_solution_facts in H.
    destruct H as (Uc & Ut & _ & Udt & Ufin & Utv & Udv & Uidx & Unl & Ul
                   & _ & Uflag & Ufs & Unum & _).
    cbn [Engine.config Engine.t Engine.dt Engine.final_t Engine.tvec
         Engine.dtvec Engine.idx Engine.idx_nl Engine.idx_l
         Engine._failed_to_converge Engine.failed_solves
         Engine.num_active_compartments Engine.with_u_u]
      in Uc, Ut, Udt, Ufin, Utv, Udv, Uidx, Unl, Ul, Uflag, Ufs, Unum.
    destruct (Hqueue' s' Uc) as [Hq1 Hq2].
    unfold Engine.stepped_once.
    split; [now apply Hsettings|].
    split; [rewrite Utv, Htv1, Ut, Ht1; apply last_snoc|].
    split; [rewrite Ut, Ht1, Ufin, Hfin1; exact Hbound|].
    split; [congruence|].
    split; [exact Hq1|]. split; [exact Hq2|].
    split.
    { exists []. rewrite app_nil_r. split; [congruence | constructor]. }
    split; [congruence|].
    intros _. repeat split; congruence.
Qed.

End Steps.

(** ** Runs of the step loop *)

Section Runs.

Variable solver : Engine.Model -> Engine.SolverResult.

(** What a run of returned calls keeps and what it adds up. *)
Lemma run_stepped (depth steps : nat) (s0 s' : Engine.Model) :
  Engine.run solver depth steps s0 = Ok s' ->
  Engine.callable s0 ->
  Engine._failed_to_converge s0 = false ->
  Engine.callable s' /\
  Engine._failed_to_converge s' = false /\
  Engine.same_settings s0 s' /\
  Engine.idx s' = Engine.idx s0 + Z.of_nat steps /\
  (exists ts,
     Engine.tvec s' = Engine.tvec s0 ++ ts /\ length ts = steps /\
     Forall (fun x => x <= Engine.final_t s0) ts) /\
  (exists k,
     (k <= steps)%nat /\
     Engine.adjust_dt (Engine.config s')
     = option_map (drop k) (Engine.adjust_dt (Engine.config s0))) /\
  (exists fs,
     Engine.failed_solves s' = Engine.failed_solves s0 ++ fs /\
     Forall (fun f => Engine.idx s0 < Engine.failed_idx f
                      <= Engine.idx s0 + Z.of_nat steps) fs) /\
  (Engine.use_snes (Engine.config s0) = true ->
   exists nls ls,
     Engine.idx_nl s' = Engine.idx_nl s0 ++ nls /\ length nls = steps /\
     Engine.idx_l s' = Engine.idx_l s0 ++ ls /\ length ls = steps) /\
  (Engine.use_snes (Engine.config s0) = false ->
   Engine.idx_nl s' = Engine.idx_nl s0 /\
   Engine.idx_l s' = Engine.idx_l s0 /\
   Engine.failed_solves s' = Engine.failed_solves s0).
Proof.
  revert s0.
  induction steps as [|steps IH]; intros s0 H Hcall Hflag; simpl in H.
  - injection H as <-.
    split; [exact Hcall|]. split; [exact Hflag|].
    split; [unfold Engine.same_settings; now repeat split|].
    split; [simpl; lia|].
    split; [exists []; rewrite app_nil_r; now repeat split|].
    split.
    { exists 0%nat. split; [lia|].
      destruct (Engine.adjust_dt _); [simpl; now rewrite drop_0|reflexivity]. }
    split; [exists []; rewrite app_nil_r; now split|].
    split.
    + intros _. exists [], []. rewrite !app_nil_r. now repeat split.
    + intros _. now repeat split.
  - apply bind_Ok in H as (s1 & Hs1 & H).
    pose proof (monolithic_solve_one_more_step solver depth s0 s1 Hs1
                  (proj1 (proj2 Hcall))) as (d & Hd & Ht1 & Htv1 & _).
    apply monolithic_solve_stepped_once in Hs1; [|exact Hcall].
    destruct Hs1 as (Hset & Hlast1 & Hfin1 & Hidx1 & Hq1 & _
                     & (fs1 & Hfs1 & Hall1) & Hsnes1 & Hnosnes1).
    destruct Hset as (S1 & S2 & S3 & S4 & S5 & S6).
    assert (Hflag1 : Engine._failed_to_converge s1 = false).
    { destruct (Engine.use_snes (Engine.config s0)) eqn:Hs.
      - now destruct (Hsnes1 eq_refl).
      - destruct (Hnosnes1 eq_refl) as (-> & _). exact Hflag. }
    assert (Hcall1 : Engine.callable s1).
    { destruct Hcall as (Hvalid & _ & _). split; [|split].
      - rewrite <- Hvalid. now apply valid_precision_same.
      - exact Hlast1.
      - rewrite Hflag1. discriminate. }
    destruct (IH s1 H Hcall1 Hflag1)
      as (Hc' & Hf' & Hset' & Hidx' & (ts & Hts & Hlen & Hle)
          & (k & Hk & Hq') & (fs & Hfs & Hall) & Hsnes' & Hnosnes').
    destruct Hset' as (T1 & T2 & T3 & T4 & T5 & T6).
    split; [exact Hc'|]. split; [exact Hf'|].
    split.
    { unfold Engine.same_settings. rewrite T1, T2, T3, T4, T5, T6.
      now repeat split. }
    split; [rewrite Hidx', Hidx1; lia|].
    split.
    { exists ((Engine.t s0 + d) :: ts). rewrite Hts, Htv1, <- app_assoc.
      split; [reflexivity|]. split; [simpl; lia|].
      constructor.
      - rewrite <- Ht1, <- S1. exact Hfin1.
      - rewrite <- S1. exact Hle. }
    split.
    { destruct Hq1 as [Hsame|(c & rest & Hc & Hrest)].
      - exists k. split; [lia|]. now rewrite Hq', Hsame.
      - exists (S k). split; [lia|]. rewrite Hq', Hrest, Hc. reflexivity. }
    split.
    { exists (fs1 ++ fs). rewrite Hfs, Hfs1, <- app_assoc.
      split; [reflexivity|]. apply Forall_app. split.
      - eapply Forall_impl; [exact Hall1|]. intros f Hf. simpl in Hf. lia.
      - eapply Forall_impl; [exact Hall|]. intros f Hf. simpl in Hf. lia. }
    split.
    + intros Hs. destruct (Hsnes1 Hs) as (_ & n & l & Hn & Hl).
      destruct (Hsnes' ltac:(congruence))
        as (nls & ls & Hnls & Hlen1 & Hls & Hlen2).
      exists (n :: nls), (l :: ls).
      rewrite Hnls, Hls, Hn, Hl, <- !app_assoc.
      repeat split; simpl; lia.
    + intros Hs. destruct (Hnosnes1 Hs) as (_ & Hn & Hl & Hf).
      destruct (Hnosnes' ltac:(congruence)) as (Hn' & Hl' & Hff).
      repeat split; congruence.
Qed.

End Runs.

Lemma initial_model_callable (cfg : Engine.SolverConfig) (n : nat)
    (u0 : list Engine.vector) (params : list Engine.parameter)
    (s0 : Engine.Model) :
  Engine.initialize cfg n u0 params = Ok s0 ->
  s0 = Engine.initial_model cfg n u0 params /\
  Engine.callable s0 /\ Engine._failed_to_converge s0 = false.
Proof.
  unfold Engine.initialize.
  destruct (Engine.valid_precision cfg) eqn:Hvalid; [|discriminate].
  intros [= <-]. split; [reflexivity|]. split; [|reflexivity].
  unfold Engine.callable. split; [exact Hvalid|]. split; [reflexivity|].
  discriminate.
Qed.

(** X6: along every run from the initial model the final time stays what
    [initialize] made of the configured one, and no accepted time lies
    beyond it, whatever retries happened on the way; and once the clock
    has reached the final time, a fresh call of [monolithic_solve] never
    returns: [dt] is clipped to zero or less, which the guard on [dt]
    rejects. *)
Theorem X6_clock_stays_within_final_time :
  (forall solver depth steps cfg n u0 params s0 s',
     Engine.initialize cfg n u0 params = Ok s0 ->
     Engine.run solver depth steps s0 = Ok s' ->
     Engine.final_t s'
     = Decimal.rounded_decimal (Engine.time_precision cfg)
         (Engine.final_t_config cfg) /\
     Forall (fun x => x <= Engine.final_t s') (tail (Engine.tvec s'))) /\
  (forall solver depth self s',
     Engine._failed_to_converge self = false ->
     Engine.final_t self <= Engine.t self ->
     Engine.monolithic_solve solver depth self <> Ok s').
Proof.
  split.
  - intros solver depth steps cfg n u0 params s0 s' Hinit Hrun.
    apply initial_model_callable in Hinit as (-> & Hcall & Hflag).
    apply run_stepped in Hrun; [|exact Hcall|exact Hflag].
    destruct Hrun as (_ & _ & (Hfin & _) & _ & (ts & Hts & _ & Hle) & _).
    split; [rewrite Hfin; reflexivity|].
    rewrite Hts, Hfin. exact Hle.
  - intros solver depth self s' Hflag Hdone H.
    destruct depth as [|depth]; [discriminate|].
    cbn [Engine.monolithic_solve] in H.
    apply bind_Ok in H as (s1 & Hbegin & _).
    apply begin_step_facts in Hbegin as (d & Hd & Hrest).
    destruct Hrest as (_ & _ & _ & _ & _ & _ & _ & _ & _ & _ & _ & _ & _ & _
                       & _ & _ & _ & Hfalse).
    specialize (Hfalse Hflag). lia.
Qed.

Lemma X6_clock_stays_within_final_time_witness :
  Forall (fun x => x <= 2000000)
    (tail (Engine.tvec Engine.after_three_steps)) /\
  Engine.monolithic_solve Engine.positive_solver 1
    (Engine.with_t 2000000 Engine.running_example)
  <> Ok Engine.running_example.
Proof.
  assert (Hrun : Engine.run Engine.positive_solver 3 3 Engine.initial_example
                 = Ok Engine.after_three_steps)
    by (vm_compute; reflexivity).
  split.
  - exact (proj2 (proj1 X6_clock_stays_within_final_time
                    Engine.positive_solver 3%nat 3%nat
                    (Engine.example_config (Float.literal 2) None) 1%nat
                    Engine.two_unknowns [] Engine.initial_example
                    Engine.after_three_steps eq_refl Hrun)).
  - apply (proj2 X6_clock_stays_within_final_time).
    + reflexivity.
    + vm_compute. discriminate.
Defined.

(** X7: along every run of [steps] returned calls from the initial model,
    [idx] counts the accepted steps, whatever the number of retries; the
    retries recorded in [failed_solves] carry step numbers between [1] and
    [steps]; on the SNES path the logs of nonlinear and linear iteration
    counts hold one entry per accepted step, and on the other path the logs
    and [failed_solves] stay empty. The flag of a failed attempt is down
    again after every returned call. *)
Theorem X7_step_counter_and_logs :
  forall solver depth steps cfg n u0 params s0 s',
    Engine.initialize cfg n u0 params = Ok s0 ->
    Engine.run solver depth steps s0 = Ok s' ->
    Engine.idx s' = Z.of_nat steps /\
    Engine._failed_to_converge s' = false /\
    length (Engine.tvec s') = S steps /\
    Forall (fun f => 1 <= Engine.failed_idx f <= Z.of_nat steps)
      (Engine.failed_solves s') /\
    (Engine.use_snes cfg = true ->
     length (Engine.idx_nl s') = steps /\ length (Engine.idx_l s') = steps) /\
    (Engine.use_snes cfg = false ->
     Engine.idx_nl s' = [] /\ Engine.idx_l s' = [] /\
     Engine.failed_solves s' = []).
Proof.
  intros solver depth steps cfg n u0 params s0 s' Hinit Hrun.
  apply initial_model_callable in Hinit as (-> & Hcall & Hflag).
  apply run_stepped in Hrun; [|exact Hcall|exact Hflag].
  destruct Hrun as (_ & Hf & _ & Hidx & (ts & Hts & Hlen & _) & _
                    & (fs & Hfs & Hall) & Hsnes & Hnosnes).
  cbn [Engine.initial_model Engine.idx Engine.tvec Engine.failed_solves
       Engine.idx_nl Engine.idx_l Engine.config] in *.
  split; [lia|]. split; [exact Hf|].
  split; [rewrite Hts; simpl; lia|].
  split.
  { rewrite Hfs. simpl. eapply Forall_impl; [exact Hall|].
    intros f Hf'. simpl in Hf'. lia. }
  split.
  - intros Hs. destruct (Hsnes Hs) as (nls & ls & -> & Hn & -> & Hl).
    simpl. now split.
  - intros Hs. exact (Hnosnes Hs).
Qed.

Lemma X7_step_counter_and_logs_witness :
  Engine.idx Engine.after_three_steps = 3 /\
  length (Engine.idx_nl Engine.after_three_steps) = 3%nat.
Proof.
  assert (Hrun : Engine.run Engine.positive_solver 3 3 Engine.initial_example
                 = Ok Engine.after_three_steps)
    by (vm_compute; reflexivity).
  destruct (X7_step_counter_and_logs Engine.positive_solver 3%nat 3%nat
              (Engine.example_config (Float.literal 2) None) 1%nat
              Engine.two_unknowns [] Engine.initial_example
              Engine.after_three_steps eq_refl Hrun)
    as (Hidx & _ & _ & _ & Hsnes & _).
  split; [exact Hidx|]. exact (proj1 (Hsnes eq_refl)).
Defined.

(** X8: the checkpoint queue is only ever consumed from the front: a
    returned call of [monolithic_solve] leaves the queue as it was or
    without its first entry, however many retries it made, and a retry
    leaves it alone; after a run of [steps] returned calls from the initial
    model the queue is the configured one without its first [k] entries,
    for some [k <= steps]. *)
Theorem X8_checkpoint_queue :
  (forall solver depth self s',
     Engine.callable self ->
     Engine.monolithic_solve solver depth self = Ok s' ->
     Engine.queue_advanced self s' /\
     (Engine._failed_to_converge self = true ->
      Engine.adjust_dt (Engine.config s')
      = Engine.adjust_dt (Engine.config self))) /\
  (forall solver depth steps cfg n u0 params s0 s',
     Engine.initialize cfg n u0 params = Ok s0 ->
     Engine.run solver depth steps s0 = Ok s' ->
     exists k,
       (k <= steps)%nat /\
       Engine.adjust_dt (Engine.config s')
       = option_map (drop k) (Engine.adjust_dt cfg)).
Proof.
  split.
  - intros solver depth self s' Hcall H.
    apply monolithic_solve_stepped_once in H; [|exact Hcall].
    destruct H as (_ & _ & _ & _ & Hq & Hq' & _). now split.
  - intros solver depth steps cfg n u0 params s0 s' Hinit Hrun.
    apply initial_model_callable in Hinit as (-> & Hcall & Hflag).
    apply run_stepped in Hrun; [|exact Hcall|exact Hflag].
    destruct Hrun as (_ & _ & _ & _ & _ & Hq & _). exact Hq.
Qed.

Lemma X8_checkpoint_queue_witness :
  Engine.adjust_dt (Engine.config Engine.after_checkpoint) = Some [] /\
  exists k,
    (k <= 3)%nat /\
    Engine.adjust_dt (Engine.config Engine.after_checkpoint)
    = option_map (drop k)
        (Some [(Float.literal (1 # 10), Float.literal (1 # 100))]).
Proof.
  assert (Hrun : Engine.run Engine.positive_solver 3 3
                   Engine.checkpointed_start
                 = Ok Engine.after_checkpoint)
    by (vm_compute; reflexivity).
  split; [vm_compute; reflexivity|].
  exact (proj2 X8_checkpoint_queue Engine.positive_solver 3%nat 3%nat
           (Engine.example_config (Float.literal 2)
              (Some [(Float.literal (1 # 10), Float.literal (1 # 100))]))
           1%nat Engine.two_unknowns [] Engine.checkpointed_start
           Engine.after_checkpoint eq_refl Hrun).
Defined.

(** ** The two solver paths *)

(** X9: on the dolfin path (no SNES) a step is accepted as the solver
    leaves it, whether or not it converged and whatever the sign of the
    solution: the call returns with the solver's vectors as the current and
    the previous solution, logs no iteration counts, records no failed
    solve and leaves the failure flag alone. *)
Theorem X9_dolfin_path_accepts (solver : Engine.Model -> Engine.SolverResult)
    (depth : nat) (self s1 : Engine.Model) :
  Engine.begin_step self = Ok s1 ->
  Engine.use_snes (Engine.config s1) = false ->
  Engine.sized self ->
  length (Engine.sol_u (solver s1)) = Engine.num_active_compartments s1 ->
  exists s',
    Engine.monolithic_solve solver (S depth) self = Ok s' /\
    Engine.u_u s' = Engine.sol_u (solver s1) /\
    Engine.u_n s' = Engine.sol_u (solver s1) /\
    Engine.t s' = Engine.t s1 /\
    Engine.tvec s' = Engine.tvec s1 /\
    Engine.idx_nl s' = Engine.idx_nl self /\
    Engine.idx_l s' = Engine.idx_l self /\
    Engine.failed_solves s' = Engine.failed_solves self /\
    Engine._failed_to_converge s' = Engine._failed_to_converge self.
Proof.
  intros Hbegin Hsnes [Hu Hn] Hlen.
  pose proof (begin_step_facts _ _ Hbegin)
    as (d & _ & _ & _ & _ & _ & _ & _ & Hnl & Hl & Hflag & Hfs & Hnum & _).
  destruct (begin_step_stepped _ _ Hbegin) as (d' & Hstep).
  destruct Hstep as (_ & _ & _ & _ & _ & _ & _ & _ & _ & _ & _ & Hu1 & Hn1 & _).
  eexists. split.
  - cbn [Engine.monolithic_solve]. rewrite Hbegin. cbn [Py.bind].
    rewrite Hsnes. apply update_solution_accept.
    unfold Engine.sized.
    cbn [Engine.u_u Engine.u_n Engine.num_active_compartments
         Engine.with_u_u].
    split; congruence.
  - cbn [Engine.u_u Engine.u_n Engine.t Engine.tvec Engine.idx_nl
         Engine.idx_l Engine.failed_solves Engine._failed_to_converge
         Engine.with_u_n Engine.with_u_u].
    repeat split; assumption.
Qed.

Lemma X9_dolfin_path_accepts_witness :
  exists s',
    Engine.monolithic_solve Engine.stuck_solver 1 Engine.dolfin_example
    = Ok s' /\
    Engine.u_n s' = [[Float.of_Q (-1 # 1000); Float.of_Q 3]] /\
    Engine.failed_solves s' = [].
Proof.
  assert (Hbegin : exists s1, Engine.begin_step Engine.dolfin_example = Ok s1).
  { eexists. vm_compute. reflexivity. }
  destruct Hbegin as [s1 Hbegin].
  assert (Hs1 : s1 = Engine.forward_time_step
                       (Engine.with_idx 1 Engine.dolfin_example)).
  { assert (H : Engine.begin_step Engine.dolfin_example
                = Ok (Engine.forward_time_step
                        (Engine.with_idx 1 Engine.dolfin_example)))
      by (vm_compute; reflexivity).
    congruence. }
  destruct (X9_dolfin_path_accepts Engine.stuck_solver 0 Engine.dolfin_example
              s1 Hbegin)
    as (s' & Hs' & _ & Hn & _ & _ & _ & _ & Hfs & _).
  - subst s1. reflexivity.
  - split; reflexivity.
  - subst s1. reflexivity.
  - exists s'. split; [exact Hs'|]. split; [exact Hn | exact Hfs].
Defined.



(** ** Retries come to an end *)

(** The exceptions the methods raise themselves: [RecursionError] is the
    interpreter's, and none of them raises it. *)
Create HintDb norec.

Ltac norec :=
  repeat first
    [ progress cbn [Py.bind]
    | match goal with
      | |- Raise _ = Raise _ -> _ =>
          intros [= <-]; first [discriminate | eauto with norec]
      | |- Ok _ = Raise _ -> _ => discriminate
      | |- Py.bind (match ?x with _ => _ end) _ = Raise _ -> _ =>
          let E := fresh "E" in destruct x eqn:E
      | |- Py.bind (Py.bind ?m _) _ = Raise _ -> _ =>
          let E := fresh "E" in destruct m eqn:E
      | |- Py.bind ?m _ = Raise _ -> _ =>
          let E := fresh "E" in destruct m eqn:E
      | |- (if ?b then _ else _) = Raise _ -> _ => destruct b
      | |- (match ?x with _ => _ end) = Raise _ -> _ =>
          let E := fresh "E" in destruct x eqn:E
      | |- _ = Raise _ -> _ => solve [intros ?; eauto with norec]
      end ].

Lemma index_norec {A : Type} (l : list A) (i : Z) (e : exn) :
  Py.index l i = Raise e -> e <> RecursionError.
Proof. unfold Py.index. norec. Qed.
#[local] Hint Resolve index_norec : norec.

Lemma pop_norec {A : Type} (l : list A) (e : exn) :
  Py.pop l = Raise e -> e <> RecursionError.
Proof. unfold Py.pop. norec. Qed.
#[local] Hint Resolve pop_norec : norec.

Lemma read_dataset_norec (h5 : list Engine.vector) (i : nat) (e : exn) :
  Engine.read_dataset h5 i = Raise e -> e <> RecursionError.
Proof. unfold Engine.read_dataset. norec. Qed.
#[local] Hint Resolve read_dataset_norec : norec.

Lemma average_norec (v1 v2 : Engine.vector) (e : exn) :
  Engine.average v1 v2 = Raise e -> e <> RecursionError.
Proof. unfold Engine.average. norec. Qed.
#[local] Hint Resolve average_norec : norec.

Lemma decimal_gt_float_norec (x : Q) (y : Float.float) (e : exn) :
  Engine.decimal_gt_float x y = Raise e -> e <> RecursionError.
Proof. unfold Engine.decimal_gt_float. norec. Qed.
#[local] Hint Resolve decimal_gt_float_norec : norec.

Lemma decimal_lt_float_norec (x : Q) (y : Float.float) (e : exn) :
  Engine.decimal_lt_float x y = Raise e -> e <> RecursionError.
Proof. unfold Engine.decimal_lt_float. norec. Qed.
#[local] Hint Resolve decimal_lt_float_norec : norec.

Lemma load_vector_norec (self : Engine.Model) (h5 : list Engine.vector)
    (tVec : list Float.float) (e : exn) :
  Engine.load_vector self h5 tVec = Raise e -> e <> RecursionError.
Proof. unfold Engine.load_vector. norec. Qed.
#[local] Hint Resolve load_vector_norec : norec.

Lemma reorder_norec (v : Engine.vector) (m : list nat) (e : exn) :
  Engine.reorder v m = Raise e -> e <> RecursionError.
Proof.
  revert e. induction m as [|i m IH]; intros e; cbn [Engine.reorder]; norec.
Qed.
#[local] Hint Resolve reorder_norec : norec.

Lemma np_interp_norec (x : Float.float)
    (data : list (Float.float * Float.float)) (l r : Float.float) (e : exn) :
  Engine.np_interp x data l r = Raise e -> e <> RecursionError.
Proof. unfold Engine.np_interp. norec. Qed.
#[local] Hint Resolve np_interp_norec : norec.

Lemma assign_new_value_norec (tf v : Float.float) (p : Engine.parameter)
    (e : exn) :
  Engine.assign_new_value tf v p = Raise e -> e <> RecursionError.
Proof. unfold Engine.assign_new_value. norec. Qed.
#[local] Hint Resolve assign_new_value_norec : norec.

Lemma update_parameter_norec (self : Engine.Model) (p : Engine.parameter)
    (e : exn) :
  Engine.update_parameter self p = Raise e -> e <> RecursionError.
Proof. unfold Engine.update_parameter. norec. Qed.
#[local] Hint Resolve update_parameter_norec : norec.

Lemma update_parameters_norec (self : Engine.Model)
    (ps : list Engine.parameter) (e : exn) :
  Engine.update_parameters self ps = Raise e -> e <> RecursionError.
Proof.
  revert e. induction ps as [|p ps IH]; intros e;
    cbn [Engine.update_parameters]; norec.
Qed.
#[local] Hint Resolve update_parameters_norec : norec.

Lemma assign_range_norec (range : list nat) (dst src : list Engine.vector)
    (e : exn) :
  Engine.assign_range range dst src = Raise e -> e <> RecursionError.
Proof.
  revert dst e. induction range as [|i range IH]; intros dst e;
    cbn [Engine.assign_range]; unfold Engine.assign_sub; norec.
Qed.
#[local] Hint Resolve assign_range_norec : norec.

Lemma update_solution_norec (ks : list Engine.ukey) (k : Engine.ukey)
    (self : Engine.Model) (e : exn) :
  Engine.update_solution ks k self = Raise e -> e <> RecursionError.
Proof.
  revert self e. induction ks as [|k0 ks IH]; intros self e;
    cbn [Engine.update_solution]; norec.
Qed.
#[local] Hint Resolve update_solution_norec : norec.

Lemma reset_timestep_norec (r : Z) (self : Engine.Model) (e : exn) :
  Engine.reset_timestep r self = Raise e -> e <> RecursionError.
Proof. unfold Engine.reset_timestep, Engine.set_dt_float. norec. Qed.
#[local] Hint Resolve reset_timestep_norec : norec.

Lemma rollback_norec (r : Engine.SolverResult) (self : Engine.Model)
    (e : exn) :
  Engine.rollback r self = Raise e -> e <> RecursionError.
Proof. unfold Engine.rollback. norec. Qed.
#[local] Hint Resolve rollback_norec : norec.

Lemma adjust_dt_if_prescribed_norec (self : Engine.Model) (e : exn) :
  Engine.adjust_dt_if_prescribed self = Raise e -> e <> RecursionError.
Proof. unfold Engine.adjust_dt_if_prescribed. cbv zeta. norec. Qed.
#[local] Hint Resolve adjust_dt_if_prescribed_norec : norec.

Lemma choose_dt_norec (self : Engine.Model) (e : exn) :
  Engine.choose_dt self = Raise e -> e <> RecursionError.
Proof. unfold Engine.choose_dt, Engine.propose_dt. norec. Qed.
#[local] Hint Resolve choose_dt_norec : norec.

Lemma update_time_dependent_parameters_norec (self : Engine.Model)
    (e : exn) :
  Engine.update_time_dependent_parameters self = Raise e ->
  e <> RecursionError.
Proof. unfold Engine.update_time_dependent_parameters. norec. Qed.
#[local] Hint Resolve update_time_dependent_parameters_norec : norec.

Lemma begin_step_norec (self : Engine.Model) (e : exn) :
  Engine.begin_step self = Raise e -> e <> RecursionError.
Proof. unfold Engine.begin_step. cbv zeta. norec. Qed.
#[local] Hint Resolve begin_step_norec : norec.

Lemma any_too_negative_norec (range : list nat) (u : list Engine.vector)
    (e : exn) :
  Engine.any_too_negative range u = Raise e -> e <> RecursionError.
Proof.
  revert e. induction range as [|i range IH]; intros e;
    cbn [Engine.any_too_negative]; norec.
Qed.
#[local] Hint Resolve any_too_negative_norec : norec.

Lemma clamp_negative_norec (self : Engine.Model) (e : exn) :
  Engine.clamp_negative self = Raise e -> e <> RecursionError.
Proof.
  unfold Engine.clamp_negative.
  assert (H : forall range u e,
            Engine.clamp_range range u = Raise e -> e <> RecursionError).
  { clear. induction range as [|i range IH]; intros u e;
      cbn [Engine.clamp_range]; norec. }
  norec.
Qed.
#[local] Hint Resolve clamp_negative_norec : norec.

Section Termination.

Variable solver : Engine.Model -> Engine.SolverResult.
Hypothesis stuck : Engine.never_converges solver.

(** One attempt of a solver that never converges: the call raises, or goes
    on as a retry with a smaller step. *)
Lemma attempt_outcome (self : Engine.Model) :
  Engine.use_snes (Engine.config self) = true ->
  Engine.valid_precision (Engine.config self) = true ->
  (exists e,
     e <> RecursionError /\
     forall depth,
       Engine.monolithic_solve solver (S depth) self = Raise e) \/
  (exists s3,
     (forall depth,
        Engine.monolithic_solve solver (S depth) self
        = Engine.monolithic_solve solver depth s3) /\
     Engine._failed_to_converge s3 = true /\
     Engine.use_snes (Engine.config s3) = true /\
     Engine.valid_precision (Engine.config s3) = true /\
     0 <= Engine.dt s3 /\
     (Engine._failed_to_converge self = true ->
      Engine.dt s3 < Engine.dt self)).
Proof.
  intros Hsnes Hvalid.
  destruct (Engine.begin_step self) as [s1|e] eqn:Hbegin.
  2:{ left. exists e. split; [eauto with norec|].
      intros depth. cbn [Engine.monolithic_solve]. now rewrite Hbegin. }
  pose proof (begin_step_facts _ _ Hbegin)
    as (d & Hd & Ht1 & Hdt1 & Hfin1 & Htv1 & Hdv1 & Hidx1 & Hnl1 & Hl1
        & Hflag1 & Hfs1 & Hnum1 & Hprec1 & Hsnes1 & Hneg1 & Hrestart1
        & Hqueue1 & Htrue1 & Hfalse1).
  set (r := solver s1) in *.
  assert (Hconv : Engine.converged r = false) by apply stuck.
  pose proof (record_solve_facts r s1)
    as (Rc & Rt & Rdt & Rfin & Rtv & Rdv & Ridx & Rnl & Rl & Rreset & Rflag
        & Rfs & Rnum & Rpc).
  assert (Hs1 : Engine.use_snes (Engine.config s1) = true) by congruence.
  assert (Hretry : forall X,
            Engine.same_but_solution (Engine.record_solve r s1) X ->
            (exists e,
               e <> RecursionError /\ Engine.rollback r X = Raise e) \/
            (exists s3,
               Engine.rollback r X = Ok s3 /\
               Engine._failed_to_converge s3 = true /\
               Engine.use_snes (Engine.config s3) = true /\
               Engine.valid_precision (Engine.config s3) = true /\
               0 <= Engine.dt s3 /\
               (Engine._failed_to_converge self = true ->
                Engine.dt s3 < Engine.dt self))).
  { intros X HX.
    destruct (Engine.rollback r X) as [s3|e] eqn:Hroll.
    2:{ left. exists e. split; [eauto with norec | reflexivity]. }
    right. exists s3. split; [reflexivity|].
    destruct HX as (Xc & _ & _ & _ & _ & _ & Xdv & _).
    apply rollback_facts in Hroll
      as (tv & dv & t_prev & x & d' & q & nls & ls & nl & l
          & _ & Kdv & _ & _ & Kq & Kc & _ & Kdt & _ & _ & _
          & _ & _ & _ & _ & Kflag & _).
    rewrite Xdv, Rdv, Hdv1 in Kdv. apply app_inj_tail in Kdv as [_ <-].
    assert (Hprec : Engine.time_precision (Engine.config X)
                    = Engine.time_precision (Engine.config self))
      by congruence.
    assert (Hsmall : 0 <= q < d).
    { apply (shrunk_dt_smaller X d q); [|exact Hd|exact Kq].
      rewrite (valid_precision_same _ _ Hprec). exact Hvalid. }
    split; [exact Kflag|]. split; [congruence|].
    split.
    { rewrite <- Hvalid. apply valid_precision_same. congruence. }
    split; [lia|].
    intros Hflag. destruct (Htrue1 Hflag) as (<- & _). lia. }
  assert (Hafter : forall X,
            Engine.same_but_solution (Engine.record_solve r s1) X ->
            forall body : nat -> result Engine.Model,
              (forall depth,
                 body depth
                 = let* s3 := Engine.rollback r X
                   in Engine.monolithic_solve solver depth s3) ->
              (exists e, e <> RecursionError /\
                         forall depth, body depth = Raise e) \/
              (exists s3,
                 (forall depth,
                    body depth = Engine.monolithic_solve solver depth s3) /\
                 Engine._failed_to_converge s3 = true /\
                 Engine.use_snes (Engine.config s3) = true /\
                 Engine.valid_precision (Engine.config s3) = true /\
                 0 <= Engine.dt s3 /\
                 (Engine._failed_to_converge self = true ->
                  Engine.dt s3 < Engine.dt self))).
  { intros X HX body Hbody.
    destruct (Hretry X HX) as [(e & He & Hroll)|(s3 & Hroll & Hrest)].
    - left. exists e. split; [exact He|]. intros depth.
      now rewrite Hbody, Hroll.
    - right. exists s3. split; [|exact Hrest]. intros depth.
      now rewrite Hbody, Hroll. }
  assert (Hrefl : Engine.same_but_solution (Engine.record_solve r s1)
                    (Engine.record_solve r s1)).
  { unfold Engine.same_but_solution. repeat split. }
  assert (Hunfold : forall depth,
            Engine.monolithic_solve solver (S depth) self
            = if Engine.reset_timestep_for_negative_solution
                   (Engine.config s1)
              then
                let* negVals :=
                  Engine.any_too_negative
                    (seq 0 (Engine.num_active_compartments
                              (Engine.record_solve r s1)))
                    (Engine.u_u (Engine.record_solve r s1)) in
                if negVals
                then let* s3 := Engine.rollback r (Engine.record_solve r s1)
                     in Engine.monolithic_solve solver depth s3
                else
                  let* s2 := Engine.clamp_negative (Engine.record_solve r s1) in
                  if Engine.attempt_timestep_restart_on_divergence
                       (Engine.config s2)
                  then let* s3 := Engine.rollback r s2
                       in Engine.monolithic_solve solver depth s3
                  else Raise RuntimeError
              else
                if Engine.attempt_timestep_restart_on_divergence
                     (Engine.config (Engine.record_solve r s1))
                then let* s3 := Engine.rollback r (Engine.record_solve r s1)
                     in Engine.monolithic_solve solver depth s3
                else Raise RuntimeError).
  { intros depth. cbn [Engine.monolithic_solve]. rewrite Hbegin.
    cbn [Py.bind]. fold r. rewrite Hs1, !record_solve_config, Hconv.
    cbn [negb].
    destruct (Engine.reset_timestep_for_negative_solution _);
      [|destruct (Engine.attempt_timestep_restart_on_divergence
                    (Engine.config s1)); reflexivity].
    destruct (Engine.any_too_negative _ _) as [[|]|e]; cbn [Py.bind];
      try reflexivity.
    destruct (Engine.clamp_negative _) as [s2|e]; cbn [Py.bind];
      [|reflexivity].
    destruct (Engine.attempt_timestep_restart_on_divergence
                (Engine.config s2)); reflexivity. }
  destruct (Engine.reset_timestep_for_negative_solution (Engine.config s1)).
  - destruct (Engine.any_too_negative
                (seq 0 (Engine.num_active_compartments
                          (Engine.record_solve r s1)))
                (Engine.u_u (Engine.record_solve r s1)))
      as [[|]|e] eqn:Hany.
    + apply (Hafter _ Hrefl). intros depth. rewrite Hunfold. reflexivity.
    + destruct (Engine.clamp_negative (Engine.record_solve r s1))
        as [s2|e] eqn:Hclamp.
      * pose proof (clamp_negative_facts _ _ Hclamp) as HX.
        destruct (Engine.attempt_timestep_restart_on_divergence
                    (Engine.config s2)) eqn:Hrestart.
        -- apply (Hafter _ HX). intros depth. rewrite Hunfold.
           cbn [Py.bind]. now rewrite Hrestart.
        -- left. exists RuntimeError. split; [discriminate|].
           intros depth. rewrite Hunfold. cbn [Py.bind]. now rewrite Hrestart.
      * left. exists e. split; [eauto with norec|].
        intros depth. rewrite Hunfold. reflexivity.
    + left. exists e. split; [eauto with norec|].
      intros depth. rewrite Hunfold. reflexivity.
  - destruct (Engine.attempt_timestep_restart_on_divergence
                (Engine.config (Engine.record_solve r s1))) eqn:Hrestart.
    + apply (Hafter _ Hrefl). intros depth. rewrite Hunfold. reflexivity.
    + left. exists RuntimeError. split; [discriminate|].
      intros depth. rewrite Hunfold. reflexivity.
Qed.

(** Retries end: the step shrinks with every one of them. *)
Lemma retry_terminates (n : nat) (self : Engine.Model) :
  Engine._failed_to_converge self = true ->
  Engine.use_snes (Engine.config self) = true ->
  Engine.valid_precision (Engine.config self) = true ->
  Engine.dt self <= Z.of_nat n ->
  exists N e,
    e <> RecursionError /\
    forall depth, (N <= depth)%nat ->
                  Engine.monolithic_solve solver depth self = Raise e.
Proof.
  revert self. induction n as [|n IH]; intros self Hflag Hsnes Hvalid Hdt.
  - destruct (attempt_outcome self Hsnes Hvalid)
      as [(e & He & Hraise)|(s3 & _ & _ & _ & _ & Hpos & Hless)].
    + exists 1%nat, e. split; [exact He|].
      intros [|depth] Hle; [lia | apply Hraise].
    + specialize (Hless Hflag). lia.
  - destruct (attempt_outcome self Hsnes Hvalid)
      as [(e & He & Hraise)|(s3 & Hgo & Hf3 & Hs3 & Hv3 & Hpos & Hless)].
    + exists 1%nat, e. split; [exact He|].
      intros [|depth] Hle; [lia | apply Hraise].
    + specialize (Hless Hflag).
      destruct (IH s3 Hf3 Hs3 Hv3 ltac:(lia)) as (N & e & He & Hall).
      exists (S N), e. split; [exact He|].
      intros [|depth] Hle; [lia|]. rewrite Hgo. apply Hall. lia.
Qed.

Lemma stuck_solver_raises (self : Engine.Model) :
  Engine.use_snes (Engine.config self) = true ->
  Engine.valid_precision (Engine.config self) = true ->
  (forall depth s', Engine.monolithic_solve solver depth self <> Ok s') /\
  exists N e,
    e <> RecursionError /\
    forall depth, (N <= depth)%nat ->
                  Engine.monolithic_solve solver depth self = Raise e.
Proof.
  intros Hsnes Hvalid. split.
  - intros depth. revert self Hsnes Hvalid.
    induction depth as [|depth IH]; intros self Hsnes Hvalid s';
      [discriminate|].
    destruct (attempt_outcome self Hsnes Hvalid)
      as [(e & _ & Hraise)|(s3 & Hgo & _ & Hs3 & Hv3 & _)].
    + rewrite Hraise. discriminate.
    + rewrite Hgo. now apply IH.
  - destruct (attempt_outcome self Hsnes Hvalid)
      as [(e & He & Hraise)|(s3 & Hgo & Hf3 & Hs3 & Hv3 & Hpos & _)].
    + exists 1%nat, e. split; [exact He|].
      intros [|depth] Hle; [lia | apply Hraise].
    + destruct (retry_terminates (Z.to_nat (Engine.dt s3)) s3 Hf3 Hs3 Hv3
                  ltac:(lia)) as (N & e & He & Hall).
      exists (S N), e. split; [exact He|].
      intros [|depth] Hle; [lia|]. rewrite Hgo. apply Hall. lia.
Qed.

End Termination.

(** X11: with a solver that never converges, a call of [monolithic_solve]
    on the SNES path never returns, and its retries come to an end: every
    retry runs at a strictly smaller step, so that after finitely many of
    them the call raises an exception of its own (the guard on [dt], a
    [RuntimeError], ...) and not the interpreter's [RecursionError],
    whatever the recursion limit beyond that number. *)
Theorem X11_retries_terminate
    (solver : Engine.Model -> Engine.SolverResult) (self : Engine.Model) :
  Engine.never_converges solver ->
  Engine.use_snes (Engine.config self) = true ->
  Engine.valid_precision (Engine.config self) = true ->
  (forall depth s', Engine.monolithic_solve solver depth self <> Ok s') /\
  exists N e,
    e <> RecursionError /\
    forall depth, (N <= depth)%nat ->
                  Engine.monolithic_solve solver depth self = Raise e.
Proof. intros Hstuck. now apply stuck_solver_raises. Qed.

Lemma X11_retries_terminate_witness :
  exists N e,
    e <> RecursionError /\
    forall depth, (N <= depth)%nat ->
                  Engine.monolithic_solve Engine.stuck_solver depth
                    Engine.running_example = Raise e.
Proof.
  exact (proj2 (X11_retries_terminate Engine.stuck_solver
                  Engine.running_example (fun _ => eq_refl) eq_refl
                  eq_refl)).
Defined.

(** ** Tabulated parameters *)

Lemma ltb_not_nan (x y : Float.float) :
  Float.ltb x y = true -> Float.isnan x = false /\ Float.isnan y = false.
Proof. destruct x, y; try discriminate; now split. Qed.

Lemma sub_nan_l (x : Float.float) : Float.sub S754_nan x = S754_nan.
Proof. reflexivity. Qed.

Lemma sub_nan_r (x : Float.float) : Float.sub x S754_nan = S754_nan.
Proof. now destruct x. Qed.

Lemma div_nan_l (x : Float.float) : Float.div S754_nan x = S754_nan.
Proof. reflexivity. Qed.

(** Outside the sampled range [np.interp] answers with [left] or
    [right]. *)
Lemma np_interp_outside (x x0 f0 : Float.float)
    (rest : list (Float.float * Float.float)) (l r : Float.float) :
  Float.ltb x x0 = true
  \/ Float.ltb (fst (List.last ((x0, f0) :: rest) (x0, f0))) x = true ->
  Engine.np_interp x ((x0, f0) :: rest) l r = Ok l
  \/ Engine.np_interp x ((x0, f0) :: rest) l r = Ok r.
Proof.
  intros Hout. unfold Engine.np_interp.
  assert (Hnan : Float.isnan x = false).
  { destruct Hout as [H|H]; apply ltb_not_nan in H; tauto. }
  rewrite Hnan. destruct (Float.ltb x x0); [now left|].
  destruct Hout as [H|H]; [discriminate|]. rewrite H. now right.
Qed.

Lemma np_interp_total (x : Float.float)
    (x0 f0 : Float.float) (rest : list (Float.float * Float.float))
    (l r : Float.float) :
  exists v, Engine.np_interp x ((x0, f0) :: rest) l r = Ok v.
Proof.
  unfold Engine.np_interp.
  destruct (Float.isnan x); [now eexists|].
  destruct (Float.ltb x x0); [now eexists|].
  destruct (Float.ltb _ x); now eexists.
Qed.

(** X12: a time-dependent parameter given by a table is never
    extrapolated. Evaluated directly, a current time before the first or
    after the last sample time makes the update raise [Exception]; with
    pre-integration, a current or previous time outside the table of the
    integral makes it raise [AssertionError], as the interpolation answers
    with NaN there. In both cases nothing is stored. *)
Theorem X12_tables_are_not_extrapolated (self : Engine.Model)
    (p : Engine.parameter) (x0 f0 : Float.float)
    (rest : list (Float.float * Float.float)) :
  Engine.type p = Engine.from_file ->
  Engine.is_time_dependent p = true ->
  let tf := Engine.to_float self (Engine.t self) in
  let tnf := Engine.to_float self (Engine.tn self) in
  let x_last := fst (List.last ((x0, f0) :: rest) (x0, f0)) in
  (Engine.use_preintegration p = false ->
   Engine.sampling_data p = (x0, f0) :: rest ->
   Float.ltb tf x0 = true \/ Float.ltb x_last tf = true ->
   Engine.update_parameter self p = Raise Exception) /\
  (Engine.use_preintegration p = true ->
   Engine.preint_sampling_data p = (x0, f0) :: rest ->
   Float.ltb tf x0 = true \/ Float.ltb x_last tf = true \/
   Float.ltb tnf x0 = true \/ Float.ltb x_last tnf = true ->
   Engine.update_parameter self p = Raise AssertionError).
Proof.
  intros Hty Htd tf tnf x_last. split.
  - intros Hpre Hdata Hout.
    unfold Engine.update_parameter. rewrite Hty, Htd, Hpre, Hdata.
    cbn [negb map fst].
    change (index (x0 :: map fst rest) 0) with (@Ok Float.float x0).
    cbn [Py.bind].
    assert (Hlast : index (x0 :: map fst rest) (-1) = Ok x_last).
    { unfold x_last.
      change (x0 :: map fst rest) with (map fst ((x0, f0) :: rest)).
      destruct (exists_last (l := (x0, f0) :: rest) ltac:(discriminate))
        as (pre & [xl fl] & Heq).
      rewrite Heq, map_app, last_last. cbn [map fst]. apply index_last. }
    rewrite Hlast. cbn [Py.bind]. fold tf.
    destruct Hout as [-> | ->]; [reflexivity|].
    now rewrite orb_true_r.
  - intros Hpre Hdata Hout.
    unfold Engine.update_parameter. rewrite Hty, Htd, Hpre, Hdata.
    cbn [negb]. fold tf tnf.
    destruct (np_interp_total tnf x0 f0 rest S754_nan S754_nan) as [a Ha].
    destruct (np_interp_total tf x0 f0 rest S754_nan S754_nan) as [b Hb].
    rewrite Ha, Hb. cbn [Py.bind].
    apply assign_new_value_nan.
    assert (Hab : a = S754_nan \/ b = S754_nan).
    { destruct Hout as [H|[H|[H|H]]].
      - right.
        destruct (np_interp_outside tf x0 f0 rest S754_nan S754_nan
                    (or_introl H)); congruence.
      - right.
        destruct (np_interp_outside tf x0 f0 rest S754_nan S754_nan
                    (or_intror H)); congruence.
      - left.
        destruct (np_interp_outside tnf x0 f0 rest S754_nan S754_nan
                    (or_introl H)); congruence.
      - left.
        destruct (np_interp_outside tnf x0 f0 rest S754_nan S754_nan
                    (or_intror H)); congruence. }
    destruct Hab as [-> | ->].
    + now rewrite sub_nan_r, div_nan_l.
    + now rewrite sub_nan_l, div_nan_l.
Qed.

Lemma X12_tables_are_not_extrapolated_witness :
  Engine.update_parameter (Engine.stepped_with Engine.nan_table)
    Engine.nan_table = Raise AssertionError.
Proof.
  apply (proj2 (X12_tables_are_not_extrapolated
                  (Engine.stepped_with Engine.nan_table) Engine.nan_table
                  Float.zero Float.zero
                  [(Float.of_Q (55 # 100), Float.of_Q 1)]
                  eq_refl eq_refl) eq_refl eq_refl).
  right. left. vm_compute. reflexivity.
Defined.

(** ** Quantized times *)

Section Quantize.

Local Open Scope Q_scope.

(** [round_half_even] picks the nearest integer, the even one on a tie. *)
Lemma round_half_even_spec (y : Q) :
  let k := Decimal.round_half_even y in
  (inject_Z k - (1 # 2) < y /\ y < inject_Z k + (1 # 2)) \/
  (y == inject_Z k - (1 # 2) /\ Z.even k = true) \/
  (y == inject_Z k + (1 # 2) /\ Z.even k = true).
Proof.
  destruct y as [n d]. unfold Decimal.round_half_even. cbn [Qnum Qden].
  pose proof (Z.div_mod n (Zpos d) ltac:(lia)) as Hdm.
  pose proof (Z.mod_pos_bound n (Zpos d) ltac:(lia)) as Hr.
  set (f := (n / Zpos d)%Z) in *. set (r := (n mod Zpos d)%Z) in *.
  unfold Qlt, Qeq.
  cbn [Qnum Qden inject_Z Qminus Qplus Qopp].
  destruct (Z.compare_spec (2 * r) (Zpos d)) as [He|Hl|Hg].
  - destruct (Z.even f) eqn:Hev.
    + right. right. split; [nia | exact Hev].
    + right. left. split; [nia|].
      rewrite Z.even_add, Hev. reflexivity.
  - left. split; nia.
  - left. split; nia.
Qed.


End Quantize.



(** ** The Jacobian blocks *)

Section JacobianBlocks.

Variable derivative : Blocks.Form -> nat -> Blocks.Form.
Variable compiled : Type.
Variable dolfin_Form : Blocks.SubForm -> result compiled.
Variable Form_2_0 : compiled.
Variable cc_names : list string.
Variable all_meshes : list Blocks.Mesh.

Lemma jacobian_length (Fblock : list Blocks.Form) (n : nat) :
  length (BlockSystem.jacobian derivative Fblock n) = (length Fblock * n)%nat.
Proof.
  induction Fblock as [|Fi rest IH]; [reflexivity|].
  cbn [BlockSystem.jacobian length].
  rewrite length_app, length_map, length_seq, IH. lia.
Qed.

Lemma jacobian_lookup (Fblock : list Blocks.Form) (n i j : nat)
    (Fi : Blocks.Form) :
  Fblock !! i = Some Fi -> (j < n)%nat ->
  BlockSystem.jacobian derivative Fblock n !! (i * n + j)%nat
  = Some (derivative Fi j).
Proof.
  revert i. induction Fblock as [|F0 rest IH]; intros i Hi Hj.
  - discriminate.
  - cbn [BlockSystem.jacobian]. destruct i as [|i].
    + injection Hi as ->. rewrite lookup_app_l
        by (rewrite length_map, length_seq; lia).
      rewrite list_lookup_fmap, lookup_seq_lt by lia. reflexivity.
    + rewrite lookup_app_r by (rewrite length_map, length_seq; lia).
      rewrite length_map, length_seq.
      replace (S i * n + j - n)%nat with (i * n + j)%nat by lia.
      apply IH; assumption.
Qed.

Lemma jacobian_split_by_domain (idx_i idx_j : nat)
    (subs : list (option Blocks.SubForm)) (Js : list compiled)
    (log : list BlockSystem.log_record) Js' log' :
  BlockSystem.split_by_domain compiled dolfin_Form cc_names all_meshes
    idx_i idx_j subs Js log = Ok (Js', log') ->
  exists new, Js' = Js ++ new /\
    Forall2 (fun sub Jf => exists f, sub = Some f /\ dolfin_Form f = Ok Jf)
      subs new.
Proof.
  revert Js log. induction subs as [|sub rest IH]; intros Js log H.
  - injection H as <- <-. exists []. rewrite app_nil_r. split; constructor.
  - cbn [BlockSystem.split_by_domain] in H.
    destruct sub as [f|]; [|discriminate].
    destruct (if Blocks.sub_empty f then _ else _) as [l1|e];
      [|discriminate]. cbn [Py.bind] in H.
    destruct (dolfin_Form f) as [Jf|e] eqn:HJ; [|discriminate].
    cbn [Py.bind] in H. apply IH in H as (new & -> & Hall).
    exists (Jf :: new). rewrite <- app_assoc. split; [reflexivity|].
    constructor; [|exact Hall]. exists f. split; [reflexivity | exact HJ].
Qed.

Lemma jacobian_split_blocks (n idx : nat) (J : list Blocks.Form)
    (Jlist : list (list compiled)) (log : list BlockSystem.log_record)
    Jlist' log' :
  BlockSystem.split_blocks compiled dolfin_Form Form_2_0 cc_names all_meshes
    n idx J Jlist log = Ok (Jlist', log') ->
  exists new, Jlist' = Jlist ++ new /\
    Forall2 (BlockSystem.compiled_block compiled dolfin_Form Form_2_0) J new.
Proof.
  revert idx Jlist log. induction J as [|Ji rest IH]; intros idx Jlist log H.
  - injection H as <- <-. exists []. rewrite app_nil_r. split; constructor.
  - cbn [BlockSystem.split_blocks] in H.
    destruct (Blocks.empty Ji) eqn:He.
    + destruct (Blocks.get_index_name cc_names (idx / n)) as [ci|e];
        [|discriminate].
      destruct (Blocks.get_index_name cc_names (idx mod n)) as [cj|e];
        [|discriminate].
      cbn [Py.bind] in H. apply IH in H as (new & -> & Hall).
      exists ([Form_2_0] :: new). rewrite <- app_assoc.
      split; [reflexivity|]. constructor; [|exact Hall].
      unfold BlockSystem.compiled_block. rewrite He. reflexivity.
    + destruct (BlockSystem.split_by_domain _ _ _ _ _ _ _ _ _)
        as [[Js l1]|e] eqn:Hs; [|discriminate].
      cbn [Py.bind] in H. apply IH in H as (new & -> & Hall).
      apply jacobian_split_by_domain in Hs as (Js1 & -> & HJs).
      exists (Js1 :: new). rewrite <- app_assoc.
      split; [reflexivity|]. constructor; [|exact Hall].
      unfold BlockSystem.compiled_block. rewrite He. exact HJs.
Qed.

Lemma get_block_J_assertion (extracted : list Blocks.Form) (len_u : nat) :
  length extracted <> len_u -> (0 < len_u)%nat ->
  BlockSystem.get_block_J derivative compiled dolfin_Form Form_2_0 cc_names
    all_meshes extracted len_u = Raise AssertionError.
Proof.
  intros Hne Hpos. unfold BlockSystem.get_block_J.
  rewrite jacobian_length.
  destruct (decide _) as [Heq|_]; [|reflexivity].
  exfalso. apply Hne. nia.
Qed.

Lemma get_block_J_layout (extracted : list Blocks.Form) (len_u : nat)
    Jlist log :
  BlockSystem.get_block_J derivative compiled dolfin_Form Form_2_0 cc_names
    all_meshes extracted len_u = Ok (Jlist, log) ->
  length Jlist = (len_u * len_u)%nat /\
  forall i j Fi, extracted !! i = Some Fi -> (j < len_u)%nat ->
    exists Js, Jlist !! (i * len_u + j)%nat = Some Js /\
      BlockSystem.compiled_block compiled dolfin_Form Form_2_0
        (derivative Fi j) Js.
Proof.
  unfold BlockSystem.get_block_J.
  destruct (decide _) as [Hlen|_]; [|discriminate].
  intros H. apply jacobian_split_blocks in H as (new & -> & Hall).
  cbn [app]. pose proof (Forall2_length _ _ _ Hall) as Hl.
  split; [lia|].
  intros i j Fi Hi Hj.
  pose proof (jacobian_lookup extracted len_u i j Fi Hi Hj) as Hlk.
  destruct (Forall2_lookup_l _ _ _ _ _ Hall Hlk) as (Js & HJs & Hc).
  exists Js. split; assumption.
Qed.

Lemma blocks_split_blocks_length (idx : nat)
    (Fblock : list (option Blocks.Form))
    (Flist : list (list (option Blocks.SubForm))) log Flist' log' :
  Blocks.split_blocks cc_names all_meshes idx Fblock Flist log
  = Ok (Flist', log') ->
  length Flist' = (length Flist + length Fblock)%nat.
Proof.
  revert idx Flist log. induction Fblock as [|Fi rest IH];
    intros idx Flist log H.
  - injection H as <- <-. cbn. lia.
  - cbn [Blocks.split_blocks] in H.
    assert (Hskip : forall r,
      (let* cname := Blocks.get_index_name cc_names idx in
       Blocks.split_blocks cc_names all_meshes (S idx) rest
         (Flist ++ [[None]]) (log ++ [Blocks.block_is_empty idx cname]))
      = Ok r -> r = (Flist', log') ->
      length Flist' = (length Flist + length (Fi :: rest))%nat).
    { intros r Hr ->.
      destruct (Blocks.get_index_name cc_names idx) as [c|e];
        [|discriminate].
      cbn [Py.bind] in Hr. apply IH in Hr. rewrite length_app in Hr.
      cbn [length] in *. lia. }
    destruct Fi as [F|]; [|eapply Hskip; [exact H|reflexivity]].
    destruct (Blocks.empty F); [eapply Hskip; [exact H|reflexivity]|].
    destruct (Blocks.split_by_domain _ _ _ _ _ _) as [[Fs l1]|e];
      [|discriminate].
    cbn [Py.bind] in H. apply IH in H. rewrite length_app in H.
    cbn [length] in *. lia.
Qed.

Lemma get_block_F_length (extracted : list Blocks.Form) (len_u : nat)
    Flist log :
  Blocks.get_block_F cc_names all_meshes extracted len_u = Ok (Flist, log) ->
  length Flist = len_u.
Proof.
  unfold Blocks.get_block_F.
  destruct (if decide (length extracted <> len_u) then _ else _)
    as [Fblock|e]; [|discriminate].
  cbn [Py.bind]. destruct (decide (length Fblock = len_u)) as [Hl|_];
    [|discriminate].
  intros H. apply blocks_split_blocks_length in H. cbn [length] in H. lia.
Qed.

End JacobianBlocks.

(** X14: [get_block_J] needs one residual block for every function of [u].
    When [extract_blocks] yields another number of blocks (and [u] is not
    empty) it raises [AssertionError]. When it returns, [Jlist] has
    [len(u) * len(u)] entries laid out row by row: the entry at
    [i * len(u) + j] belongs to the derivative of block [i] with respect to
    function [j], and is the placeholder [[Form(2, 0)]] when that derivative
    is empty and otherwise the compiled forms of its sub-forms, one for each
    integration domain and in their order. *)
Theorem X14_jacobian_blocks_layout
    (derivative : Blocks.Form -> nat -> Blocks.Form) (compiled : Type)
    (dolfin_Form : Blocks.SubForm -> result compiled) (Form_2_0 : compiled)
    (cc_names : list string) (all_meshes : list Blocks.Mesh)
    (extracted : list Blocks.Form) (len_u : nat) :
  (length extracted <> len_u -> (0 < len_u)%nat ->
   BlockSystem.get_block_J derivative compiled dolfin_Form Form_2_0 cc_names
     all_meshes extracted len_u = Raise AssertionError) /\
  (forall Jlist log,
   BlockSystem.get_block_J derivative compiled dolfin_Form Form_2_0 cc_names
     all_meshes extracted len_u = Ok (Jlist, log) ->
   length Jlist = (len_u * len_u)%nat /\
   forall i j Fi, extracted !! i = Some Fi -> (j < len_u)%nat ->
     exists Js, Jlist !! (i * len_u + j)%nat = Some Js /\
       BlockSystem.compiled_block compiled dolfin_Form Form_2_0
         (derivative Fi j) Js).
Proof.
  split.
  - apply get_block_J_assertion.
  - intros Jlist log. apply get_block_J_layout.
Qed.

Lemma X14_jacobian_blocks_layout_witness :
  BlockSystem.get_block_J BlockSystem.diagonal_derivative Blocks.SubForm Ok
    {| Blocks.sub_mesh := 0; Blocks.sub_empty := true |}
    ["cyto"%string; "pm"%string] [Blocks.mesh_cyto; Blocks.mesh_pm]
    [BlockSystem.F_cyto_only] 2 = Raise AssertionError /\
  exists Js,
    [[{| Blocks.sub_mesh := 1; Blocks.sub_empty := false |}];
     [{| Blocks.sub_mesh := 0; Blocks.sub_empty := true |}];
     [{| Blocks.sub_mesh := 0; Blocks.sub_empty := true |}];
     [{| Blocks.sub_mesh := 2; Blocks.sub_empty := false |}]]
      !! (1 * 2 + 1)%nat = Some Js /\
    BlockSystem.compiled_block Blocks.SubForm Ok
      {| Blocks.sub_mesh := 0; Blocks.sub_empty := true |}
      (BlockSystem.diagonal_derivative BlockSystem.F_pm 1) Js.
Proof.
  split.
  - apply (X14_jacobian_blocks_layout BlockSystem.diagonal_derivative
             Blocks.SubForm Ok
             {| Blocks.sub_mesh := 0; Blocks.sub_empty := true |}
             ["cyto"%string; "pm"%string] [Blocks.mesh_cyto; Blocks.mesh_pm]
             [BlockSystem.F_cyto_only] 2); cbn; lia.
  - refine (proj2 (proj2 (X14_jacobian_blocks_layout
             BlockSystem.diagonal_derivative Blocks.SubForm Ok
             {| Blocks.sub_mesh := 0; Blocks.sub_empty := true |}
             ["cyto"%string; "pm"%string] [Blocks.mesh_cyto; Blocks.mesh_pm]
             [BlockSystem.F_cyto_only; BlockSystem.F_pm] 2) _ _ _)
             1%nat 1%nat BlockSystem.F_pm _ _).
    + vm_compute. reflexivity.
    + reflexivity.
    + lia.
Defined.

(** X15: [get_block_system] returns only when [extract_blocks] yields
    exactly one block for every function of [u]. The
    placeholders [get_block_F] pads a shorter list of blocks with are of no
    use to it: the call raises, and with [AssertionError] from
    [get_block_J] whenever [get_block_F] itself went through. When it
    returns, [Flist] and [global_sizes] have [len(u)] entries and [Jlist]
    has [len(u) * len(u)]. *)
Theorem X15_block_system_needs_every_block
    (derivative : Blocks.Form -> nat -> Blocks.Form) (compiled : Type)
    (dolfin_Form : Blocks.SubForm -> result compiled) (Form_2_0 : compiled)
    (cc_names : list string) (all_meshes : list Blocks.Mesh)
    (extracted : list Blocks.Form) (u_dims : list Z) :
  (length extracted <> length u_dims -> u_dims <> [] ->
   exists e,
     BlockSystem.get_block_system derivative compiled dolfin_Form Form_2_0
       cc_names all_meshes extracted u_dims = Raise e /\
     (forall r, Blocks.get_block_F cc_names all_meshes extracted
                  (length u_dims) = Ok r -> e = AssertionError)) /\
  (forall Flist Jlist sizes,
   BlockSystem.get_block_system derivative compiled dolfin_Form Form_2_0
     cc_names all_meshes extracted u_dims = Ok (Flist, Jlist, sizes) ->
   length extracted = length u_dims /\
   sizes = u_dims /\
   length Flist = length u_dims /\
   length Jlist = (length u_dims * length u_dims)%nat).
Proof.
  unfold BlockSystem.get_block_system. split.
  - intros Hne Hu.
    assert (Hpos : (0 < length u_dims)%nat).
    { destruct u_dims; [congruence | cbn; lia]. }
    rewrite (get_block_J_assertion derivative compiled dolfin_Form Form_2_0
               cc_names all_meshes extracted (length u_dims) Hne Hpos).
    destruct (Blocks.get_block_F _ _ _ _) as [F|e].
    + exists AssertionError. split; [reflexivity|]. intros; reflexivity.
    + exists e. split; [reflexivity|]. intros r Hr. discriminate.
  - intros Flist Jlist sizes H.
    destruct (Blocks.get_block_F _ _ _ _) as [[Fl lF]|e] eqn:HF;
      [|discriminate].
    cbn [Py.bind] in H.
    destruct (BlockSystem.get_block_J _ _ _ _ _ _ _ _) as [[Jl lJ]|e] eqn:HJ;
      [|discriminate].
    cbn [Py.bind fst] in H. injection H as <- <- <-.
    pose proof HF as HF0. apply get_block_F_length in HF.
    pose proof (get_block_J_layout _ _ _ _ _ _ _ _ _ _ HJ) as [HlJ _].
    split; [|split; [reflexivity|split; assumption]].
    destruct (decide (length extracted = length u_dims)) as [Heq|Hne];
      [exact Heq|].
    destruct u_dims as [|d0 rest].
    { exfalso. clear HJ HlJ. revert HF0. unfold Blocks.get_block_F.
      destruct (decide _) as [_|Hn]; [|contradiction].
      destruct extracted as [|F0 ex]; [contradiction|].
      cbn. discriminate. }
    rewrite (get_block_J_assertion derivative compiled dolfin_Form Form_2_0
               cc_names all_meshes extracted _ Hne) in HJ
      by (cbn; lia).
    discriminate.
Qed.

Lemma X15_block_system_needs_every_block_witness :
  (exists r, Blocks.get_block_F ["cyto"%string; "pm"%string]
               [Blocks.mesh_cyto; Blocks.mesh_pm]
               [BlockSystem.F_cyto_only] (length [10; 4]) = Ok r) /\
  exists e,
    BlockSystem.get_block_system BlockSystem.diagonal_derivative
      Blocks.SubForm Ok {| Blocks.sub_mesh := 0; Blocks.sub_empty := true |}
      ["cyto"%string; "pm"%string] [Blocks.mesh_cyto; Blocks.mesh_pm]
      [BlockSystem.F_cyto_only] [10; 4] = Raise e /\
    (forall r, Blocks.get_block_F ["cyto"%string; "pm"%string]
                 [Blocks.mesh_cyto; Blocks.mesh_pm]
                 [BlockSystem.F_cyto_only] (length [10; 4]) = Ok r ->
               e = AssertionError).
Proof.
  split.
  - eexists. vm_compute. reflexivity.
  - apply (X15_block_system_needs_every_block
             BlockSystem.diagonal_derivative Blocks.SubForm Ok
             {| Blocks.sub_mesh := 0; Blocks.sub_empty := true |}
             ["cyto"%string; "pm"%string] [Blocks.mesh_cyto; Blocks.mesh_pm]
             [BlockSystem.F_cyto_only] [10; 4]).
    + cbn. lia.
    + discriminate.
Defined.

(** ** [update_solution] over the whole dictionary *)

Lemma overwritten_self (n : nat) (src : list Engine.vector) :
  Solution.overwritten n src src = src.
Proof. apply take_drop. Qed.

Lemma overwritten_twice (n : nat) (src dst : list Engine.vector) :
  (n <= length src)%nat ->
  Solution.overwritten n src (Solution.overwritten n src dst)
  = Solution.overwritten n src dst.
Proof.
  intros Hn. unfold Solution.overwritten. f_equal.
  rewrite drop_app_length'; [reflexivity|].
  rewrite length_take. lia.
Qed.

Lemma assign_sub_self (k : string) (idx : nat) (u u' : Solution.functions) :
  Solution.assign_sub k k idx u = PyX.Ok u' -> u' = u.
Proof.
  unfold Solution.assign_sub.
  destruct (u !! k) as [dst|] eqn:Hk; [|discriminate].
  destruct (dst !! idx) as [v|] eqn:Hv; [|discriminate].
  intros [= <-]. rewrite list_insert_id by exact Hv.
  apply insert_id. exact Hk.
Qed.

Lemma assign_range_self (range : list nat) (k : string)
    (u u' : Solution.functions) :
  Solution.assign_range range k k u = PyX.Ok u' -> u' = u.
Proof.
  revert u. induction range as [|idx rest IH]; intros u H.
  - injection H as <-. reflexivity.
  - cbn [Solution.assign_range] in H.
    destruct (Solution.assign_sub k k idx u) as [u1|e] eqn:H1;
      [|discriminate].
    cbn [PyX.bind] in H. apply assign_sub_self in H1 as ->.
    apply IH. exact H.
Qed.

Lemma assign_range_other (m a : nat) (k unew : string)
    (u u' : Solution.functions) (dst : list Engine.vector) :
  k <> unew ->
  u !! k = Some dst ->
  Solution.assign_range (seq a m) k unew u = PyX.Ok u' ->
  exists dst',
    u' = <[k := dst']> u /\
    length dst' = length dst /\
    (forall i, (a <= i < a + m)%nat ->
       is_Some (dst' !! i) /\
       dst' !! i = default [] (u !! unew) !! i) /\
    (forall i, ~ (a <= i < a + m)%nat -> dst' !! i = dst !! i).
Proof.
  intros Hne. unfold Solution.functions in *.
  revert a u dst. induction m as [|m IH]; intros a u dst Hk H.
  - injection H as <-. exists dst. split; [symmetry; apply insert_id, Hk|].
    split; [reflexivity|]. split; [intros i Hi; lia | reflexivity].
  - cbn [seq Solution.assign_range] in H.
    unfold Solution.assign_sub in H. unfold Solution.functions in *.
    rewrite Hk in H.
    destruct (dst !! a) as [w|] eqn:Hw; [|discriminate].
    destruct (u !! unew) as [src|] eqn:Hsrc; [|discriminate].
    destruct (src !! a) as [v|] eqn:Hv; [|discriminate].
    cbn [PyX.bind] in H.
    apply IH with (dst := <[a := v]> dst) in H;
      [|apply lookup_insert_eq].
    destruct H as (dst' & -> & Hlen & Hin & Hout).
    unfold Solution.functions in *.
    rewrite lookup_insert_ne in Hin by congruence. rewrite Hsrc in Hin.
    exists dst'. split; [apply insert_insert_eq|].
    split; [rewrite Hlen; apply length_insert|].
    assert (Ha : dst' !! a = Some v).
    { rewrite Hout by lia. apply list_lookup_insert_eq.
      apply lookup_lt_Some in Hw. exact Hw. }
    rewrite ?Hsrc. cbn [default from_option id]. split.
    + intros i Hi. destruct (decide (i = a)) as [->|Hia].
      * rewrite Ha, Hv. split; [eexists|]; reflexivity.
      * apply Hin. lia.
    + intros i Hi. rewrite Hout by lia.
      apply list_lookup_insert_ne. lia.
Qed.

Lemma assign_range_self_bound (m a : nat) (k : string)
    (u u' : Solution.functions) :
  Solution.assign_range (seq a m) k k u = PyX.Ok u' ->
  forall i, (a <= i < a + m)%nat -> is_Some (default [] (u !! k) !! i).
Proof.
  revert a. induction m as [|m IH]; intros a H i Hi; [lia|].
  cbn [seq Solution.assign_range] in H.
  destruct (Solution.assign_sub k k a u) as [u1|e] eqn:H1; [|discriminate].
  cbn [PyX.bind] in H. pose proof H1 as H1'.
  apply assign_sub_self in H1' as ->.
  destruct (decide (i = a)) as [->|Hia].
  - unfold Solution.assign_sub in H1.
    destruct (u !! k) as [dst|]; [|discriminate].
    destruct (dst !! a) as [v|] eqn:Hv; [|discriminate].
    cbn [default from_option id]. rewrite Hv. eexists; reflexivity.
  - apply (IH (S a) H). lia.
Qed.

Lemma lookup_all_length {A : Type} (l : list A) (n : nat) :
  (forall i, (0 <= i < 0 + n)%nat -> is_Some (l !! i)) ->
  (n <= length l)%nat.
Proof.
  intros H. destruct n as [|n]; [lia|].
  destruct (H n ltac:(lia)) as [x Hx]. apply lookup_lt_Some in Hx. lia.
Qed.

Lemma assign_range_spec (n : nat) (k unew : string)
    (u u' : Solution.functions) (dst : list Engine.vector) :
  u !! k = Some dst ->
  Solution.assign_range (seq 0 n) k unew u = PyX.Ok u' ->
  u' = <[k := Solution.overwritten n (default [] (u !! unew)) dst]> u /\
  (n <= length (default [] (u !! unew)))%nat.
Proof.
  intros Hk H. destruct (decide (k = unew)) as [<-|Hne].
  - pose proof (assign_range_self_bound n 0 k u u' H) as Hb.
    apply lookup_all_length in Hb.
    apply assign_range_self in H as ->. rewrite Hk in *. cbn [default from_option id] in *.
    rewrite overwritten_self. split; [symmetry; apply insert_id, Hk|exact Hb].
  - destruct (assign_range_other n 0 k unew u u' dst Hne Hk H)
      as (dst' & -> & Hlen & Hin & Hout).
    set (src := default [] (u !! unew)) in *.
    assert (Hn : (n <= length src)%nat).
    { apply lookup_all_length. intros i Hi.
      destruct (Hin i Hi) as [Hs He]. rewrite <- He. exact Hs. }
    split; [|exact Hn]. f_equal.
    apply list_eq. intros i. unfold Solution.overwritten.
    destruct (decide (i < n)%nat) as [Hi|Hi].
    + destruct (Hin i ltac:(lia)) as [_ ->].
      rewrite lookup_app_l by (rewrite length_take; lia).
      rewrite lookup_take_lt by lia. reflexivity.
    + rewrite Hout by lia.
      rewrite lookup_app_r by (rewrite length_take; lia).
      rewrite length_take, lookup_drop. f_equal. lia.
Qed.

Lemma update_keys_spec (ks : list string) (unew : string) (n : nat)
    (u u' : Solution.functions) :
  Solution.update_keys ks unew n u = PyX.Ok u' ->
  Forall (fun k => is_Some (u !! k)) ks /\
  (ks = [] \/ n <= length (default [] (u !! unew)))%nat /\
  forall k,
    u' !! k
    = (fun dst => if decide (k ∈ ks)
                  then Solution.overwritten n (default [] (u !! unew)) dst
                  else dst) <$> u !! k.
Proof.
  revert u. induction ks as [|k0 rest IH]; intros u H.
  - injection H as <-. split; [constructor|]. split; [left; reflexivity|].
    intros k. destruct (u !! k); cbn; [|reflexivity].
    destruct (decide (k ∈ [])) as [Hin|_]; [|reflexivity].
    inversion Hin.
  - cbn [Solution.update_keys] in H.
    destruct (decide (is_Some (u !! k0))) as [[dst0 Hk0]|_]; [|discriminate].
    destruct (Solution.assign_range _ _ _ _) as [u1|e] eqn:H1;
      [|discriminate].
    cbn [PyX.bind] in H.
    apply (assign_range_spec n k0 unew u u1 dst0 Hk0) in H1 as [-> Hn].
    unfold Solution.functions in *.
    set (src := default [] (u !! unew)) in *.
    assert (Hsrc : default [] (<[k0 := Solution.overwritten n src dst0]> u
                                 !! unew) = src).
    { destruct (decide (k0 = unew)) as [->|Hne].
      - rewrite lookup_insert_eq. cbn [default from_option id]. subst src.
        rewrite Hk0. cbn [default from_option id]. apply overwritten_self.
      - rewrite lookup_insert_ne by exact Hne. reflexivity. }
    apply IH in H as (Hall & _ & Hlk). rewrite Hsrc in Hlk.
    split.
    { constructor; [eexists; exact Hk0|].
      eapply Forall_impl; [exact Hall|]. intros k Hk. cbn in Hk.
      destruct (decide (k = k0)) as [->|Hne];
        [eexists; exact Hk0|].
      rewrite lookup_insert_ne in Hk by congruence. exact Hk. }
    split; [right; exact Hn|].
    intros k. rewrite Hlk. destruct (decide (k = k0)) as [->|Hne].
    + rewrite lookup_insert_eq, Hk0. cbn [fmap option_fmap option_map].
      f_equal.
      destruct (decide (k0 ∈ k0 :: rest)) as [_|Hc];
        [|exfalso; apply Hc, list_elem_of_here].
      destruct (decide (k0 ∈ rest)); [|reflexivity].
      apply overwritten_twice. exact Hn.
    + rewrite lookup_insert_ne by congruence.
      destruct (u !! k) as [dst|]; [|reflexivity]. cbn. f_equal.
      destruct (decide (k ∈ rest)) as [Hin|Hnin].
      * rewrite decide_True by (apply list_elem_of_further; exact Hin).
        reflexivity.
      * rewrite decide_False; [reflexivity|].
        intros Hc. apply elem_of_cons in Hc as [Hc|Hc]; congruence.
Qed.

(** X16: [update_solution] with its keys left to the method
    ([ukeys=None]) never returns: it raises [KeyError] when [unew] is not a
    key of [self.u] and [TypeError] otherwise. With a list of keys, a call
    that returns found every listed key in [self.u] and has overwritten the
    first [num_active_compartments] sub-functions of each listed function
    with those of [u[unew]], which it had; every other function, and the
    rest of a listed one, is as before, and no key is added or removed. *)
Theorem X16_update_solution_copies_listed_functions
    (unew : string) (n : nat) (u : Solution.functions) :
  (Solution.update_solution None unew n u
   = PyX.Raise (if decide (is_Some (u !! unew))
                then PyX.TypeError else PyX.KeyError)) /\
  (forall ks u',
   Solution.update_solution (Some ks) unew n u = PyX.Ok u' ->
   Forall (fun k => is_Some (u !! k)) ks /\
   (ks = [] \/ n <= length (default [] (u !! unew)))%nat /\
   forall k,
     u' !! k
     = (fun dst => if decide (k ∈ ks)
                   then Solution.overwritten n (default [] (u !! unew)) dst
                   else dst) <$> u !! k).
Proof.
  split.
  - unfold Solution.update_solution. destruct (decide _); reflexivity.
  - intros ks u'. cbn [Solution.update_solution]. apply update_keys_spec.
Qed.

Lemma X16_update_solution_copies_listed_functions_witness :
  Solution.update_solution None "u" 2 Solution.example_u
  = PyX.Raise PyX.TypeError /\
  (Solution.update_solution (Some ["n"%string]) "u" 2 Solution.example_u
   = PyX.Ok (<["n"%string := [[Float.of_Z 1]; [Float.of_Z 2]]]>
               Solution.example_u)) /\
  (<["n"%string := [[Float.of_Z 1]; [Float.of_Z 2]]]> Solution.example_u)
    !! "k"%string
  = (fun dst => if decide ("k"%string ∈ ["n"%string])
                then Solution.overwritten 2
                       (default [] (Solution.example_u !! "u"%string)) dst
                else dst) <$> Solution.example_u !! "k"%string.
Proof.
  split; [exact (proj1 (X16_update_solution_copies_listed_functions
                          "u" 2 Solution.example_u))|].
  assert (H : Solution.update_solution (Some ["n"%string]) "u" 2
                Solution.example_u
              = PyX.Ok (<["n"%string := [[Float.of_Z 1]; [Float.of_Z 2]]]>
                          Solution.example_u)).
  { vm_compute. reflexivity. }
  split; [exact H|].
  exact (proj2 (proj2 (proj2 (X16_update_solution_copies_listed_functions
           "u" 2 Solution.example_u) ["n"%string] _ H)) "k"%string).
Defined.

(** ** The step size chosen from the iteration count *)

Section Adapting.

Local Open Scope Q_scope.

(** A step of [d] ticks scaled in binary64 by a constant of value at most
    [r]: the result, in ticks, before it is quantized. *)
Lemma scaled_step_bound (self : Engine.Model) (d : Z) (mc : positive)
    (ec : Z) (r x : Q) :
  Engine.valid_precision (Engine.config self) = true ->
  (0 < d)%Z ->
  Float.value (Zpos mc) ec * (1 + 2 ^ (-52)) <= r ->
  r <= 1 ->
  Float.to_Q (Float.mul (Engine.to_float self d) (S754_finite false mc ec))
  = Some x ->
  0 <= x /\
  x * inject_Z (Zpos (Decimal.ticks_per_unit
                        (Engine.time_precision (Engine.config self))))
  <= r * (101 # 100) * inject_Z d + (2 # 100).
Proof.
  unfold Engine.valid_precision. intros Hp Hd Hc Hr1.
  apply andb_prop in Hp as [_ Hp]. apply Nat.ltb_lt in Hp.
  apply ticks_per_unit_bound in Hp.
  unfold Engine.to_float, Engine.dec, Decimal.dec, Float.of_Q.
  cbn [Qnum Qden].
  set (tpu := Decimal.ticks_per_unit _) in *.
  set (T := inject_Z (Zpos tpu)).
  assert (HT : 0 < T) by reflexivity.
  assert (HT' : T <= inject_Z (10 ^ 29)).
  { unfold T. rewrite <- Zle_Qle. exact Hp. }
  assert (Ht97 : (Zpos tpu < 2 ^ 97)%Z).
  { eapply Z.le_lt_trans; [exact Hp|]. reflexivity. }
  destruct d as [|k|k]; try lia. clear Hd.
  assert (HD : 1 <= inject_Z (Zpos k)).
  { change 1 with (inject_Z 1). rewrite <- Zle_Qle. lia. }
  pose proof (value_nonneg (Zpos mc) ec ltac:(lia)) as Hc0.
  pose proof (pow2_pos (-52)) as H52.
  assert (Hr0 : 0 <= r).
  { eapply Qle_trans; [|exact Hc].
    apply Qmult_le_0_compat; [exact Hc0 | lra]. }
  assert (HrD : 0 <= r * (101 # 100) * inject_Z (Zpos k)).
  { apply Qmult_le_0_compat; [|lra].
    apply Qmult_le_0_compat; [exact Hr0 | lra]. }
  assert (Hzero : 0 <= 0 /\
            0 * T <= r * (101 # 100) * inject_Z (Zpos k) + (2 # 100)).
  { split; lra. }
  unfold Float.mul, Float.of_Z.
  unfold Float.prec64, Float.emax64.
  destruct (SFdiv 53 1024 (S754_finite false k 0) (S754_finite false tpu 0))
    as [s0|s0| |s0 m0 e0] eqn:Hdiv; try discriminate.
  { cbn. intros [= <-]. exact Hzero. }
  apply SFdiv_value in Hdiv; [|exact Ht97]. destruct Hdiv as [-> HVX].
  destruct (SFmul 53 1024 (S754_finite false m0 e0)
              (S754_finite false mc ec))
    as [s1|s1| |s1 m1 e1] eqn:Hmul; try discriminate.
  { cbn. intros [= <-]. exact Hzero. }
  apply SFmul_value in Hmul. destruct Hmul as [-> Hx].
  intros Hq. apply to_Q_value in Hq.
  pose proof (value_nonneg (Zpos m1) e1 ltac:(lia)) as Hx0.
  pose proof (value_nonneg (Zpos m0) e0 ltac:(lia)) as HVX0.
  rewrite Hq. split; [exact Hx0|].
  assert (Hb : 1 + 2 ^ (-50) <= 101 # 100).
  { apply Qle_bool_imp_le. vm_compute. reflexivity. }
  assert (Heps : 2 ^ (-1074) * inject_Z (10 ^ 29) <= 1 # 100).
  { apply Qle_bool_imp_le. vm_compute. reflexivity. }
  pose proof (pow2_pos (-1074)) as Heps0.
  assert (HvT : (Zpos k # tpu) * T == inject_Z (Zpos k)).
  { unfold T, Qeq. cbn [Qnum Qden Qmult inject_Z]. lia. }
  assert (Hv0 : 0 <= Zpos k # tpu) by (unfold Qle; cbn; lia).
  set (VX := Float.value (Zpos m0) e0) in *.
  set (X := Float.value (Zpos m1) e1) in *.
  set (c := Float.value (Zpos mc) ec) in *.
  set (a := 1 + 2 ^ (-52)) in *.
  set (b := 1 + 2 ^ (-50)) in *.
  set (eps := 2 ^ (-1074)) in *.
  set (v := Zpos k # tpu) in *.
  set (D := inject_Z (Zpos k)) in *.
  clearbody VX X c a b eps v D T.
  assert (H1 : VX * c * a <= VX * r).
  { rewrite <- Qmult_assoc. apply mult_le_left; [exact HVX0 | exact Hc]. }
  assert (H2 : v * b <= v * (101 # 100)).
  { apply mult_le_left; [exact Hv0 | exact Hb]. }
  assert (H2' : VX * r <= (v * (101 # 100) + eps) * r).
  { apply Qmult_le_compat_r; [lra | exact Hr0]. }
  assert (H2'' : eps * r <= eps * 1).
  { apply mult_le_left; [lra | exact Hr1]. }
  assert (H3 : X <= r * (101 # 100) * v + 2 * eps) by lra.
  assert (H4 : X * T <= (r * (101 # 100) * v + 2 * eps) * T).
  { apply Qmult_le_compat_r; lra. }
  assert (H5 : eps * T <= eps * inject_Z (10 ^ 29)).
  { apply mult_le_left; lra. }
  assert (H6 : (r * (101 # 100) * v + 2 * eps) * T
               == r * (101 # 100) * (v * T) + 2 * (eps * T)) by ring.
  rewrite H6, HvT in H4. lra.
Qed.

(** The constants of the two decreasing branches. *)
Lemma scale_0_8_value :
  Float.of_Q (4 # 5) = S754_finite false 7205759403792794 (-53).
Proof. vm_compute. reflexivity. Qed.

Lemma scale_0_5_value :
  Float.of_Q (1 # 2) = S754_finite false 4503599627370496 (-53).
Proof. vm_compute. reflexivity. Qed.

(** A scale read from the table for eleven iterations or more: its value,
    with the rounding of the product, stays below [r]. *)
Lemma dt_scale_decreasing (nl : nat) (scale : Float.float) :
  (11 <= nl)%nat ->
  Adaptive.dt_scale nl = Some scale ->
  exists mc ec r,
    scale = S754_finite false mc ec /\
    Float.value (Zpos mc) ec * (1 + 2 ^ (-52)) <= r /\
    r <= 81 # 100 /\
    ((21 <= nl)%nat -> r <= 51 # 100).
Proof.
  intros Hnl. unfold Adaptive.dt_scale.
  rewrite bool_decide_eq_false_2
    by (rewrite !elem_of_cons, elem_of_nil; lia).
  rewrite bool_decide_eq_false_2
    by (rewrite !elem_of_cons, elem_of_nil; lia).
  rewrite bool_decide_eq_false_2
    by (rewrite !elem_of_cons, elem_of_nil; lia).
  destruct (bool_decide _) eqn:H20.
  - apply bool_decide_eq_true_1 in H20.
    rewrite !elem_of_cons, elem_of_nil in H20.
    intros [= <-]. rewrite scale_0_8_value.
    exists 7205759403792794%positive, (-53)%Z, (81 # 100).
    split; [reflexivity|]. split.
    + apply Qle_bool_imp_le. vm_compute. reflexivity.
    + split; [apply Qle_refl | intros; lia].
  - destruct (20 <=? nl)%nat; [|discriminate].
    intros [= <-]. rewrite scale_0_5_value.
    exists 4503599627370496%positive, (-53)%Z, (51 # 100).
    split; [reflexivity|]. split.
    + apply Qle_bool_imp_le. vm_compute. reflexivity.
    + split; [apply Qle_bool_imp_le; reflexivity | intros; apply Qle_refl].
Qed.

Lemma round_half_even_at_most (y : Q) (k : Z) :
  y < inject_Z k + (1 # 2) -> (Decimal.round_half_even y <= k)%Z.
Proof.
  intros Hy.
  assert (H : (Decimal.round_half_even y < k + 1)%Z); [|lia].
  apply round_half_even_below. rewrite inject_Z_plus.
  change (inject_Z 1) with 1. lra.
Qed.

(** The table leaves no count of iterations without a scale. *)
Lemma dt_scale_total (nl : nat) : is_Some (Adaptive.dt_scale nl).
Proof.
  unfold Adaptive.dt_scale.
  repeat match goal with
         | |- context [bool_decide ?P] =>
             destruct (bool_decide P) eqn:?; [eexists; reflexivity|]
         end.
  destruct (Nat.leb_spec 20 nl) as [_|Hlt]; [eexists; reflexivity|].
  exfalso.
  repeat match goal with
         | H : bool_decide _ = false |- _ =>
             apply bool_decide_eq_false_1 in H;
             rewrite !elem_of_cons, elem_of_nil in H
         end.
  lia.
Qed.

End Adapting.

(** X17: [adjust_dt] reads the number of nonlinear iterations of the last
    step: without a recorded step it raises [IndexError], and no count
    leaves the scale unbound. When the last step took eleven iterations or
    more, a call that returns has changed nothing but the step size, which
    is not negative and not larger than before; it is strictly smaller as
    soon as the step spans three ticks of the time precision, and at most
    0.52 of the old one (plus a tick) from twenty-one iterations on. *)
Theorem X17_many_iterations_never_enlarge_the_step
    (self s' : Engine.Model) (nl : nat) :
  (Engine.idx_nl self = [] ->
   Adaptive.adjust_dt self = PyX.Raise PyX.IndexError) /\
  Adaptive.adjust_dt self <> PyX.Raise PyX.UnboundLocalError /\
  (Engine.valid_precision (Engine.config self) = true ->
   0 < Engine.dt self ->
   last (Engine.idx_nl self) = Some nl ->
   (11 <= nl)%nat ->
   Adaptive.adjust_dt self = PyX.Ok s' ->
   s' = Engine.with_dt (Engine.dt s') self /\
   0 <= Engine.dt s' <= Engine.dt self /\
   (3 <= Engine.dt self -> Engine.dt s' < Engine.dt self) /\
   ((21 <= nl)%nat -> 100 * Engine.dt s' <= 52 * Engine.dt self + 100)).
Proof.
  split; [|split].
  - intros Hnil. unfold Adaptive.adjust_dt. rewrite Hnil. reflexivity.
  - unfold Adaptive.adjust_dt.
    destruct (Py.index (Engine.idx_nl self) (-1)) as [n|e];
      [|destruct e; discriminate].
    cbn [PyX.of_py PyX.bind].
    destruct (dt_scale_total n) as [sc ->].
    destruct (Engine.set_dt_float _ self) as [m|e];
      [|destruct e]; discriminate.
  - intros Hp Hd Hlast Hnl. unfold Adaptive.adjust_dt.
    assert (Hidx : Py.index (Engine.idx_nl self) (-1) = Ok nl).
    { destruct (Engine.idx_nl self) as [|n0 l] using rev_ind;
        [discriminate|].
      rewrite last_snoc in Hlast. injection Hlast as ->.
      apply index_last. }
    rewrite Hidx. cbn [PyX.of_py PyX.bind].
    destruct (Adaptive.dt_scale nl) as [scale|] eqn:Hsc; [|discriminate].
    destruct (dt_scale_decreasing nl scale Hnl Hsc)
      as (mc & ec & r & -> & Hc & Hr & Hr21).
    unfold Engine.set_dt_float.
    destruct (Float.to_Q _) as [x|] eqn:Hx; [|discriminate].
    cbn [PyX.of_py]. intros [= <-]. rewrite set_dt_eq.
    cbn [Engine.dt Engine.with_dt].
    destruct (scaled_step_bound self (Engine.dt self) mc ec r x Hp Hd Hc
                ltac:(lra) Hx) as [Hx0 Hb].
    unfold Engine.rounded_decimal, Decimal.rounded_decimal.
    set (T := inject_Z (Zpos (Decimal.ticks_per_unit _))) in *.
    assert (HD : (1 <= inject_Z (Engine.dt self))%Q).
    { change 1%Q with (inject_Z 1). rewrite <- Zle_Qle. lia. }
    set (D := inject_Z (Engine.dt self)) in *.
    assert (HrD : (r * (101 # 100) * D <= (8181 # 10000) * D)%Q).
    { assert (H1 : (D * r <= D * (81 # 100))%Q)
        by (apply mult_le_left; [lra | exact Hr]).
      lra. }
    split; [reflexivity|]. split; [split|split].
    + apply round_half_even_nonneg. apply Qmult_le_0_compat; [exact Hx0|].
      discriminate.
    + apply round_half_even_at_most. fold D. lra.
    + intros H3. apply round_half_even_below. fold D.
      assert (3 <= D)%Q.
      { change 3%Q with (inject_Z 3). unfold D. rewrite <- Zle_Qle. lia. }
      lra.
    + intros H21. specialize (Hr21 H21).
      assert (HrD' : (r * (101 # 100) * D <= (5151 # 10000) * D)%Q).
      { assert (H1 : (D * r <= D * (51 # 100))%Q)
          by (apply mult_le_left; [lra | exact Hr21]).
        lra. }
      pose proof (round_half_even_spec (x * T)) as Hspec.
      cbv zeta in Hspec.
      set (R := Decimal.round_half_even (x * T)) in *.
      assert (HR : (inject_Z R <= (52 # 100) * D + 1)%Q).
      { destruct Hspec as [[Hlo Hhi]|[[He _]|[He _]]]; lra. }
      assert (HR' : (inject_Z (100 * R)
                     <= inject_Z (52 * Engine.dt self + 100))%Q).
      { rewrite inject_Z_plus, !inject_Z_mult. fold D.
        change (inject_Z 100) with 100%Q. change (inject_Z 52) with 52%Q.
        lra. }
      rewrite <- Zle_Qle in HR'. exact HR'.
Qed.

Lemma X17_many_iterations_never_enlarge_the_step_witness :
  Adaptive.adjust_dt (Adaptive.after_iterations 12)
  = PyX.Ok (Engine.with_dt 80000 (Adaptive.after_iterations 12)) /\
  0 <= 80000 <= Engine.dt (Adaptive.after_iterations 12) /\
  (3 <= Engine.dt (Adaptive.after_iterations 12) ->
   80000 < Engine.dt (Adaptive.after_iterations 12)).
Proof.
  assert (H : Adaptive.adjust_dt (Adaptive.after_iterations 12)
              = PyX.Ok (Engine.with_dt 80000
                          (Adaptive.after_iterations 12))).
  { vm_compute. reflexivity. }
  split; [exact H|].
  pose proof (proj2 (proj2 (X17_many_iterations_never_enlarge_the_step
                (Adaptive.after_iterations 12)
                (Engine.with_dt 80000 (Adaptive.after_iterations 12))
                12%nat))
              ltac:(vm_compute; reflexivity) ltac:(vm_compute; reflexivity)
              ltac:(vm_compute; reflexivity) ltac:(lia) H)
    as (_ & Hle & Hlt & _).
  split; [exact Hle | exact Hlt].
Defined.

(** ** What an update of the parameters keeps and what it books *)

Lemma reorder_length (vec_new : Engine.vector) (map : list nat)
    (out : Engine.vector) :
  Engine.reorder vec_new map = Ok out -> length out = length map.
Proof.
  revert out. induction map as [|i rest IH]; intros out H.
  - injection H as <-. reflexivity.
  - cbn [Engine.reorder] in H.
    destruct (vec_new !! i) as [x|]; [|discriminate].
    apply bind_Ok in H as (xs & Hxs & H). injection H as <-.
    cbn [length]. f_equal. apply IH. exact Hxs.
Qed.

Lemma same_description_refl (p : Engine.parameter) :
  Engine.same_description p p.
Proof. unfold Engine.same_description. repeat split. Qed.

Lemma assign_new_value_updated (tf v : Float.float)
    (p0 p p' : Engine.parameter) :
  Engine.same_description p0 p ->
  Engine.value_vector p = Engine.value_vector p0 ->
  Engine.assign_new_value tf v p = Ok p' ->
  Engine.same_description p0 p' /\
  Engine.value_vector p' = Engine.value_vector p0 ++ [(tf, Engine.value p')] /\
  Float.isnan (Engine.value p') = false /\
  Engine.dolfin_constant p' = Engine.value p'.
Proof.
  intros Hd Hvv. unfold Engine.assign_new_value.
  destruct (Float.isnan v) eqn:Hnan; [discriminate|].
  intros [= <-]. cbn. rewrite Hvv. repeat split; try exact Hnan; apply Hd.
Qed.

Lemma update_parameter_updated (self : Engine.Model)
    (p p' : Engine.parameter) :
  Engine.update_parameter self p = Ok p' ->
  Engine.updated (Engine.to_float self (Engine.t self)) p p'.
Proof.
  unfold Engine.update_parameter, Engine.updated, Engine.becomes_expression.
  set (tf := Engine.to_float self (Engine.t self)).
  destruct (Engine.type p) eqn:Hty.
  - (* constant *)
    destruct (Engine.is_time_dependent p); cbn [negb].
    + destruct (Engine.use_preintegration p); discriminate.
    + intros [= <-]. split; [apply same_description_refl | reflexivity].
  - (* expression *)
    destruct (Engine.is_time_dependent p); cbn [negb];
      [|intros [= <-]; split; [apply same_description_refl | reflexivity]].
    destruct (Engine.use_preintegration p) eqn:Hpre; cbn [negb andb].
    + intros H. apply bind_Ok in H as ([[a b] p0] & Hab & H).
      assert (Hp0 : Engine.same_description p p0 /\
                    Engine.value_vector p0 = Engine.value_vector p /\
                    Engine.value p0 = Engine.value p).
      { destruct (Engine.preint_sym_expr p).
        - injection Hab as _ _ <-.
          split; [apply same_description_refl | split; reflexivity].
        - apply bind_Ok in Hab as (a0 & _ & Hab). injection Hab as _ _ <-.
          split; [unfold Engine.same_description; cbn; repeat split
                 | split; reflexivity]. }
      destruct Hp0 as (Hd & Hvv & Hv).
      assert (Hsd0 : Engine.is_space_dependent p0
                     = Engine.is_space_dependent p) by apply Hd.
      cbv beta iota zeta in H. rewrite Hsd0 in H.
      destruct (Engine.is_space_dependent p) eqn:Hsd.
      * injection H as <-. split.
        { unfold Engine.same_description in *. cbn. exact Hd. }
        split; [discriminate|]. cbn.
        split; [exact Hv | split; [exact Hvv | eexists; reflexivity]].
      * apply (assign_new_value_updated _ _ p) in H as (Hd' & Hvv' & Hn & Hc);
          [|exact Hd | exact Hvv].
        split; [exact Hd'|]. split; [discriminate|].
        split; [exact Hvv' | right; split; assumption].
    + intros [= <-]. split.
      { unfold Engine.same_description. cbn. repeat split. }
      split; [discriminate|]. cbn. split; [reflexivity|].
      left. split; reflexivity.
  - (* from_file *)
    destruct (Engine.is_time_dependent p); cbn [negb];
      [|intros [= <-]; split; [apply same_description_refl | reflexivity]].
    destruct (Engine.use_preintegration p) eqn:Hpre; cbn [negb].
    + intros H. apply bind_Ok in H as (a & _ & H).
      apply bind_Ok in H as (b & _ & H).
      apply (assign_new_value_updated _ _ p) in H as (Hd' & Hvv' & Hn & Hc);
        [|apply same_description_refl | reflexivity].
      split; [exact Hd'|]. split; [discriminate|].
      split; [exact Hvv' | right; split; assumption].
    + intros H. apply bind_Ok in H as (t0 & _ & H).
      apply bind_Ok in H as (t1 & _ & H).
      destruct (_ || _); [discriminate|].
      apply bind_Ok in H as (v & _ & H).
      apply (assign_new_value_updated _ _ p) in H as (Hd' & Hvv' & Hn & Hc);
        [|apply same_description_refl | reflexivity].
      split; [exact Hd'|]. split; [discriminate|].
      split; [exact Hvv' | right; split; assumption].
  - (* from_xdmf *)
    intros H. apply bind_Ok in H as (loaded & _ & H).
    destruct (decide _) as [_|Hlen]; [discriminate|].
    apply bind_Ok in H as (new_vals & Hre & H). injection H as <-.
    apply reorder_length in Hre. split.
    { unfold Engine.same_description. cbn. repeat split. }
    cbn. split; [exact Hre | split; reflexivity].
Qed.

Lemma update_parameters_updated (self : Engine.Model)
    (ps ps' : list Engine.parameter) :
  Engine.update_parameters self ps = Ok ps' ->
  Forall2 (Engine.updated (Engine.to_float self (Engine.t self))) ps ps'.
Proof.
  revert ps'. induction ps as [|p rest IH]; intros ps' H.
  - injection H as <-. constructor.
  - cbn [Engine.update_parameters] in H.
    apply bind_Ok in H as (p' & Hp & H).
    apply bind_Ok in H as (rest' & Hrest & H). injection H as <-.
    constructor; [apply update_parameter_updated; exact Hp | apply IH, Hrest].
Qed.

(** X18: an update of the time-dependent parameters that returns has
    changed nothing in the model but the parameters, and keeps them in
    place: as many as before, each with its name, type, flags and data. A
    parameter that does not depend on time is untouched. Every other
    scalar parameter has exactly one new row in its history
    [value_vector], stamped with the current time and holding its new
    value, which is also the value of its dolfin constant and is not NaN
    (an expression evaluated directly apart); a pre-integrated
    space-dependent expression gets a dolfin expression instead, and a
    field read from a file as many values as its function space has
    dofs. No time-dependent parameter of constant type survives the
    call. *)
Theorem X18_parameter_update_keeps_the_books (self s' : Engine.Model) :
  Engine.update_time_dependent_parameters self = Ok s' ->
  s' = Engine.with_pc (Engine.pc s') self /\
  length (Engine.pc s') = length (Engine.pc self) /\
  Forall2 (Engine.updated (Engine.to_float self (Engine.t self)))
    (Engine.pc self) (Engine.pc s').
Proof.
  unfold Engine.update_time_dependent_parameters. intros H.
  apply bind_Ok in H as (ps & Hps & H). injection H as <-.
  cbn [Engine.pc Engine.with_pc].
  apply update_parameters_updated in Hps.
  split; [reflexivity|]. split; [|exact Hps].
  symmetry. eapply Forall2_length. exact Hps.
Qed.

Lemma X18_parameter_update_keeps_the_books_witness :
  exists s',
    Engine.update_time_dependent_parameters Engine.with_two_parameters
    = Ok s' /\
    length (Engine.pc s') = length (Engine.pc Engine.with_two_parameters) /\
    Forall2 (Engine.updated
               (Engine.to_float Engine.with_two_parameters
                  (Engine.t Engine.with_two_parameters)))
      (Engine.pc Engine.with_two_parameters) (Engine.pc s').
Proof.
  destruct (Engine.update_time_dependent_parameters
              Engine.with_two_parameters) as [s'|e] eqn:H;
    [|vm_compute in H; discriminate].
  exists s'. split; [reflexivity|].
  exact (proj2 (X18_parameter_update_keeps_the_books
                  Engine.with_two_parameters s' H)).
Defined.

(** ** Species and their compartments *)

Lemma dict_update_fresh (k : string) (v : nat) (d : list (string * nat)) :
  k ∉ map fst d -> Linking.dict_update k v d = d ++ [(k, v)].
Proof.
  induction d as [|[k' v'] rest IH]; intros Hk; [reflexivity|].
  cbn [Linking.dict_update]. cbn [map fst] in Hk.
  apply not_elem_of_cons in Hk as [Hne Hk].
  destruct (decide (k' = k)) as [->|_]; [congruence|].
  cbn [app]. f_equal. apply IH. exact Hk.
Qed.

Lemma entries_elem (all : list Linking.Species) (ref j : nat)
    (n : string) (i : nat) :
  (n, i) ∈ Linking.entries all ref j <->
  exists s, all !! (i - ref)%nat = Some s /\ (ref <= i)%nat /\
            Linking.compartment s = j /\ Linking.name s = n.
Proof.
  revert ref. induction all as [|s0 rest IH]; intros ref.
  - cbn [Linking.entries]. split.
    + intros H. apply elem_of_nil in H. contradiction.
    + intros (s & Hs & _). discriminate.
  - cbn [Linking.entries].
    assert (Hrest : (n, i) ∈ Linking.entries rest (S ref) j <->
              exists s, (s0 :: rest) !! (i - ref)%nat = Some s /\
                        (S ref <= i)%nat /\
                        Linking.compartment s = j /\ Linking.name s = n).
    { rewrite IH. split.
      - intros (s & Hs & Hle & Hc & Hn). exists s.
        replace (i - ref)%nat with (S (i - S ref)) by lia.
        split; [exact Hs|]. split; [lia|]. split; assumption.
      - intros (s & Hs & Hle & Hc & Hn). exists s.
        replace (i - ref)%nat with (S (i - S ref)) in Hs by lia.
        split; [exact Hs|]. split; [lia|]. split; assumption. }
    destruct (decide (Linking.compartment s0 = j)) as [Hj|Hj].
    + rewrite elem_of_cons, Hrest. split.
      * intros [[= -> ->]|(s & Hs & Hle & Hc & Hn)].
        -- exists s0. rewrite Nat.sub_diag. repeat split; try lia; assumption.
        -- exists s. split; [exact Hs|]. split; [lia|]. split; assumption.
      * intros (s & Hs & Hle & Hc & Hn).
        destruct (decide (i = ref)) as [->|Hne].
        -- left. rewrite Nat.sub_diag in Hs. injection Hs as <-.
           rewrite Hn. reflexivity.
        -- right. exists s. split; [exact Hs|]. split; [lia|].
           split; assumption.
    + rewrite Hrest. split.
      * intros (s & Hs & Hle & Hc & Hn). exists s.
        split; [exact Hs|]. split; [lia|]. split; assumption.
      * intros (s & Hs & Hle & Hc & Hn). exists s.
        split; [exact Hs|]. split; [|split; assumption].
        destruct (decide (i = ref)) as [->|Hne]; [|lia].
        rewrite Nat.sub_diag in Hs. injection Hs as <-. contradiction.
Qed.

Lemma entries_refs_from (all : list Linking.Species) (ref j i : nat) :
  i ∈ map snd (Linking.entries all ref j) -> (ref <= i)%nat.
Proof.
  intros H. apply list_elem_of_fmap in H as ([n i'] & -> & H).
  apply entries_elem in H as (s & _ & Hle & _). exact Hle.
Qed.

Lemma entries_NoDup (all : list Linking.Species) (ref j : nat) :
  NoDup (map snd (Linking.entries all ref j)).
Proof.
  revert ref. induction all as [|s0 rest IH]; intros ref.
  - constructor.
  - cbn [Linking.entries].
    destruct (decide (Linking.compartment s0 = j)); [|apply IH].
    cbn [map snd]. constructor; [|apply IH].
    intros H. apply entries_refs_from in H. lia.
Qed.

Lemma entries_position (all : list Linking.Species) (ref m : nat)
    (s : Linking.Species) :
  all !! m = Some s ->
  exists k, Linking.entries all ref (Linking.compartment s) !! k
            = Some (Linking.name s, (ref + m)%nat).
Proof.
  intros Hs.
  assert (H : (Linking.name s, (ref + m)%nat)
              ∈ Linking.entries all ref (Linking.compartment s)).
  { apply entries_elem. exists s.
    replace (ref + m - ref)%nat with m by lia.
    split; [exact Hs|]. split; [lia|]. split; reflexivity. }
  apply list_elem_of_lookup in H. exact H.
Qed.

Lemma entries_keys (all : list Linking.Species) (ref j : nat) (n : string) :
  n ∈ map fst (Linking.entries all ref j) -> n ∈ map Linking.name all.
Proof.
  intros H. apply list_elem_of_fmap in H as ([n' i] & -> & H).
  apply entries_elem in H as (s & Hs & _ & _ & <-).
  apply list_elem_of_fmap. exists s. split; [reflexivity|].
  eapply list_elem_of_lookup_2. exact Hs.
Qed.

Lemma link_spec (all : list Linking.Species) (ref : nat)
    (cc : list Linking.Compartment) (j : nat) :
  NoDup (map Linking.name all) ->
  (forall c s, c ∈ cc -> s ∈ all ->
     Linking.name s ∉ map fst (Linking.species c)) ->
  Linking.link all ref cc !! j
  = Linking.with_entries (Linking.entries all ref j) <$> cc !! j.
Proof.
  revert ref cc. induction all as [|s0 rest IH]; intros ref cc Hnd Hfresh.
  - cbn [Linking.link Linking.entries].
    destruct (cc !! j) as [[sp ns]|]; [|reflexivity].
    cbn. unfold Linking.with_entries. cbn. rewrite app_nil_r. reflexivity.
  - cbn [Linking.link]. cbn [map] in Hnd. apply NoDup_cons in Hnd as [Hn0 Hnd].
    rewrite IH; [|exact Hnd|].
    + destruct (decide (j = Linking.compartment s0)) as [->|Hne].
      * rewrite list_lookup_alter_eq.
        destruct (cc !! Linking.compartment s0) as [c|] eqn:Hc;
          [|reflexivity].
        cbn [fmap option_fmap option_map]. f_equal.
        unfold Linking.with_entries, Linking.add_species.
        cbn [Linking.species Linking.num_species Linking.entries].
        rewrite decide_True by reflexivity.
        rewrite dict_update_fresh.
        -- rewrite <- app_assoc. reflexivity.
        -- apply (Hfresh c s0).
           ++ eapply list_elem_of_lookup_2. exact Hc.
           ++ apply list_elem_of_here.
      * rewrite list_lookup_alter_ne by congruence.
        cbn [Linking.entries]. rewrite decide_False by congruence.
        reflexivity.
    + intros c1 s Hc1 Hs.
      apply list_elem_of_lookup in Hc1 as (j1 & Hj1).
      assert (Hs0 : Linking.name s <> Linking.name s0).
      { intros Heq. apply Hn0. rewrite <- Heq.
        apply list_elem_of_fmap. exists s. split; [reflexivity | exact Hs]. }
      destruct (decide (j1 = Linking.compartment s0)) as [->|Hne].
      * rewrite list_lookup_alter_eq in Hj1.
        destruct (cc !! Linking.compartment s0) as [c|] eqn:Hc;
          [|discriminate].
        injection Hj1 as <-.
        assert (Hc0 : Linking.name s0 ∉ map fst (Linking.species c)).
        { apply (Hfresh c s0);
            [eapply list_elem_of_lookup_2; exact Hc | apply list_elem_of_here]. }
        unfold Linking.add_species. cbn [Linking.species].
        rewrite dict_update_fresh by exact Hc0.
        rewrite map_app. cbn [map fst]. intros Hin.
        apply elem_of_app in Hin as [Hin|Hin].
        -- revert Hin. apply (Hfresh c s);
             [eapply list_elem_of_lookup_2; exact Hc
             | apply list_elem_of_further; exact Hs].
        -- apply list_elem_of_singleton in Hin. contradiction.
      * rewrite list_lookup_alter_ne in Hj1 by congruence.
        apply (Hfresh c1 s);
          [eapply list_elem_of_lookup_2; exact Hj1
          | apply list_elem_of_further; exact Hs].
Qed.

Lemma number_other (refs : list nat) (index : nat)
    (sc : list Linking.Species) (i : nat) :
  i ∉ refs -> Linking.number refs index sc !! i = sc !! i.
Proof.
  revert index sc. induction refs as [|r rest IH]; intros index sc Hi;
    [reflexivity|].
  apply not_elem_of_cons in Hi as [Hne Hi].
  cbn [Linking.number]. rewrite IH by exact Hi.
  apply list_lookup_alter_ne. congruence.
Qed.

Lemma number_spec (refs : list nat) (index : nat)
    (sc : list Linking.Species) (i k : nat) :
  NoDup refs -> refs !! k = Some i ->
  Linking.number refs index sc !! i
  = Linking.set_dof_index (index + k) <$> sc !! i.
Proof.
  revert index sc k. induction refs as [|r rest IH]; intros index sc k Hnd Hk;
    [discriminate|].
  apply NoDup_cons in Hnd as [Hr Hnd]. cbn [Linking.number].
  destruct k as [|k].
  - injection Hk as ->. rewrite number_other by exact Hr.
    rewrite list_lookup_alter_eq, Nat.add_0_r. reflexivity.
  - cbn in Hk. rewrite (IH _ _ k Hnd Hk).
    assert (Hne : r <> i).
    { intros ->. apply Hr. eapply list_elem_of_lookup_2. exact Hk. }
    rewrite list_lookup_alter_ne by exact Hne.
    replace (S index + k)%nat with (index + S k)%nat by lia. reflexivity.
Qed.

Lemma number_all_spec (cs : list Linking.Compartment) (j0 : nat)
    (sc : list Linking.Species) (i h k : nat) :
  (forall j c, cs !! j = Some c -> NoDup (map snd (Linking.species c))) ->
  (forall j c, cs !! j = Some c -> i ∈ map snd (Linking.species c) ->
     (j0 + j)%nat = h) ->
  (forall c, (j0 <= h)%nat -> cs !! (h - j0)%nat = Some c ->
     map snd (Linking.species c) !! k = Some i) ->
  Linking.number_all cs sc !! i
  = if decide (j0 <= h < j0 + length cs)%nat
    then Linking.set_dof_index k <$> sc !! i
    else sc !! i.
Proof.
  revert j0 sc. induction cs as [|c rest IH]; intros j0 sc Hnd Hhome Hk.
  - cbn [Linking.number_all length].
    rewrite decide_False by lia. reflexivity.
  - cbn [Linking.number_all length].
    rewrite (IH (S j0)).
    + destruct (decide (h = j0)) as [->|Hne].
      * rewrite decide_False by lia. rewrite decide_True by lia.
        rewrite (number_spec _ 0 sc i k).
        -- reflexivity.
        -- apply (Hnd 0%nat c). reflexivity.
        -- apply Hk; [lia|]. rewrite Nat.sub_diag. reflexivity.
      * rewrite number_other.
        -- destruct (decide (S j0 <= h < S j0 + length rest)%nat);
             [rewrite decide_True by lia | rewrite decide_False by lia];
             reflexivity.
        -- intros Hin. apply (Hhome 0%nat c eq_refl) in Hin. lia.
    + intros j c' Hj. apply (Hnd (S j) c'). exact Hj.
    + intros j c' Hj Hin.
      pose proof (Hhome (S j) c' Hj Hin). lia.
    + intros c' Hle Hc'. apply Hk; [lia|].
      replace (h - j0)%nat with (S (h - S j0)) by lia. exact Hc'.
Qed.

(** X19: after [_init_2_6] and [_init_2_7], on species that refer to
    compartments of the model, bear distinct names and are not listed in any
    compartment yet, every compartment lists exactly the species that refer
    to it, in the order of [self.sc], and [num_species] is their number;
    every species has kept its name and compartment and its [dof_index] is
    its rank in the list of its compartment: the indices of a compartment
    run from 0 to [num_species - 1] in declaration order. *)
Theorem X19_species_are_numbered_within_their_compartment
    (o : Linking.objects) :
  Linking.linked o ->
  let o' := Linking._init_2_7_get_species_compartment_indices
              (Linking._init_2_6_link_species_to_compartments o) in
  length (Linking.cc o') = length (Linking.cc o) /\
  length (Linking.sc o') = length (Linking.sc o) /\
  (forall j c', Linking.cc o' !! j = Some c' ->
     Linking.species c' = Linking.entries (Linking.sc o) 0 j /\
     Linking.num_species c'
     = Some (length (Linking.entries (Linking.sc o) 0 j))) /\
  (forall n i j,
     (n, i) ∈ Linking.entries (Linking.sc o) 0 j <->
     exists s, Linking.sc o !! i = Some s /\
               Linking.compartment s = j /\ Linking.name s = n) /\
  (forall i s, Linking.sc o !! i = Some s ->
     exists s' k,
       Linking.sc o' !! i = Some s' /\
       Linking.name s' = Linking.name s /\
       Linking.compartment s' = Linking.compartment s /\
       Linking.dof_index s' = Some k /\
       Linking.entries (Linking.sc o) 0 (Linking.compartment s) !! k
       = Some (Linking.name s, i)).
Proof.
  intros (Hrefs & Hnd & Hempty). cbv zeta.
  destruct o as [sc cc]. cbn [Linking.sc Linking.cc] in *.
  unfold Linking._init_2_7_get_species_compartment_indices,
    Linking._init_2_6_link_species_to_compartments.
  cbn [Linking.sc Linking.cc].
  assert (Hfresh : forall c s, c ∈ cc -> s ∈ sc ->
            Linking.name s ∉ map fst (Linking.species c)).
  { intros c s Hc _. rewrite Forall_forall in Hempty.
    rewrite (Hempty c Hc). apply not_elem_of_nil. }
  assert (Hcc : forall j,
            map Linking.count_species (Linking.link sc 0 cc) !! j
            = (fun c => Linking.count_species
                          (Linking.with_entries (Linking.entries sc 0 j) c))
              <$> cc !! j).
  { intros j. rewrite list_lookup_fmap, (link_spec sc 0 cc j Hnd Hfresh).
    destruct (cc !! j); reflexivity. }
  assert (Hsp : forall j c',
            map Linking.count_species (Linking.link sc 0 cc) !! j = Some c' ->
            Linking.species c' = Linking.entries sc 0 j /\
            Linking.num_species c' = Some (length (Linking.entries sc 0 j))).
  { intros j c' Hj. rewrite Hcc in Hj.
    destruct (cc !! j) as [c|] eqn:Hc; [|discriminate].
    injection Hj as <-. rewrite Forall_forall in Hempty.
    assert (Hce : Linking.species c = []).
    { apply Hempty. eapply list_elem_of_lookup_2. exact Hc. }
    unfold Linking.count_species, Linking.with_entries.
    cbn [Linking.species Linking.num_species]. rewrite Hce.
    split; reflexivity. }
  assert (Hlen : length (map Linking.count_species (Linking.link sc 0 cc))
                 = length cc).
  { apply Nat.le_antisymm.
    - destruct (decide (length (map Linking.count_species
                                  (Linking.link sc 0 cc)) <= length cc)%nat)
        as [H|H]; [exact H|exfalso].
      destruct (lookup_lt_is_Some_2
                  (map Linking.count_species (Linking.link sc 0 cc))
                  (length cc) ltac:(lia)) as [c' Hc'].
      rewrite Hcc, lookup_ge_None_2 in Hc' by lia. discriminate.
    - destruct (decide (length cc <= length (map Linking.count_species
                                  (Linking.link sc 0 cc)))%nat)
        as [H|H]; [exact H|exfalso].
      pose proof (Hcc (length (map Linking.count_species
                                 (Linking.link sc 0 cc)))) as Hl.
      rewrite lookup_ge_None_2 in Hl by lia.
      destruct (lookup_lt_is_Some_2 cc
                  (length (map Linking.count_species (Linking.link sc 0 cc)))
                  ltac:(lia)) as [c Hc].
      rewrite Hc in Hl. discriminate. }
  assert (Hsc : forall i s, sc !! i = Some s ->
            exists k,
              Linking.number_all
                (map Linking.count_species (Linking.link sc 0 cc)) sc !! i
              = Some (Linking.set_dof_index k s) /\
              Linking.entries sc 0 (Linking.compartment s) !! k
              = Some (Linking.name s, i)).
  { intros i s Hs.
    destruct (entries_position sc 0 i s Hs) as [k Hk]. cbn [Nat.add] in Hk.
    exists k. split; [|exact Hk].
    rewrite (number_all_spec _ 0 sc i (Linking.compartment s) k).
    - rewrite Hlen. rewrite Forall_forall in Hrefs.
      rewrite decide_True.
      + rewrite Hs. reflexivity.
      + split; [lia|]. cbn [Nat.add]. apply Hrefs.
        eapply list_elem_of_lookup_2. exact Hs.
    - intros j c' Hj. destruct (Hsp j c' Hj) as [-> _]. apply entries_NoDup.
    - intros j c' Hj Hin. destruct (Hsp j c' Hj) as [Hc' _].
      rewrite Hc' in Hin.
      apply list_elem_of_fmap in Hin as ([n i'] & Hi' & Hin).
      cbn [snd] in Hi'. subst i'.
      apply entries_elem in Hin as (s1 & Hs1 & _ & Hc1 & _).
      rewrite Nat.sub_0_r, Hs in Hs1. injection Hs1 as <-.
      cbn [Nat.add]. congruence.
    - intros c' _ Hc'. rewrite Nat.sub_0_r in Hc'.
      destruct (Hsp _ c' Hc') as [-> _].
      rewrite list_lookup_fmap, Hk. reflexivity. }
  split; [exact Hlen|]. split.
  { apply Nat.le_antisymm.
    - destruct (decide (length (Linking.number_all
                  (map Linking.count_species (Linking.link sc 0 cc)) sc)
                <= length sc)%nat) as [H|H]; [exact H|exfalso].
      clear Hsc.
      assert (Hgen : forall cs l, length (Linking.number_all cs l) = length l).
      { induction cs as [|c rest IH]; intros l; [reflexivity|].
        cbn [Linking.number_all]. rewrite IH.
        generalize 0%nat. generalize (map snd (Linking.species c)).
        intros refs. revert l. induction refs as [|r refs IHr];
          intros l n; [reflexivity|].
        cbn [Linking.number]. rewrite IHr. apply length_alter. }
      rewrite Hgen in H. lia.
    - destruct (decide (length sc <= length (Linking.number_all
                  (map Linking.count_species (Linking.link sc 0 cc)) sc))%nat)
        as [H|H]; [exact H|exfalso].
      destruct sc as [|s0 sc0] using rev_ind; [cbn in H; lia|].
      clear IHsc0.
      destruct (Hsc (length sc0) s0) as (k & Hk & _).
      { rewrite lookup_app_r by lia. rewrite Nat.sub_diag. reflexivity. }
      apply lookup_lt_Some in Hk. rewrite length_app in H. cbn in H. lia. }
  split; [exact Hsp|]. split.
  { intros n i j. rewrite entries_elem. rewrite Nat.sub_0_r. split.
    - intros (s & Hs & _ & Hc & Hn). exists s. repeat split; assumption.
    - intros (s & Hs & Hc & Hn). exists s.
      split; [exact Hs|]. split; [lia|]. split; assumption. }
  intros i s Hs. destruct (Hsc i s Hs) as (k & Hk & Hpos).
  exists (Linking.set_dof_index k s), k.
  split; [exact Hk|]. repeat split. exact Hpos.
Qed.

Lemma X19_species_are_numbered_within_their_compartment_witness :
  Linking.linked Linking.example /\
  exists s' k,
    Linking.sc
      (Linking._init_2_7_get_species_compartment_indices
         (Linking._init_2_6_link_species_to_compartments Linking.example))
      !! 2%nat = Some s' /\
    Linking.name s' = "B"%string /\
    Linking.compartment s' = 0%nat /\
    Linking.dof_index s' = Some k /\
    Linking.entries (Linking.sc Linking.example) 0 0 !! k
    = Some ("B"%string, 2%nat).
Proof.
  assert (H : Linking.linked Linking.example).
  { unfold Linking.linked, Linking.example. cbn [Linking.sc Linking.cc].
    split; [repeat constructor|]. split; [|repeat constructor].
    cbn. repeat constructor; rewrite ?elem_of_cons, ?elem_of_nil;
      intros Hc; repeat destruct Hc as [Hc|Hc]; try discriminate;
      try contradiction. }
  split; [exact H|].
  exact (proj2 (proj2 (proj2 (proj2
           (X19_species_are_numbered_within_their_compartment
              Linking.example H))))
           2%nat {| Linking.name := "B"; Linking.compartment := 0;
                    Linking.dof_index := None |} eq_refl).
Defined.

(** ** The residual blocks: padding and placement *)

Lemma place_blocks_spec (Fblock : list Blocks.Form)
    (Ftemp R : list (option Blocks.Form)) :
  Blocks.place_blocks Fblock Ftemp = Ok R ->
  length R = length Ftemp /\
  Forall (fun F => Blocks.part F < length Ftemp)%nat Fblock /\
  forall i,
    R !! i = match BlockSystem.placed Fblock i with
             | Some F => Some (Some F)
             | None => Ftemp !! i
             end.
Proof.
  revert Ftemp. induction Fblock as [|Fi rest IH]; intros Ftemp H.
  - injection H as <-. split; [reflexivity|]. split; [constructor|].
    intros i. reflexivity.
  - cbn [Blocks.place_blocks] in H. unfold Py.setitem in H.
    destruct (decide (Blocks.part Fi < length Ftemp)%nat) as [Hlt|_];
      [|discriminate].
    cbn [Py.bind] in H. apply IH in H as (Hlen & Hall & Hlk).
    rewrite length_insert in Hlen, Hall.
    split; [exact Hlen|]. split; [constructor; assumption|].
    intros i. rewrite Hlk. unfold BlockSystem.placed.
    rewrite filter_cons.
    destruct (decide (Blocks.part Fi = i)) as [<-|Hne].
    + rewrite last_cons.
      destruct (last (filter _ rest)) as [F|]; [reflexivity|].
      apply list_lookup_insert_eq. exact Hlt.
    + destruct (last (filter _ rest)) as [F|]; [reflexivity|].
      apply list_lookup_insert_ne. exact Hne.
Qed.

Lemma place_blocks_out_of_range (Fblock : list Blocks.Form)
    (Ftemp : list (option Blocks.Form)) :
  Exists (fun F => length Ftemp <= Blocks.part F)%nat Fblock ->
  Blocks.place_blocks Fblock Ftemp = Raise IndexError.
Proof.
  revert Ftemp. induction Fblock as [|Fi rest IH]; intros Ftemp H.
  - inversion H.
  - cbn [Blocks.place_blocks]. unfold Py.setitem.
    destruct (decide (Blocks.part Fi < length Ftemp)%nat) as [Hlt|Hge];
      [|reflexivity].
    cbn [Py.bind]. apply IH. rewrite length_insert.
    apply Exists_cons in H as [H|H]; [lia | exact H].
Qed.

Lemma blocks_split_by_domain_spec (cc_names : list string)
    (all_meshes : list Blocks.Mesh) (idx : nat)
    (subs Fs : list (option Blocks.SubForm)) log Fs' log' :
  Blocks.split_by_domain cc_names all_meshes idx subs Fs log
  = Ok (Fs', log') ->
  exists new, Fs' = Fs ++ new /\
    Forall2 (fun sub out =>
               exists f, sub = Some f /\
                 out = if Blocks.sub_empty f then None else Some f)
      subs new.
Proof.
  revert Fs log. induction subs as [|sub rest IH]; intros Fs log H.
  - injection H as <- <-. exists []. rewrite app_nil_r. split; constructor.
  - cbn [Blocks.split_by_domain] in H.
    destruct sub as [f|]; [|discriminate].
    destruct (Blocks.sub_empty f) eqn:He.
    + destruct (Blocks.get_mesh_by_id all_meshes (Blocks.sub_mesh f))
        as [[m|]|e]; try discriminate.
      cbn [Py.bind] in H.
      destruct (Blocks.get_index_name cc_names idx) as [c|e];
        [|discriminate].
      cbn [Py.bind] in H. apply IH in H as (new & -> & Hall).
      exists (None :: new). rewrite <- app_assoc. split; [reflexivity|].
      constructor; [|exact Hall]. exists f. rewrite He. split; reflexivity.
    + apply IH in H as (new & -> & Hall).
      exists (Some f :: new). rewrite <- app_assoc. split; [reflexivity|].
      constructor; [|exact Hall]. exists f. rewrite He. split; reflexivity.
Qed.

Lemma blocks_split_blocks_spec (cc_names : list string)
    (all_meshes : list Blocks.Mesh) (idx : nat)
    (Fblock : list (option Blocks.Form))
    (Flist : list (list (option Blocks.SubForm))) log Flist' log' :
  Blocks.split_blocks cc_names all_meshes idx Fblock Flist log
  = Ok (Flist', log') ->
  exists new, Flist' = Flist ++ new /\
    Forall2 BlockSystem.decomposed Fblock new.
Proof.
  revert idx Flist log. induction Fblock as [|Fi rest IH];
    intros idx Flist log H.
  - injection H as <- <-. exists []. rewrite app_nil_r. split; constructor.
  - cbn [Blocks.split_blocks] in H.
    assert (Hskip :
      (let* cname := Blocks.get_index_name cc_names idx in
       Blocks.split_blocks cc_names all_meshes (S idx) rest
         (Flist ++ [[None]]) (log ++ [Blocks.block_is_empty idx cname]))
      = Ok (Flist', log') ->
      exists new, Flist' = Flist ++ [None] :: new /\
        Forall2 BlockSystem.decomposed rest new).
    { intros Hr.
      destruct (Blocks.get_index_name cc_names idx) as [c|e];
        [|discriminate].
      cbn [Py.bind] in Hr. apply IH in Hr as (new & -> & Hall).
      exists new. rewrite <- app_assoc. split; [reflexivity | exact Hall]. }
    destruct Fi as [F|].
    + destruct (Blocks.empty F) eqn:He.
      * destruct (Hskip H) as (new & -> & Hall).
        exists ([None] :: new). split; [reflexivity|].
        constructor; [|exact Hall]. cbn. rewrite He. reflexivity.
      * destruct (Blocks.split_by_domain _ _ _ _ _ _) as [[Fs l1]|e] eqn:Hs;
          [|discriminate].
        cbn [Py.bind] in H. apply IH in H as (new & -> & Hall).
        apply blocks_split_by_domain_spec in Hs as (Fs1 & -> & HFs).
        exists (Fs1 :: new). rewrite <- app_assoc. split; [reflexivity|].
        constructor; [|exact Hall]. cbn. rewrite He. exact HFs.
    + destruct (Hskip H) as (new & -> & Hall).
      exists ([None] :: new). split; [reflexivity|].
      constructor; [|exact Hall]. reflexivity.
Qed.

(** X20: [get_block_F] lays the blocks out in two ways. When
    [extract_blocks] yields one block for every function of [u], entry [i]
    of [Flist] comes from the [i]-th extracted block, whatever part that
    block belongs to. Otherwise entry [i] comes from the last extracted
    block whose test function has part [i], and is the placeholder [[None]]
    when there is none; a part that is no index of [u] makes the call raise
    [IndexError]. In both cases [Flist] has [len(u)] entries, and a block
    is decomposed by integration domain with [None] for an empty
    sub-form. *)
Theorem X20_residual_blocks_are_placed_by_part
    (cc_names : list string) (all_meshes : list Blocks.Mesh)
    (extracted : list Blocks.Form) (len_u : nat) :
  (length extracted <> len_u ->
   Exists (fun F => len_u <= Blocks.part F)%nat extracted ->
   Blocks.get_block_F cc_names all_meshes extracted len_u
   = Raise IndexError) /\
  (forall Flist log,
   Blocks.get_block_F cc_names all_meshes extracted len_u = Ok (Flist, log) ->
   length Flist = len_u /\
   forall i, (i < len_u)%nat ->
     exists Fs, Flist !! i = Some Fs /\
       BlockSystem.decomposed
         (if decide (length extracted = len_u) then extracted !! i
          else BlockSystem.placed extracted i) Fs).
Proof.
  unfold Blocks.get_block_F. split.
  - intros Hne Hex. rewrite decide_True by exact Hne.
    rewrite place_blocks_out_of_range; [reflexivity|].
    rewrite length_replicate. exact Hex.
  - intros Flist log.
    destruct (decide (length extracted <> len_u)) as [Hne|Heq].
    + destruct (Blocks.place_blocks _ _) as [R|e] eqn:HR; [|discriminate].
      cbn [Py.bind]. apply place_blocks_spec in HR as (Hlen & _ & Hlk).
      rewrite length_replicate in Hlen.
      rewrite decide_True by exact Hlen. intros H.
      apply blocks_split_blocks_spec in H as (new & -> & Hall).
      cbn [app]. pose proof (Forall2_length _ _ _ Hall) as Hl.
      split; [lia|]. intros i Hi.
      rewrite decide_False by exact Hne.
      assert (HRi : R !! i = Some (BlockSystem.placed extracted i)).
      { rewrite Hlk. destruct (BlockSystem.placed extracted i);
          [reflexivity|]. apply lookup_replicate_2. exact Hi. }
      destruct (Forall2_lookup_l _ _ _ _ _ Hall HRi) as (Fs & HFs & Hd).
      exists Fs. split; assumption.
    + assert (Hlen : length extracted = len_u).
      { destruct (decide (length extracted = len_u)); [assumption|].
        contradiction. }
      cbn [Py.bind]. rewrite length_map. rewrite decide_True by exact Hlen.
      intros H. apply blocks_split_blocks_spec in H as (new & -> & Hall).
      cbn [app]. pose proof (Forall2_length _ _ _ Hall) as Hl.
      rewrite length_map in Hl.
      split; [lia|]. intros i Hi.
      rewrite decide_True by exact Hlen.
      destruct (lookup_lt_is_Some_2 extracted i ltac:(lia)) as [F HF].
      assert (HFi : map Some extracted !! i = Some (Some F)).
      { rewrite list_lookup_fmap, HF. reflexivity. }
      destruct (Forall2_lookup_l _ _ _ _ _ Hall HFi) as (Fs & HFs & Hd).
      exists Fs. rewrite HF. split; assumption.
Qed.

Lemma X20_residual_blocks_are_placed_by_part_witness :
  Blocks.get_block_F ["cyto"%string; "pm"%string]
    [Blocks.mesh_cyto; Blocks.mesh_pm] [BlockSystem.F_pm] 1
  = Ok ([[Some {| Blocks.sub_mesh := 2; Blocks.sub_empty := false |}]], []) /\
  Blocks.get_block_F ["cyto"%string; "pm"%string]
    [Blocks.mesh_cyto; Blocks.mesh_pm]
    [BlockSystem.F_pm; BlockSystem.F_pm; BlockSystem.F_pm] 1
  = Raise IndexError /\
  exists Fs,
    [[None]; [Some {| Blocks.sub_mesh := 2; Blocks.sub_empty := false |}]]
      !! 1%nat = Some Fs /\
    BlockSystem.decomposed
      (if decide (length [BlockSystem.F_pm] = 2%nat)
       then [BlockSystem.F_pm] !! 1%nat
       else BlockSystem.placed [BlockSystem.F_pm] 1) Fs.
Proof.
  split; [vm_compute; reflexivity|]. split.
  - apply (X20_residual_blocks_are_placed_by_part
             ["cyto"%string; "pm"%string] [Blocks.mesh_cyto; Blocks.mesh_pm]
             [BlockSystem.F_pm; BlockSystem.F_pm; BlockSystem.F_pm] 1).
    + cbn. lia.
    + constructor. cbn. lia.
  - refine (proj2 (proj2 (X20_residual_blocks_are_placed_by_part
             ["cyto"%string; "pm"%string] [Blocks.mesh_cyto; Blocks.mesh_pm]
             [BlockSystem.F_pm] 2) _
             [Blocks.block_is_empty 0 "cyto"] _) 1%nat _).
    + vm_compute. reflexivity.
    + lia.
Defined.
